(* ===== verification/_CoqProject ===== *)
-Q . S2P
Prelude.v
Crypto.v
Jwt.v
UserModel.v
Http.v
Fixtures.v
Auth.v
Crud.v
AuthProps.v
Concurrency.v
Session.v
Invariants.v
Lifecycle.v
Threads.v
Server.v
Races.v
ResetPairs.v
