(* ===== verification/Prelude.v ===== *)
(** * A verification development of the user-account controller of
      darylsimene/e-commerce

    ** The program

    The repository is an Express/Mongoose service.  Its only source file
    under [src/] is [src/controllers/userController.js]: eleven request
    handlers that read a request ([req.body], [req.query], [req.params],
    [req.user]), talk to the Mongoose model [User], and either build an
    HTTP response ([res.status(..).cookie(..).json(..)]) or throw an
    [Error] that the framework turns into an error response.  The handlers
    fall into two groups:
    - the credential lifecycle: [login], [forgotPassword],
      [resetPassword], [updatePassword], [logout], and the helper
      [sendTokenResponse] that issues the session token (a JWT) and sets
      the [token] cookie;
    - record CRUD: [getUsers], [postUser], [deleteUsers], [getUser],
      [updateUser], [deleteUser].
    The handlers call three methods of the [User] model that live in
    [models/User.js], which is not under [src/]: [getSignedJwtToken],
    [matchPassword] and [getResetPasswordToken], together with the
    model's pre-save hook that hashes a modified password.  These are
    modelled from the spec (sections 4.1 to 4.3) and are marked
    spec-modelled in the manifest.

    ** How the files model it

    - [Prelude] (this file): the exception-and-state monad [ST] in which
      every asynchronous handler is written ([let*] for [await], [throw]
      for [throw new Error(msg)], [catch] for [try/catch]); JavaScript
      truthiness of optional request fields; first-match search over a
      list (Mongo's [findOne] in natural order); [ret_spec], a
      Hoare-style postcondition on returned values, and [keeps], an
      invariant of the state kept by a computation, each with its rules
      and its decomposition tactic; the [auth] hint database and the
      tactics shared by the components.
    - [Crypto]: the interfaces of the primitives the code calls, as
      classes: [Digest] (sha256 hex digest of [crypto.createHash]),
      [PasswordHasher] (bcrypt hash/compare with its law) and [Mac] (the
      HMAC of the JWT signature), with the collision-freedom assumptions
      the spec makes ("with overwhelming probability") stated as
      separate classes, and small concrete instances used by witnesses.
    - [Jwt]: the session-token signer.  An abstract contract
      ([TokenSigner], a class with its laws) and the JWT implementation
      ([jwt_sign], [jwt_verify]: HMAC over [{id, iat, exp}], seconds
      since the epoch, signature checked before expiry), with the
      refinement proof that the implementation satisfies the contract;
      [token_spec], the spec's [issue]/[verify] as a relation on
      outcomes, which an honest JWT meets.
    - [UserModel]: the [User] record (the schema paths the controller
      touches), the in-memory Mongoose document with its set of modified
      paths, the collection as a list in natural order, the queries
      ([findOne] by email, by id, by reset token with [$gt]), [save]
      (writes only the modified paths; the pre-save hook hashes a
      modified password; a write may fail, driven by a fault schedule),
      and the model methods.
    - [Http]: requests, JSON bodies, cookies and the response builder of
      Express; [resp_wf], the shape of a well-formed response.
    - [Auth]: the credential handlers, one definition per handler,
      composed the way the code composes them, with their functional
      behaviour on every branch.
    - [Crud]: the record handlers [getUsers] (projection, limit and
      sort built from the query), [postUser] ([User.create] with a
      fresh id, validation and the save hook), [deleteUsers],
      [getUser], [updateUser] ([findByIdAndUpdate] with [$set], which
      runs no hook) and [deleteUser], each with its [catch] prefix.
    - [Fixtures]: a concrete configuration, token signer, two users and
      a world, on which every witness evaluates the handlers.
    - [AuthProps]: the lifecycle across requests: what
      [forgotPassword] stores and returns, single use of a reset token,
      overwrite on a new request, expiry, the compensating clear when
      the token's write fails, the end-to-end reset scenario of spec
      section 8, and the reset token digest that [resetPassword] leaves.
    - [Concurrency]: [resetPassword] and [forgotPassword] split at
      their [await]s (each split proved equal to its handler) and two
      requests interleaved read, read, write, write, as the event loop
      may run them.
    - [Session]: the client's cookie jar and the authentication
      middleware [protect] (modelled from the spec: verify the token
      cookie, load the user, set [req.user]), composing login, logout
      and [updatePassword] into sessions; the session token of the JWT
      signer configured by [JWT_SECRET] and [JWT_EXPIRE].
    - [Invariants]: a step relation on worlds generic in the router
      (any request, a clock tick, a new fault schedule) and its
      reachable worlds; over the credential routes the store stays well
      formed (unique ids, an expiry only beside a token digest, only
      bcrypt hashes stored) and no response carries a stored record;
      over every route every answer is a well-formed response.
    - [Lifecycle]: the credential state machine of spec sections 3, 4.3
      and 4.4 as a labelled step relation ([cred_step]: issue, consume,
      clear) on abstract credentials ([Cred]: identity, password hash,
      no token or a pending digest with its expiry), lifted to the
      abstract store with its clock ([astep]); the abstraction [cred_of]
      of a stored [User]; which transitions each credential route may
      make ([route_allows]).
    - [Threads]: the server under Node's event loop.  A request in
      flight is a [Thread]: finished, or suspended before a segment
      ([Await]) that runs atomically on the world and yields the rest
      of the thread.  A configuration is a world and the threads in
      flight; the scheduler ([sched_step], executable as [sched_at])
      resumes any suspended thread, and the server's steps ([cstep])
      add arrivals, clock ticks and fault schedules.  Generic lemmas:
      invariants of the world kept by every segment hold over every
      schedule (and, with a rely, under interference); a thread run to
      its end by the scheduler reaches what it computes alone.
    - [Server]: every handler split at its [await]s into a thread
      ([login_thread] ... [postUser_thread]; the CRUD handlers other
      than [postUser] await one operation and are one segment), each
      proved equal to its handler when run alone (a check of the split,
      used to run the race schedules); the operations that
      keep the store invariants (a [save] never stores an unhashed
      password, whatever document it writes and whatever was written
      since the document was read), hence the invariants over every
      schedule.
    - [Races]: the run read, read, write, write of [Concurrency] is a
      schedule of the server (both requests arrive, both queries run,
      then each request runs to its end), so the two lost updates of
      [Concurrency] happen with the handlers' threads themselves.
    - [ResetPairs]: the pairing of a reset expiry with its token digest
      (spec section 3) over every schedule of the credential routes,
      proved with the rely-guarantee judgement of [Threads]: the rely is
      that the random stream is fixed and its counter only grows; the
      guarantee of each segment is the store invariant together with
      "no stored digest is the digest of a draw still to come", under
      an injective random source.  A schedule where the source repeats
      a draw shows the hypothesis is needed: Mongoose's dirty checking
      then writes the cleared token of a failed [forgotPassword]
      without the expiry beside it.

    ** What the theorems show

    - Functional behaviour of each handler on every branch, errors
      included ([Auth]): a login with the right password issues a
      session cookie and token; the two rejection messages; the missing
      field guard; [updatePassword] never writes; a reset succeeds only
      with an unexpired token digest; [logout]'s cookie.
    - The reset lifecycle ([AuthProps]): the properties of spec section
      8 that hold, and the departures of the code from the spec as
      proved facts (the plaintext token in the response, the digest
      left after a reset, expiry reported as an invalid token).
    - The token contract ([Jwt]): [jwt_sign]/[jwt_verify] refine the
      [TokenSigner] contract; a token verifies during exactly its
      validity window and a tampered one never does.
    - The record handlers ([Crud]): what each returns and writes on
      every branch, including the departures from the spec: every
      stored hash returned by [?password=], plaintext passwords stored by
      [updateUser], a registration that fails after storing its record,
      [null] and success answers for absent ids, a misspelled content
      type.
    - The concurrent server ([Threads], [Server]): over every schedule
      the credential routes keep ids unique and passwords hashed, even
      though a save may land over a record other requests changed since
      it was read (invariant); with fresh random tokens, every schedule
      keeps each reset expiry beside its token digest ([ResetPairs],
      invariant).
    - Races ([Concurrency], [Races]): in a schedule of the server, two
      resets with one token both succeed, and a reset whose save lands
      after a concurrent [forgotPassword]'s erases the expiry of the
      token that request hands out, which is then never accepted: two
      lost updates the spec's section 5 requires conditional saves
      against.
    - Sessions ([Session]): a login's cookie authenticates its user for
      the token's guaranteed lifetime and never beyond its maximal one
      or the cookie's; logout ends it; an authenticated password update
      goes through; the session token refines the spec's token contract
      and ends exactly at the second boundary, up to 999 ms early.
    - Refinement of the spec's credential machine ([Lifecycle]): every
      credential request leaves the abstract store unchanged or makes
      one transition its route allows, at the instant it runs (the
      clock is kept by every handler, a [keeps] argument); the query
      of [resetPassword] matches exactly the credentials pending with
      that digest and a later expiry; over every run of the sequential
      server the abstract stores follow a run of the machine (a
      simulation diagram).
    - The invariants of the store over every reachable world of the
      credential routes, the shape of every response (a type invariant
      proved with [ret_spec]) and the absence of stored records, hence
      of password hashes, from the credential routes' responses
      ([Invariants]).

    No definition needs fuel: every handler is a straight-line
    composition of [ST] actions over structural recursion on the list of
    records, so every theorem about a result states it outright.  A
    [Thread] is an inductive type (a finite tree of segments), so a
    thread cannot run forever: termination of a request is a matter of
    construction in this model, not a theorem about the code, and is
    not claimed.
    Integers are [Z] (JavaScript numbers are exact below 2^53, far
    above the millisecond times and day counts involved).

    ** Time, randomness, faults

    [Date.now()] is the field [now] of the world, in milliseconds; in
    the sequential server a handler runs at one instant and the clock
    moves only between handlers ([tick]); in the concurrent server the
    clock may move between any two segments.  Random bytes ([crypto.randomBytes], bcrypt salts)
    are drawn from a stream [rng] indexed by a counter in the world, so
    a run is a function of the world.  Store writes consult a fault
    schedule (a list of booleans, [true] = the write fails), which lets
    the theorems quantify over every failure pattern of the database.

    ** Not modelled

    Left out: HTTP routing (modelled only as the dispatch functions
    [handle] and [serve]), the source of the authentication middleware
    (not in the repository: [protect] follows the spec, and requests
    may also carry [req.user] directly), the wire encoding of the JWT
    (tokens are identified with their decoded structure), schema
    validators other than the required password, the syntaxes of
    [Number()] beyond an optional sign and decimal digits in the
    [limit] cast (the model throws on ["+5"], [" 5"], ["5.5"], ["1e2"],
    ["0x10"], which Node accepts), a malformed [userId] (ids are [N],
    so Mongoose's [CastError] on a bad id cannot arise), a fractional
    [JWT_COOKIE_EXPIRE] (whole days only), the [; charset=utf-8] Express
    appends to a JSON content type, MongoDB's order among records with equal sort keys
    (a sorted permutation is all it promises; merge sort is one).  The
    concurrent server takes a segment (the awaited store operation with
    the code before it) as atomic: the awaits inside Mongoose and bcrypt
    ([genSalt] and [hash] in the pre-save hook, [compare]) are not
    points where another request can change what this one reads or
    writes, and are not split.  [crypto.randomBytes] is modelled as a
    stream of strings; the concurrent pairing theorem assumes the
    stream never repeats (true of 20 random bytes up to a negligible
    probability, which the model does not express).  The pre-save hook
    of [models/User.js] (absent) is taken with an early return for an
    unmodified password, the form that hashes exactly once; a hook
    without it would rehash on every save. *)

From stdpp Require Import base list strings.
From Stdlib Require Import ZArith String.
Open Scope string_scope.

(** ** Exceptions and state *)

(** The outcome of a handler: it returns a value, or throws an [Error]
    whose message is kept. *)
Inductive Exc (A : Type) : Type :=
| Ret (a : A)
| Throw (msg : string).
Arguments Ret {A} a.
Arguments Throw {A} msg.

(** A computation over a state [S] that may throw; the state reached
    when an exception is thrown is kept, since the writes done before a
    [throw] are not undone. *)
Definition ST (S A : Type) : Type := S -> Exc A * S.

Section Monad.
Context {S : Type}.

Definition st_ret {A} (a : A) : ST S A := fun s => (Ret a, s).

Definition st_bind {A B} (m : ST S A) (k : A -> ST S B) : ST S B :=
  fun s =>
    match m s with
    | (Ret a, s') => k a s'
    | (Throw e, s') => (Throw e, s')
    end.

Definition st_throw {A} (msg : string) : ST S A := fun s => (Throw msg, s).

(** [try { m } catch (err) { h(err.message) }] *)
Definition st_catch {A} (m : ST S A) (h : string -> ST S A) : ST S A :=
  fun s =>
    match m s with
    | (Throw e, s') => h e s'
    | r => r
    end.

Definition st_get : ST S S := fun s => (Ret s, s).
Definition st_put (s : S) : ST S unit := fun _ => (Ret tt, s).
End Monad.

Declare Scope st_scope.
Delimit Scope st_scope with st.
Notation "'let*' x ':=' m 'in' k" := (st_bind m (fun x => k))
  (at level 10, x name, m at level 100, k at level 200) : st_scope.
Notation "'let*' ' p ':=' m 'in' k" := (st_bind m (fun x => match x with p => k end))
  (at level 10, p pattern, m at level 100, k at level 200) : st_scope.
Notation "'throw' msg" := (st_throw msg) (at level 10) : st_scope.

(** Running a computation and keeping only the outcome or the state. *)
Definition outcome {S A} (m : ST S A) (s : S) : Exc A := fst (m s).
Definition final {S A} (m : ST S A) (s : S) : S := snd (m s).

Definition is_ret {A} (r : Exc A) : bool :=
  match r with Ret _ => true | Throw _ => false end.

Section MonadLaws.
Context {S A B C : Type}.

Lemma st_bind_ret_l (a : A) (k : A -> ST S B) s :
  st_bind (st_ret a) k s = k a s.
Proof. reflexivity. Qed.

Lemma st_bind_assoc (m : ST S A) (k : A -> ST S B) (k' : B -> ST S C) s :
  st_bind (st_bind m k) k' s = st_bind m (fun a => st_bind (k a) k') s.
Proof. unfold st_bind. by destruct (m s) as [[a|e] s']. Qed.

Lemma st_bind_throw (e : string) (k : A -> ST S B) s :
  st_bind (st_throw e) k s = (Throw e, s).
Proof. reflexivity. Qed.

(** The step of a bind whose first computation is known. *)
Lemma st_bind_ret_step (m : ST S A) (k : A -> ST S B) s a s' :
  m s = (Ret a, s') -> st_bind m k s = k a s'.
Proof. unfold st_bind. by intros ->. Qed.

Lemma st_bind_throw_step (m : ST S A) (k : A -> ST S B) s e s' :
  m s = (Throw e, s') -> st_bind m k s = (Throw e, s').
Proof. unfold st_bind. by intros ->. Qed.

(** Binds with pointwise equal continuations run alike. *)
Lemma st_bind_ext (m : ST S A) (k k' : A -> ST S B) s :
  (forall a s', k a s' = k' a s') -> st_bind m k s = st_bind m k' s.
Proof. intros Hk. unfold st_bind. destruct (m s) as [[a|e] s']; [apply Hk|done]. Qed.
End MonadLaws.

(** ** JavaScript values the handlers test *)

(** A request field is absent ([undefined]) or a string; [if (x)] is
    true exactly for a present non-empty string. *)
Definition truthy (o : option string) : bool :=
  match o with
  | Some s => negb (String.eqb s "")
  | None => false
  end.

Lemma truthy_Some o : truthy o = true -> exists s, o = Some s /\ s <> "".
Proof.
  destruct o as [s|]; simpl; [|done].
  destruct (String.eqb_spec s "") as [->|Hne]; simpl; [done|eauto].
Qed.

Lemma truthy_nonempty s : s <> "" -> truthy (Some s) = true.
Proof. intros Hne. simpl. by rewrite (proj2 (String.eqb_neq _ _) Hne). Qed.

(** ** First match in natural order (Mongo's [findOne]) *)

Fixpoint find_first {A} (p : A -> bool) (l : list A) : option A :=
  match l with
  | [] => None
  | x :: l' => if p x then Some x else find_first p l'
  end.

Section FindFirst.
Context {A : Type} (p : A -> bool).

Lemma find_first_Some l x : find_first p l = Some x -> p x = true /\ x ∈ l.
Proof.
  induction l as [|y l IH]; simpl; [done|].
  destruct (p y) eqn:Hy; [intros [= <-]; split; [done|left]|].
  intros H. destruct (IH H). split; [done|by right].
Qed.

Lemma find_first_None l : find_first p l = None -> forall x, x ∈ l -> p x = false.
Proof.
  induction l as [|y l IH]; simpl; intros H x Hx; [by inversion Hx|].
  destruct (p y) eqn:Hy; [done|].
  inversion Hx; subst; auto.
Qed.

Lemma find_first_None_intro l : (forall x, x ∈ l -> p x = false) -> find_first p l = None.
Proof.
  induction l as [|y l IH]; simpl; intros H; [done|].
  rewrite (H y) by left. apply IH. intros x Hx. apply H. by right.
Qed.

(** The only member that matches is the first match. *)
Lemma find_first_unique l x :
  x ∈ l -> p x = true -> (forall y, y ∈ l -> p y = true -> y = x) ->
  find_first p l = Some x.
Proof.
  induction l as [|y l IH]; simpl; intros Hx Hp Hu; [by inversion Hx|].
  destruct (p y) eqn:Hy; [by rewrite (Hu y) by (done || left)|].
  apply elem_of_cons in Hx as [->|Hx]; [congruence|].
  apply IH; [done..|]. intros z Hz. apply Hu. by right.
Qed.
End FindFirst.

(** Rewriting a find under a pointwise-equal predicate. *)
Lemma find_first_ext {A} (p q : A -> bool) l :
  (forall x, p x = q x) -> find_first p l = find_first q l.
Proof. intros H. induction l as [|y l IH]; simpl; [done|]. by rewrite H, IH. Qed.

(** ** Postconditions on returned values

    A Hoare-style specification of a computation that only constrains
    what it returns: [ret_spec P m] holds when every run of [m] that
    returns a value returns one satisfying [P] (runs that throw are
    unconstrained).  Its rules follow the structure of the monad. *)

Section RetSpec.
Context {S : Type}.

Definition ret_spec {A} (P : A -> Prop) (m : ST S A) : Prop :=
  forall s a s', m s = (Ret a, s') -> P a.

Lemma ret_spec_ret {A} (P : A -> Prop) a : P a -> ret_spec P (st_ret a).
Proof. intros Ha s a' s' [= <- _]. done. Qed.

Lemma ret_spec_throw {A} (P : A -> Prop) msg : ret_spec P (st_throw msg).
Proof. by intros s a s'. Qed.

(** Sequencing: the first computation's value is arbitrary. *)
Lemma ret_spec_bind {A B} (P : B -> Prop) (m : ST S A) (k : A -> ST S B) :
  (forall a, ret_spec P (k a)) -> ret_spec P (st_bind m k).
Proof.
  intros Hk s b s'. unfold st_bind.
  destruct (m s) as [[a|e] s1]; [apply Hk|done].
Qed.

(** Sequencing with what the first computation guarantees. *)
Lemma ret_spec_bind_post {A B} (Q : A -> Prop) (P : B -> Prop) (m : ST S A) (k : A -> ST S B) :
  ret_spec Q m -> (forall a, Q a -> ret_spec P (k a)) -> ret_spec P (st_bind m k).
Proof.
  intros Hm Hk s b s'. unfold st_bind.
  destruct (m s) as [[a|e] s1] eqn:E; [|done]. apply (Hk a (Hm _ _ _ E)).
Qed.

Lemma ret_spec_catch {A} (P : A -> Prop) (m : ST S A) (h : string -> ST S A) :
  ret_spec P m -> (forall e, ret_spec P (h e)) -> ret_spec P (st_catch m h).
Proof.
  intros Hm Hh s a s'. unfold st_catch.
  destruct (m s) as [[a'|e] s1] eqn:E; [|apply Hh].
  intros [= <- _]. exact (Hm _ _ _ E).
Qed.

Lemma ret_spec_weaken {A} (P Q : A -> Prop) (m : ST S A) :
  (forall a, P a -> Q a) -> ret_spec P m -> ret_spec Q m.
Proof. intros HPQ Hm s a s' E. apply HPQ, (Hm _ _ _ E). Qed.
End RetSpec.

(** Decompose a [ret_spec] goal along the structure of the program. *)
Ltac ret_spec_step :=
  match goal with
  | |- ret_spec _ (st_ret _) => apply ret_spec_ret
  | |- ret_spec _ (st_throw _) => apply ret_spec_throw
  | |- ret_spec _ (st_catch _ _) => apply ret_spec_catch; [|intros ?]
  | |- ret_spec _ (st_bind _ _) => apply ret_spec_bind; intros ?
  | |- ret_spec _ (match ?x with _ => _ end) => destruct x
  | |- ret_spec _ (if ?b then _ else _) => destruct b
  end.

(** ** Invariants of the state

    [keeps I m]: every run of [m] from a state satisfying [I] ends in
    one satisfying [I], whether it returns or throws.  Its rules follow
    the structure of the monad, like those of [ret_spec]. *)

Section Keeps.
Context {S : Type} (I : S -> Prop).

Definition keeps {A} (m : ST S A) : Prop := forall s, I s -> I (snd (m s)).

Lemma keeps_ret {A} (a : A) : keeps (st_ret a).
Proof. by intros s. Qed.

Lemma keeps_throw {A} msg : keeps (A:=A) (st_throw msg).
Proof. by intros s. Qed.

Lemma keeps_bind {A B} (m : ST S A) (k : A -> ST S B) :
  keeps m -> (forall a, keeps (k a)) -> keeps (st_bind m k).
Proof.
  intros Hm Hk s Hs. unfold st_bind. specialize (Hm s Hs).
  destruct (m s) as [[a|e] s1]; [by apply Hk|done].
Qed.

Lemma keeps_catch {A} (m : ST S A) (h : string -> ST S A) :
  keeps m -> (forall e, keeps (h e)) -> keeps (st_catch m h).
Proof.
  intros Hm Hh s Hs. unfold st_catch. specialize (Hm s Hs).
  destruct (m s) as [[a|e] s1]; [done|by apply Hh].
Qed.

(** A computation that leaves the state as it found it. *)
Lemma keeps_same {A} (m : ST S A) : (forall s, snd (m s) = s) -> keeps m.
Proof. intros Hm s Hs. by rewrite Hm. Qed.
End Keeps.

(** Decompose a [keeps] goal along the structure of the program. *)
Ltac keeps_step :=
  match goal with
  | |- keeps _ (st_ret _) => apply keeps_ret
  | |- keeps _ (st_throw _) => apply keeps_throw
  | |- keeps _ (st_catch _ _) => apply keeps_catch; [|intros ?]
  | |- keeps _ (st_bind _ _) => apply keeps_bind; [|intros ?]
  | |- keeps _ (match ?x with _ => _ end) => destruct x
  | |- keeps _ (if ?b then _ else _) => destruct b
  end.

(** ** Automation *)

Create HintDb auth discriminated.
Create Rewrite HintDb auth_rw.
#[export] Hint Rewrite @st_bind_ret_l @st_bind_throw : auth_rw.
#[export] Hint Resolve find_first_None_intro : auth.

(** Unfold the monad's plumbing and compute. *)
Ltac st_unfold :=
  unfold st_bind, st_ret, st_throw, st_catch, st_get, st_put, outcome, final in *.

(** Case on the boolean tests left by [cbn], keeping their equations. *)
Ltac case_tests :=
  repeat match goal with
  | |- context [if ?b then _ else _] =>
      lazymatch b with
      | context [if _ then _ else _] => fail
      | _ => let E := fresh "E" in destruct b eqn:E
      end
  | |- context [match ?o with Some _ => _ | None => _ end] =>
      lazymatch o with
      | context [match _ with _ => _ end] => fail
      | _ => let E := fresh "E" in destruct o eqn:E
      end
  end.

(** Run the monad's plumbing forward: binds of [ret] and [throw]. *)
Ltac st_simp := repeat progress (autorewrite with auth_rw; simpl).

(** Close a decidable goal on concrete data by evaluation. *)
Ltac by_decide := apply (bool_decide_unpack _); vm_compute; exact I.
