(* ===== verification/Crypto.v ===== *)
(** * Crypto: the primitives the controller and the [User] model call

    The code calls three primitives: [crypto.createHash('sha256')
    .update(x).digest('hex')] (in [resetPassword] and in the model's
    [getResetPasswordToken]), bcrypt's [hash]/[compare] (the model's
    pre-save hook and [matchPassword]) and the HMAC that signs a JWT.
    Each is an interface (a class); the spec's "with overwhelming
    probability" collision-freedom is a separate class, assumed only by
    the theorems that need it.  Small concrete instances, used by the
    witnesses, show every class is inhabited. *)

From stdpp Require Import base list strings.
From Stdlib Require Import ZArith String.
From S2P Require Import Prelude.
Open Scope string_scope.

(** ** SecretHasher, digest half: sha256 as a hex string *)
Class Digest := { sha256_hex : string -> string }.

(** Collision freedom of the digest. *)
Class DigestInjective `{Digest} :=
  { sha256_hex_inj : forall a b, sha256_hex a = sha256_hex b -> a = b }.

(** ** SecretHasher, password half: bcrypt *)
Class PasswordHasher := {
  (** [bcrypt.hash(plaintext, salt)] *)
  bcrypt_hash : string -> string -> string;
  (** [bcrypt.compare(plaintext, hash)] *)
  bcrypt_compare : string -> string -> bool;
  (** verify(P, hash(P)) = true, for every salt *)
  bcrypt_compare_hash : forall p salt, bcrypt_compare p (bcrypt_hash p salt) = true
}.

(** verify(P1, hash(P2)) = false for P1 <> P2. *)
Class HasherBinding `{PasswordHasher} :=
  { bcrypt_compare_sound : forall p q salt, bcrypt_compare p (bcrypt_hash q salt) = true -> p = q }.

(** ** The MAC that signs a token's claims *)
Class Mac (M : Type) := { hmac : string -> M -> string }.

(** Distinct claims never share a signature under one key. *)
Class MacInjective {M} `{Mac M} :=
  { hmac_inj : forall key m1 m2, hmac key m1 = hmac key m2 -> m1 = m2 }.

#[export] Hint Resolve bcrypt_compare_hash : auth.

(** ** Concrete instances *)

(** A string prefix is cancellable; shared by the instances below. *)
Lemma append_cancel_l (p a b : string) : p ++ a = p ++ b -> a = b.
Proof. induction p as [|c p IH]; simpl; [done|]. intros [= H]. by apply IH. Qed.

Module ToyCrypto.
#[export] Instance digest : Digest := {| sha256_hex s := "sha256:" ++ s |}.

#[export] Instance digest_inj : DigestInjective.
Proof. constructor. intros a b. apply append_cancel_l. Qed.

Definition toy_hash (p salt : string) : string := "$2a$10$" ++ p.
Definition toy_compare (p h : string) : bool := String.eqb ("$2a$10$" ++ p) h.

#[export] Program Instance hasher : PasswordHasher :=
  {| bcrypt_hash := toy_hash; bcrypt_compare := toy_compare |}.
Next Obligation. intros p salt. apply String.eqb_refl. Qed.

#[export] Instance hasher_binding : HasherBinding.
Proof.
  constructor. simpl. unfold toy_compare, toy_hash. intros p q salt.
  destruct (String.eqb_spec ("$2a$10$" ++ p) ("$2a$10$" ++ q)) as [H|]; [|done].
  intros _. by apply append_cancel_l in H.
Qed.
End ToyCrypto.
