(* ===== verification/Jwt.v ===== *)
(** * Jwt: the session-token signer (spec section 4.2, TokenSigner)

    The model method [getSignedJwtToken] (in [models/User.js], outside
    [src/]) calls [jwt.sign({ id: this._id }, JWT_SECRET, { expiresIn:
    JWT_EXPIRE })]; the protect middleware calls [jwt.verify].  Both are
    modelled from the spec and from the jsonwebtoken conventions: [iat]
    is [Math.floor(Date.now() / 1000)], [exp = iat + expiresIn] in
    seconds, and a token is expired when the current second is [>= exp].
    The signature is checked before the expiry.

    - [TokenSigner] is the contract the controller relies on: issuing a
      token and verifying it, valid over a guaranteed lifetime and
      expired after a maximal one.
    - [jwt_sign] and [jwt_verify] are the implementation; [jwt_signer]
      discharges the contract (the refinement), with the lifetime bounds
      [1000 * ttl - 999] and [1000 * ttl] milliseconds forced by the
      truncation of the clock to seconds.
    - tampering: a token whose claims or signature alone were altered
      verifies as [TokenInvalid], whatever the clock says. *)

From stdpp Require Import base list strings countable pretty.
From Stdlib Require Import ZArith String Lia.
From S2P Require Import Prelude Crypto.
Open Scope string_scope.
Open Scope Z_scope.

(** ** Data *)

(** The decoded payload [{ id, iat, exp }]. *)
Record Claims := mkClaims { c_id : N; c_iat : Z; c_exp : Z }.

(** A signed token: its payload and its signature.  The base64url wire
    encoding of jsonwebtoken is not modelled: a token is identified with
    its decoded structure. *)
Record Token := mkToken { tk_claims : Claims; tk_sig : string }.

#[export] Instance Claims_eq_dec : EqDecision Claims.
Proof. solve_decision. Defined.
#[export] Instance Token_eq_dec : EqDecision Token.
Proof. solve_decision. Defined.

#[export] Program Instance Claims_countable : Countable Claims :=
  inj_countable' (fun c => (c_id c, c_iat c, c_exp c))
                 (fun '(i, a, e) => mkClaims i a e) _.
Next Obligation. by intros []. Qed.

(** Outcome of [jwt.verify]. *)
Inductive VerifyResult :=
| Valid (id : N)
| TokenInvalid
| TokenExpired.

#[export] Instance VerifyResult_eq_dec : EqDecision VerifyResult.
Proof. solve_decision. Defined.

(** [Math.floor(Date.now() / 1000)] *)
Definition seconds (now_ms : Z) : Z := now_ms / 1000.

(** ** The contract *)

Class TokenSigner := {
  ts_issue : N -> Z -> Token;
  ts_verify : Token -> Z -> VerifyResult;
  ts_min_life : Z;
  ts_max_life : Z;
  ts_valid : forall id now now',
    now <= now' < now + ts_min_life -> ts_verify (ts_issue id now) now' = Valid id;
  ts_expired : forall id now now',
    now + ts_max_life <= now' -> ts_verify (ts_issue id now) now' = TokenExpired
}.

(** ** The specification of an honest token (spec section 4.2)

    [issue(identity, ttl)] binds the identity with the expiry
    [now + ttl]; [verify] answers the identity before it and
    [TokenExpired] after it.  A clock kept in whole seconds may report
    the expiry up to 999 ms early; the relation allows exactly that
    much. *)
Inductive token_spec (ttl : Z) (id : N) (t0 : Z) : Z -> VerifyResult -> Prop :=
| spec_valid t : t0 <= t < t0 + 1000 * ttl -> token_spec ttl id t0 t (Valid id)
| spec_expired t : t0 + 1000 * ttl - 999 <= t -> token_spec ttl id t0 t TokenExpired.

(** ** The implementation *)

Section Jwt.
Context `{Mac Claims}.

Definition jwt_sign (secret : string) (ttl : Z) (id : N) (now : Z) : Token :=
  let iat := seconds now in
  let c := {| c_id := id; c_iat := iat; c_exp := iat + ttl |} in
  {| tk_claims := c; tk_sig := hmac secret c |}.

Definition jwt_verify (secret : string) (t : Token) (now : Z) : VerifyResult :=
  if String.eqb (tk_sig t) (hmac secret (tk_claims t)) then
    if seconds now <? c_exp (tk_claims t) then Valid (c_id (tk_claims t))
    else TokenExpired
  else TokenInvalid.

(** The verdict on an honest token depends only on the two seconds. *)
Lemma jwt_verify_sign secret ttl id now now' :
  jwt_verify secret (jwt_sign secret ttl id now) now' =
  if seconds now' <? seconds now + ttl then Valid id else TokenExpired.
Proof. unfold jwt_verify, jwt_sign; simpl. by rewrite String.eqb_refl. Qed.

Lemma seconds_lt_window now now' ttl :
  now <= now' < now + (1000 * ttl - 999) -> seconds now' < seconds now + ttl.
Proof. unfold seconds. intros. Z.div_mod_to_equations. lia. Qed.

Lemma seconds_ge_window now now' ttl :
  now + 1000 * ttl <= now' -> seconds now + ttl <= seconds now'.
Proof. unfold seconds. intros. Z.div_mod_to_equations. lia. Qed.

(** The refinement: the JWT implementation meets the contract. *)
#[export] Program Instance jwt_signer (secret : string) (ttl : Z) : TokenSigner := {|
  ts_issue := jwt_sign secret ttl;
  ts_verify := jwt_verify secret;
  ts_min_life := 1000 * ttl - 999;
  ts_max_life := 1000 * ttl
|}.
Next Obligation.
  intros secret ttl id now now' Hw. rewrite jwt_verify_sign.
  by rewrite (proj2 (Z.ltb_lt _ _) (seconds_lt_window _ _ _ Hw)).
Qed.
Next Obligation.
  intros secret ttl id now now' Hw. rewrite jwt_verify_sign.
  by rewrite (proj2 (Z.ltb_ge _ _) (seconds_ge_window _ _ _ Hw)).
Qed.
(** Round trip: a token verifies to the identity it was issued for
    at the instant it is issued, when the configured lifetime is
    positive. *)
Theorem jwt_roundtrip secret ttl id now :
  0 < ttl -> jwt_verify secret (jwt_sign secret ttl id now) now = Valid id.
Proof.
  intros Httl. rewrite jwt_verify_sign.
  by rewrite (proj2 (Z.ltb_lt _ _)) by lia.
Qed.

(** The validity window of an honest token: it verifies to its
    identity exactly while the current second is below [iat + ttl];
    in milliseconds, on every clock in [now, now + 1000 ttl - 999)
    and never from [now + 1000 ttl] on, where it is reported expired. *)
Theorem jwt_expiry_window secret ttl id now now' :
  (jwt_verify secret (jwt_sign secret ttl id now) now' = Valid id <->
     seconds now' < seconds now + ttl) /\
  (now <= now' < now + (1000 * ttl - 999) ->
     jwt_verify secret (jwt_sign secret ttl id now) now' = Valid id) /\
  (now + 1000 * ttl <= now' ->
     jwt_verify secret (jwt_sign secret ttl id now) now' = TokenExpired).
Proof.
  rewrite !jwt_verify_sign. split; [|split].
  - destruct (Z.ltb_spec (seconds now') (seconds now + ttl)); split; done || lia.
  - intros Hw. by rewrite (proj2 (Z.ltb_lt _ _) (seconds_lt_window _ _ _ Hw)).
  - intros Hw. by rewrite (proj2 (Z.ltb_ge _ _) (seconds_ge_window _ _ _ Hw)).
Qed.

(** Tampering: a token that differs from an issued one in its
    claims only, or in its signature only, is rejected as invalid at
    every clock, so a forged-but-expired token is never reported as
    merely expired; the claims case assumes the MAC is injective. *)
Theorem jwt_tampered_invalid `{!MacInjective} secret ttl id now (t : Token) now' :
  t <> jwt_sign secret ttl id now ->
  tk_sig t = tk_sig (jwt_sign secret ttl id now) \/
    tk_claims t = tk_claims (jwt_sign secret ttl id now) ->
  jwt_verify secret t now' = TokenInvalid.
Proof.
  intros Hne Halt. unfold jwt_verify.
  destruct (String.eqb_spec (tk_sig t) (hmac secret (tk_claims t))) as [Hs|]; [|done].
  exfalso. apply Hne. destruct t as [c sg]; simpl in *. unfold jwt_sign in *; simpl in *.
  destruct Halt as [-> | ->]; [|by subst].
  apply hmac_inj in Hs. by rewrite Hs.
Qed.

(** The instant an honest token stops verifying: the end of the second
    [iat + ttl], in milliseconds. *)
Definition jwt_expiry_ms (ttl now : Z) : Z := 1000 * (seconds now + ttl).

Lemma jwt_verify_sign_instant secret ttl id now now' :
  jwt_verify secret (jwt_sign secret ttl id now) now' =
  if now' <? jwt_expiry_ms ttl now then Valid id else TokenExpired.
Proof.
  rewrite jwt_verify_sign. unfold jwt_expiry_ms, seconds.
  destruct (Z.ltb_spec (now' / 1000) (now / 1000 + ttl)),
           (Z.ltb_spec now' (1000 * (now / 1000 + ttl))); try done;
    Z.div_mod_to_equations; lia.
Qed.

Lemma jwt_expiry_ms_bounds ttl now :
  now + 1000 * ttl - 999 <= jwt_expiry_ms ttl now <= now + 1000 * ttl.
Proof. unfold jwt_expiry_ms, seconds. Z.div_mod_to_equations. lia. Qed.

(** An honest token meets the specification at every instant from its
    issue on. *)
Lemma jwt_meets_spec secret ttl id t0 t :
  t0 <= t -> token_spec ttl id t0 t (jwt_verify secret (jwt_sign secret ttl id t0) t).
Proof.
  intros Ht. pose proof (jwt_expiry_ms_bounds ttl t0).
  rewrite jwt_verify_sign_instant. destruct (Z.ltb_spec t (jwt_expiry_ms ttl t0)).
  - apply spec_valid. lia.
  - apply spec_expired. lia.
Qed.
End Jwt.

(** ** A concrete MAC for the witnesses: the key, then the claims'
    countable code printed in decimal. *)
Module ToyMac.
#[export] Instance mac : Mac Claims :=
  {| hmac key c := key ++ "." ++ pretty (Npos (encode c)) |}.

#[export] Instance mac_inj : MacInjective.
Proof.
  constructor. simpl. intros key m1 m2 Heq.
  do 2 apply append_cancel_l in Heq.
  apply (inj pretty) in Heq. injection Heq as Heq.
  by apply (inj encode) in Heq.
Qed.
End ToyMac.

Definition toy_token : Token := @jwt_sign ToyMac.mac "secret" 7200 1 5000.

Lemma jwt_roundtrip_witness :
  0 < 7200 /\ @jwt_verify ToyMac.mac "secret" toy_token 5000 = Valid 1.
Proof. split; [lia|]. apply jwt_roundtrip. lia. Defined.

Lemma jwt_expiry_window_witness :
  @jwt_verify ToyMac.mac "secret" toy_token (5000 + 7200 * 1000) = TokenExpired.
Proof. apply (proj2 (proj2 (jwt_expiry_window _ _ _ _ _))). lia. Defined.

Lemma jwt_tampered_invalid_witness :
  @jwt_verify ToyMac.mac "secret" (mkToken (tk_claims toy_token) "forged") 5000 = TokenInvalid.
Proof.
  apply (@jwt_tampered_invalid ToyMac.mac ToyMac.mac_inj "secret" 7200 1 5000).
  - vm_compute. congruence.
  - right. reflexivity.
Defined.

