(* ===== verification/UserModel.v ===== *)
(** * UserModel: the [User] collection, Mongoose documents and [save]

    The controller reaches the database only through the Mongoose model
    [User] (defined in [models/User.js], outside [src/]):
    - queries [User.findOne({email})], [User.findById(id)] and
      [User.findOne({resetPasswordToken, resetPasswordExpire: {$gt: t}})],
      optionally with [.select('+password')] (the password path is not
      selected by default);
    - [doc.save(opts)], which validates the document (unless
      [validateBeforeSave: false]), runs the pre-save hook that hashes a
      modified password with bcrypt, and writes only the paths modified
      since the document was loaded;
    - the methods [getResetPasswordToken], [matchPassword] and
      [getSignedJwtToken].
    The world [World] holds the collection (a list in natural order, so
    that [findOne] returns the first match), the clock, the random
    stream and the fault schedule of writes. *)

From stdpp Require Import base list strings.
From Stdlib Require Import ZArith String.
From S2P Require Import Prelude Crypto Jwt.
Open Scope string_scope.
Open Scope Z_scope.
Local Open Scope st_scope.

(** ** Data *)

Definition ObjectId := N.

(** The schema paths the controller reads or writes.  Every path but
    [_id] may be absent from a stored record or from a loaded document
    ([undefined]); the password of a document loaded without
    [.select('+password')] is absent. *)
Record User := mkUser {
  _id : ObjectId;
  userName : option string;
  email : option string;
  password : option string;
  firstName : option string;
  lastName : option string;
  gender : option string;
  resetPasswordToken : option string;
  resetPasswordExpire : option Z
}.

#[export] Instance User_eq_dec : EqDecision User.
Proof. solve_decision. Defined.

Inductive Path :=
| P_userName | P_email | P_password | P_firstName | P_lastName | P_gender
| P_resetPasswordToken | P_resetPasswordExpire.

#[export] Instance Path_eq_dec : EqDecision Path.
Proof. solve_decision. Defined.

(** A document in memory: its values, the paths modified since it was
    loaded or last saved, and whether its password path was selected by
    the query that loaded it. *)
Record Doc := mkDoc { doc : User; modified : list Path; pw_selected : bool }.

(** The paths of [src] selected by [mask], the others from [dst]. *)
Definition merge (mask : Path -> bool) (src dst : User) : User := {|
  _id := _id dst;
  userName := if mask P_userName then userName src else userName dst;
  email := if mask P_email then email src else email dst;
  password := if mask P_password then password src else password dst;
  firstName := if mask P_firstName then firstName src else firstName dst;
  lastName := if mask P_lastName then lastName src else lastName dst;
  gender := if mask P_gender then gender src else gender dst;
  resetPasswordToken := if mask P_resetPasswordToken then resetPasswordToken src
                        else resetPasswordToken dst;
  resetPasswordExpire := if mask P_resetPasswordExpire then resetPasswordExpire src
                         else resetPasswordExpire dst
|}.

Definition only (p : Path) : Path -> bool := fun q => bool_decide (q = p).

Definition with_password (v : option string) (u : User) : User :=
  merge (only P_password) {| _id := _id u; userName := None; email := None;
    password := v; firstName := None; lastName := None; gender := None;
    resetPasswordToken := None; resetPasswordExpire := None |} u.

Definition with_resetPasswordToken (v : option string) (u : User) : User :=
  merge (only P_resetPasswordToken) {| _id := _id u; userName := None; email := None;
    password := None; firstName := None; lastName := None; gender := None;
    resetPasswordToken := v; resetPasswordExpire := None |} u.

Definition with_resetPasswordExpire (v : option Z) (u : User) : User :=
  merge (only P_resetPasswordExpire) {| _id := _id u; userName := None; email := None;
    password := None; firstName := None; lastName := None; gender := None;
    resetPasswordToken := None; resetPasswordExpire := v |} u.

(** Assignment [doc.p = v] marks [p] modified ([$__shouldModify]) when
    it is already modified, when [undefined] is assigned to a path the
    query did not select, or when the value differs from the current
    one; a path is recorded once. *)
Definition mark (p : Path) (changed : bool) (ps : list Path) : list Path :=
  if changed && negb (bool_decide (p ∈ ps)) then p :: ps else ps.

Definition assign_password (v : option string) (d : Doc) : Doc :=
  mkDoc (with_password v (doc d))
        (mark P_password (bool_decide (v = None) && negb (pw_selected d)
                          || bool_decide (v <> password (doc d))) (modified d))
        (pw_selected d).

Definition assign_resetPasswordToken (v : option string) (d : Doc) : Doc :=
  mkDoc (with_resetPasswordToken v (doc d))
        (mark P_resetPasswordToken (bool_decide (v <> resetPasswordToken (doc d))) (modified d))
        (pw_selected d).

Definition assign_resetPasswordExpire (v : option Z) (d : Doc) : Doc :=
  mkDoc (with_resetPasswordExpire v (doc d))
        (mark P_resetPasswordExpire (bool_decide (v <> resetPasswordExpire (doc d))) (modified d))
        (pw_selected d).

Definition is_modified (p : Path) (d : Doc) : bool := bool_decide (p ∈ modified d).

(** ** The world *)

Record World := mkWorld {
  db : list User;
  now : Z;
  rng : nat -> string;
  rng_ctr : nat;
  faults : list bool
}.

Definition set_db (l : list User) (w : World) : World :=
  mkWorld l (now w) (rng w) (rng_ctr w) (faults w).

(** The clock moves between requests. *)
Definition tick (dt : Z) (w : World) : World :=
  mkWorld (db w) (now w + dt) (rng w) (rng_ctr w) (faults w).

(** [Date.now()] *)
Definition date_now : ST World Z := fun w => (Ret (now w), w).

(** [crypto.randomBytes(..).toString('hex')], [bcrypt.genSalt(..)] *)
Definition draw_random : ST World string :=
  fun w => (Ret (rng w (rng_ctr w)),
            mkWorld (db w) (now w) (rng w) (S (rng_ctr w)) (faults w)).

(** Whether the next write fails; the schedule is consumed. *)
Definition next_write_fails : ST World bool :=
  fun w => match faults w with
           | [] => (Ret false, w)
           | b :: fs => (Ret b, mkWorld (db w) (now w) (rng w) (rng_ctr w) fs)
           end.

(** ** Queries *)

Definition id_is (id : ObjectId) (u : User) : bool := bool_decide (_id u = id).
Definition email_is (e : option string) (u : User) : bool := bool_decide (email u = e).

(** The filter [{resetPasswordToken: h, resetPasswordExpire: {$gt: t}}];
    [$gt] never matches an absent field. *)
Definition reset_matches (h : string) (t : Z) (u : User) : bool :=
  bool_decide (resetPasswordToken u = Some h) &&
  match resetPasswordExpire u with Some x => t <? x | None => false end.

(** A record loaded as a document, with or without [+password]. *)
Definition hydrate (sel_pw : bool) (u : User) : Doc :=
  mkDoc (if sel_pw then u else with_password None u) [] sel_pw.

Definition find_with (sel_pw : bool) (p : User -> bool) : ST World (option Doc) :=
  fun w => (Ret (hydrate sel_pw <$> find_first p (db w)), w).

(** [User.findOne({email})] *)
Definition findOne_email (sel_pw : bool) (e : option string) : ST World (option Doc) :=
  find_with sel_pw (email_is e).

(** [User.findById(id)] *)
Definition findById (sel_pw : bool) (id : ObjectId) : ST World (option Doc) :=
  find_with sel_pw (id_is id).

(** [User.findOne({resetPasswordToken: h, resetPasswordExpire: {$gt: t}})] *)
Definition findOne_reset (h : string) (t : Z) : ST World (option Doc) :=
  find_with false (reset_matches h t).

Definition replace_by_id (u : User) (l : list User) : list User :=
  map (fun v => if id_is (_id u) v then u else v) l.

(** ** [save] and the model methods, over the crypto primitives *)

Section ModelOps.
Context `{PasswordHasher} `{Digest}.

(** The pre-save hook of [models/User.js], a file the repository does
  not contain, modelled from the spec (a stored password is the hash
  of the supplied plaintext): a password that was not modified is left
  as it is, a modified one is replaced by its bcrypt hash under a fresh
  salt ([bcrypt.genSalt(10)]).  This is the hook written with an early
  return, [if (!this.isModified('password')) return next();]; a hook
  without the [return] would go on to rehash the stored hash on every
  save, and the theorems that a save of an unmodified password writes
  nothing (as in [updatePassword]) rest on this choice. *)
Definition pre_save (d : Doc) : ST World Doc :=
if is_modified P_password d then
  match password (doc d) with
  | None => throw "data and salt arguments required"
  | Some p =>
      let* salt := draw_random in
      st_ret (mkDoc (with_password (Some (bcrypt_hash p salt)) (doc d)) (modified d)
                    (pw_selected d))
  end
else st_ret d.

(** The write: the modified paths of the document onto the stored
  record; an unmodified document is not written. *)
Definition write_modified (d : Doc) : ST World Doc :=
match modified d with
| [] => st_ret d
| _ =>
    let* fails := next_write_fails in
    if fails then throw "MongoServerError: write failed"
    else
      let* w := st_get in
      match find_first (id_is (_id (doc d))) (db w) with
      | None => throw "DocumentNotFoundError"
      | Some stored =>
          let* _ := st_put (set_db (replace_by_id
                      (merge (fun p => is_modified p d) (doc d) stored) (db w)) w) in
          st_ret (mkDoc (doc d) [] (pw_selected d))
      end
end.

(** [doc.save({validateBeforeSave: validate})]: the required password is
  validated first (a modified password must be present and not the
  empty string; an unmodified one was validated when stored), then the
  hook runs, then the write. *)
Definition save (validate : bool) (d : Doc) : ST World Doc :=
if validate && is_modified P_password d && negb (truthy (password (doc d)))
then throw "User validation failed: password: Path `password` is required."
else let* d' := pre_save d in write_modified d'.

(** ** Model methods *)

(** [getResetPasswordToken]: a random token; its sha256 digest and an
  expiry ten minutes ahead are stored in the document; the plaintext
  is returned. *)
Definition getResetPasswordToken (d : Doc) : ST World (string * Doc) :=
let* resetToken := draw_random in
let* t := date_now in
let d1 := assign_resetPasswordToken (Some (sha256_hex resetToken)) d in
let d2 := assign_resetPasswordExpire (Some (t + 10 * 60 * 1000)) d1 in
st_ret (resetToken, d2).

(** [matchPassword(entered)]: [bcrypt.compare(entered, this.password)],
  which rejects an absent argument. *)
Definition matchPassword (d : Doc) (entered : option string) : ST World bool :=
match entered, password (doc d) with
| Some p, Some h => st_ret (bcrypt_compare p h)
| _, _ => throw "data and hash arguments required"
end.

(** [getSignedJwtToken()]: a session token for the document's id. *)
Definition getSignedJwtToken `{TokenSigner} (d : Doc) : ST World Token :=
let* t := date_now in st_ret (ts_issue (_id (doc d)) t).
End ModelOps.

(** ** Lemmas on the store *)

Lemma with_password_same (u : User) : with_password (password u) u = u.
Proof. by destruct u. Qed.

Lemma with_password_id v (u : User) : _id (with_password v u) = _id u.
Proof. reflexivity. Qed.

Lemma hydrate_password sel u :
  password (doc (hydrate sel u)) = if sel then password u else None.
Proof. by destruct sel. Qed.

(** [replace_by_id] keeps the ids, hence their uniqueness. *)
Lemma replace_by_id_ids (u : User) (l : list User) :
  _id <$> replace_by_id u l = _id <$> l.
Proof.
  unfold replace_by_id. rewrite <- list_fmap_compose.
  apply list_fmap_ext. intros i x _. simpl. unfold id_is.
  case_bool_decide; congruence.
Qed.

(** A property of every record survives a replacement by a record that
    has it. *)
(** A second replacement of the same record wins. *)
Lemma replace_by_id_twice (a b : User) (l : list User) :
  _id a = _id b -> replace_by_id b (replace_by_id a l) = replace_by_id b l.
Proof.
  intros Hid. unfold replace_by_id. rewrite <- list_fmap_compose. apply list_fmap_ext.
  intros _ v _. unfold compose, id_is. destruct (decide (_id v = _id a)) as [E|E].
  - rewrite (bool_decide_true (_id v = _id a)) by done.
    by rewrite !bool_decide_true by congruence.
  - rewrite (bool_decide_false (_id v = _id a)) by done.
    by rewrite !bool_decide_false by congruence.
Qed.

Lemma replace_by_id_Forall (P : User -> Prop) u l :
  Forall P l -> P u -> Forall P (replace_by_id u l).
Proof.
  intros Hl Hu. unfold replace_by_id. apply Forall_fmap, (Forall_impl _ _ _ Hl).
  intros v Hv. simpl. by destruct (id_is (_id u) v).
Qed.

(** With unique ids, the record with a member's id is that member. *)
Lemma find_first_id_unique (l : list User) u :
  NoDup (_id <$> l) -> u ∈ l -> find_first (id_is (_id u)) l = Some u.
Proof.
  induction l as [|v l IH]; simpl; intros Hnd Hin; [by inversion Hin|].
  apply NoDup_cons in Hnd as [Hnot Hnd]. unfold id_is at 1.
  apply elem_of_cons in Hin as [->|Hin].
  - by rewrite bool_decide_true.
  - rewrite bool_decide_false; [by apply IH|].
    intros Heq. apply Hnot. rewrite Heq. by apply list_elem_of_fmap_2.
Qed.

(** With unique ids, two members with one id are one record. *)
Lemma ids_unique_eq (l : list User) u v :
  NoDup (_id <$> l) -> u ∈ l -> v ∈ l -> _id u = _id v -> u = v.
Proof.
  intros Hnd Hu Hv Hid. pose proof (find_first_id_unique l u Hnd Hu) as Hfu.
  pose proof (find_first_id_unique l v Hnd Hv) as Hfv. rewrite Hid in Hfu. congruence.
Qed.

(** Replacing a member by itself changes nothing. *)
Lemma replace_by_id_self (l : list User) u :
  NoDup (_id <$> l) -> u ∈ l -> replace_by_id u l = l.
Proof.
  intros Hnd Hu. unfold replace_by_id. rewrite <- (list_fmap_id l) at 2.
  apply list_fmap_ext. intros i v Hi. apply list_elem_of_lookup_2 in Hi.
  unfold id_is. case_bool_decide as Hid; [|done]. simpl.
  by apply (ids_unique_eq l).
Qed.

(** The records of a replacement: the new record, or an old one with
    another id. *)
Lemma elem_of_replace_by_id (l : list User) u v :
  v ∈ replace_by_id u l -> v = u \/ (v ∈ l /\ _id v <> _id u).
Proof.
  unfold replace_by_id. intros (x & -> & Hx)%list_elem_of_fmap.
  unfold id_is. case_bool_decide; [by left|]. right. split; [done|congruence].
Qed.

(** The new record is a member of the replacement when its id was. *)
(** Records with another id are kept by a replacement. *)
Lemma replace_by_id_keeps (l : list User) u v :
  v ∈ l -> _id v <> _id u -> v ∈ replace_by_id u l.
Proof.
  intros Hv Hne. unfold replace_by_id. apply list_elem_of_fmap. exists v.
  split; [|done]. unfold id_is. by rewrite bool_decide_false.
Qed.

Lemma replace_by_id_elem (l : list User) u u' :
  u ∈ l -> _id u' = _id u -> u' ∈ replace_by_id u' l.
Proof.
  intros Hu Hid. unfold replace_by_id. apply list_elem_of_fmap. exists u.
  split; [|done]. unfold id_is. by rewrite bool_decide_true.
Qed.

(** A first match stays the first match when it is replaced by a record
    with its id that still matches. *)
Lemma find_first_replace (p : User -> bool) (l : list User) u u' :
  NoDup (_id <$> l) -> find_first p l = Some u -> _id u' = _id u -> p u' = true ->
  find_first p (replace_by_id u' l) = Some u'.
Proof.
  induction l as [|v l IH]; simpl; intros Hnd Hf Hid Hp; [done|].
  apply NoDup_cons in Hnd as [Hnot Hnd]. unfold id_is.
  destruct (p v) eqn:Hpv.
  - injection Hf as <-. rewrite bool_decide_true by (by rewrite Hid). by rewrite Hp.
  - pose proof (find_first_Some _ _ _ Hf) as [_ Hin].
    rewrite bool_decide_false.
    + rewrite Hpv. by apply IH.
    + intros Hvu. apply Hnot. rewrite Hvu, Hid. by apply list_elem_of_fmap_2.
Qed.

Section SaveLemmas.
Context `{PasswordHasher} `{Digest}.
Local Arguments replace_by_id : simpl never.
Local Arguments merge : simpl never.
Local Arguments with_password : simpl never.

(** A document with no modified path is not written. *)
Lemma save_clean v d w : modified d = [] -> save v d w = (Ret d, w).
Proof.
  intros Hm. unfold save, pre_save, write_modified, is_modified.
  rewrite bool_decide_false by (rewrite Hm; inversion 1).
  st_unfold. simpl. rewrite andb_false_r. simpl. by rewrite Hm.
Qed.

(** What [save] may do to the collection: nothing, or replace the
    record with the document's id by its merge with the modified
    paths, the password hashed when it was modified. *)
Lemma save_db v d w :
  db (final (save v d) w) = db w \/
  exists stored pw,
    find_first (id_is (_id (doc d))) (db w) = Some stored /\
    db (final (save v d) w) =
      replace_by_id (merge (fun p => is_modified p d) (with_password pw (doc d)) stored) (db w) /\
    ((is_modified P_password d = false /\ pw = password (doc d)) \/
     exists p salt, password (doc d) = Some p /\ pw = Some (bcrypt_hash p salt)).
Proof.
  unfold save, final. destruct (_ && _); [by left|].
  unfold pre_save, write_modified. st_unfold.
  destruct (is_modified P_password d) eqn:Hmp; [destruct (password (doc d)) as [p|] eqn:Hp|];
    simpl; [| by left |].
  all: destruct (modified d) eqn:Hm; simpl; [by left|].
  all: unfold next_write_fails; destruct (faults w) as [|[] fs]; simpl; try by left.
  all: case_tests; simpl; try by left.
  all: right; exists u.
  all: first
    [ exists (Some (bcrypt_hash p (rng w (rng_ctr w)))); split; [done|]; split;
      [unfold is_modified; simpl; rewrite ?Hm; reflexivity | right; eauto]
    | exists (password (doc d)); rewrite with_password_same; split; [done|]; split;
      [unfold is_modified; simpl; rewrite ?Hm; reflexivity | by left] ].
Qed.

(** A save of a document whose password was modified to a non-empty
    string, under any fault schedule: the password is hashed with the next random salt, then the
    next write fails, or the modified paths are written over the stored
    record; one fault entry is consumed. *)
Lemma save_hashes_faults v d w stored p :
  is_modified P_password d = true -> password (doc d) = Some p -> p <> "" ->
  find_first (id_is (_id (doc d))) (db w) = Some stored ->
  let d' := with_password (Some (bcrypt_hash p (rng w (rng_ctr w)))) (doc d) in
  save v d w =
    if hd false (faults w)
    then (Throw "MongoServerError: write failed",
          mkWorld (db w) (now w) (rng w) (S (rng_ctr w)) (tl (faults w)))
    else (Ret (mkDoc d' [] (pw_selected d)),
          mkWorld (replace_by_id (merge (fun q => is_modified q d) d' stored) (db w))
                  (now w) (rng w) (S (rng_ctr w)) (tl (faults w))).
Proof.
  intros Hm Hp Hne Hs d'. unfold save. rewrite Hm, Hp, (truthy_nonempty _ Hne), andb_false_r.
  unfold pre_save, write_modified. rewrite Hm, Hp. st_unfold. simpl.
  unfold is_modified in Hm. destruct (modified d) as [|q l] eqn:Hmd;
    [by apply bool_decide_eq_true in Hm; inversion Hm|].
  unfold next_write_fails. simpl.
  destruct (faults w) as [|[] fs]; simpl in *; try done; rewrite ?with_password_id, Hs;
    unfold is_modified; by rewrite Hmd.
Qed.

(** A save that does not touch the password, with no write failing:
    the modified paths are written over the stored record (an
    unmodified document writes nothing, which is the same). *)
Lemma save_no_password v d w stored :
  is_modified P_password d = false -> faults w = [] -> NoDup (_id <$> db w) ->
  find_first (id_is (_id (doc d))) (db w) = Some stored ->
  save v d w = (Ret (mkDoc (doc d) [] (pw_selected d)),
                set_db (replace_by_id (merge (fun q => is_modified q d) (doc d) stored) (db w)) w).
Proof.
  intros Hm Hf Hnd Hs. unfold save. rewrite Hm. simpl. rewrite andb_false_r.
  unfold pre_save, write_modified. rewrite Hm. st_unfold. unfold is_modified.
  destruct d as [u ms sel]; simpl in *. destruct ms as [|q l].
  - pose proof (find_first_Some _ _ _ Hs) as [_ Hin].
    replace (merge _ u stored) with stored by (by destruct stored).
    rewrite replace_by_id_self by done. by destruct w.
  - unfold next_write_fails. rewrite Hf. simpl. by rewrite Hs.
Qed.

(** A save of a modified document that does not touch the password,
    under any fault schedule: the next write fails, or it writes the
    modified paths over the stored record; one fault entry is consumed. *)
Lemma save_no_password_faults v d w stored :
  is_modified P_password d = false -> modified d <> [] ->
  find_first (id_is (_id (doc d))) (db w) = Some stored ->
  save v d w =
    if hd false (faults w)
    then (Throw "MongoServerError: write failed",
          mkWorld (db w) (now w) (rng w) (rng_ctr w) (tl (faults w)))
    else (Ret (mkDoc (doc d) [] (pw_selected d)),
          mkWorld (replace_by_id (merge (fun q => is_modified q d) (doc d) stored) (db w))
                  (now w) (rng w) (rng_ctr w) (tl (faults w))).
Proof.
  intros Hm Hne Hs. unfold save. rewrite Hm. simpl. rewrite andb_false_r.
  unfold pre_save, write_modified. rewrite Hm. st_unfold. unfold is_modified.
  destruct d as [u ms sel]; simpl in *. destruct ms as [|q l]; [done|].
  destruct w as [dbw nw rw cw fw]; simpl in *.
  unfold next_write_fails. destruct fw as [|[] fs]; simpl; try done; by rewrite Hs.
Qed.
End SaveLemmas.

(** Case on the value-changed tests of Mongoose assignments left in a
    goal, rewriting each test to its value. *)
Ltac case_changed :=
  repeat match goal with
  | |- context [bool_decide (?a ≠ ?b)] =>
      let E := fresh "E" in
      destruct (decide (a = b)) as [E|E];
      [rewrite (bool_decide_false (a ≠ b)) by (intros C; exact (C E))
      |rewrite (bool_decide_true (a ≠ b)) by exact E]
  end.
