(* ===== verification/Http.v ===== *)
(** * Http: requests, JSON bodies, cookies and Express responses

    A handler reads [req.body], [req.query], [req.params.userId] and
    [req.user] (set by the authentication middleware), and answers
    through the chain [res.status(..).setHeader(..).cookie(..).json(..)].
    The response is a value built by that chain; [res.cookie] serializes
    the cookie at once and throws when its [expires] is an invalid date,
    so it lives in the monad.  The process environment read by the
    handlers is the record [Config]. *)

From stdpp Require Import base list strings.
From Stdlib Require Import ZArith String.
From S2P Require Import Prelude Jwt UserModel.
Open Scope string_scope.
Open Scope Z_scope.
Local Open Scope st_scope.

(** ** Requests *)

(** The fields of [req.body] the handlers read: the schema paths. *)
Record UserInput := mkInput {
  in_userName : option string;
  in_email : option string;
  in_password : option string;
  in_firstName : option string;
  in_lastName : option string;
  in_gender : option string;
  in_resetPasswordToken : option string;
  in_resetPasswordExpire : option Z
}.

Definition empty_input : UserInput :=
  mkInput None None None None None None None None.

(** [req.query] *)
Record Query := mkQuery {
  q_userName : option string;
  q_email : option string;
  q_password : option string;
  q_firstName : option string;
  q_lastName : option string;
  q_gender : option string;
  q_limit : option string;
  q_sortByFirstName : option string;
  q_resetToken : option string
}.

Definition empty_query : Query :=
  mkQuery None None None None None None None None None.

Record Req := mkReq {
  body : UserInput;
  query : Query;
  params_userId : ObjectId;
  (** [req.user.id], when the middleware authenticated the caller *)
  req_user : option ObjectId
}.

(** ** Process environment *)

Record Config := mkConfig {
  JWT_SECRET : string;
  (** [JWT_EXPIRE], in seconds *)
  JWT_EXPIRE : Z;
  (** [JWT_COOKIE_EXPIRE] as a number; [None] when unset or not numeric
      (the product with it is then [NaN]) *)
  JWT_COOKIE_EXPIRE : option Z;
  NODE_ENV : string
}.

(** ** Responses *)

#[warnings="-register-all"]
Inductive Json :=
| JNull
| JBool (b : bool)
| JStr (s : string)
| JToken (t : Token)
| JDoc (u : User)
| JArr (l : list Json)
| JObj (kvs : list (string * Json)).

Record Cookie := mkCookie {
  ck_name : string;
  ck_value : Json;
  ck_expires : Z;
  ck_httpOnly : bool;
  ck_secure : bool
}.

Record Response := mkResponse {
  status : Z;
  headers : list (string * string);
  cookies : list Cookie;
  body_json : option Json
}.

(** The response object handed to a handler. *)
Definition res0 : Response := mkResponse 200 [] [] None.

(** [res.status(code)] *)
Definition res_status (code : Z) (r : Response) : Response :=
  mkResponse code (headers r) (cookies r) (body_json r).

(** [res.setHeader(name, value)] *)
Definition res_setHeader (name value : string) (r : Response) : Response :=
  mkResponse (status r) ((name, value) :: headers r) (cookies r) (body_json r).

(** [res.json(v)]: the body; the JSON content type unless one is set. *)
Definition res_json (v : Json) (r : Response) : Response :=
  let hs := if bool_decide ("Content-Type" ∈ fst <$> headers r) then headers r
            else ("Content-Type", "application/json") :: headers r in
  mkResponse (status r) hs (cookies r) (Some v).

(** [res.cookie(name, value, {expires, httpOnly, secure})]: an invalid
    date ([None]) makes the serializer throw. *)
Definition res_cookie {S} (name : string) (v : Json) (expires : option Z)
    (httpOnly secure : bool) (r : Response) : ST S Response :=
  match expires with
  | None => throw "option expires is invalid"
  | Some e =>
      st_ret (mkResponse (status r) (headers r)
                (mkCookie name v e httpOnly secure :: cookies r) (body_json r))
  end.

(** The JSON object [{success, msg}] most handlers answer with. *)
Definition success_msg (b : bool) (msg : string) : Json :=
  JObj [("success", JBool b); ("msg", JStr msg)].

(** ** Well-formed responses *)

(** A response a handler answers with: a success status, a JSON body
    and a content type. *)
Definition resp_wf (r : Response) : Prop :=
  (status r = 200 \/ status r = 201) /\ is_Some (body_json r) /\
  "Content-Type" ∈ fst <$> headers r.

Lemma res_json_wf v r : status r = 200 \/ status r = 201 -> resp_wf (res_json v r).
Proof.
  intros Hs. unfold res_json, resp_wf; simpl. split_and!; [done|by eexists|].
  case_bool_decide; [done|]. left.
Qed.

Lemma res_cookie_status {S} name v e h sec r :
  ret_spec (S:=S) (fun r' => status r' = status r) (res_cookie name v e h sec r).
Proof. unfold res_cookie. destruct e; [apply ret_spec_ret|apply ret_spec_throw]. done. Qed.

(** ** Stored records in a response *)

(** The stored records a JSON value carries (a serialised Mongoose
    document is the only value holding a password field). *)
Fixpoint json_docs (j : Json) : list User :=
  match j with
  | JDoc u => [u]
  | JArr l => flat_map json_docs l
  | JObj kvs => flat_map (fun kv => json_docs kv.2) kvs
  | _ => []
  end.

(** The records a response carries, in its body or in its cookies. *)
Definition resp_docs (r : Response) : list User :=
  (from_option json_docs [] (body_json r) ++ flat_map (fun c => json_docs (ck_value c)) (cookies r))%list.

Lemma res_json_docs v r :
  json_docs v = [] -> flat_map (fun c => json_docs (ck_value c)) (cookies r) = [] ->
  resp_docs (res_json v r) = [].
Proof. unfold resp_docs. simpl. by intros -> ->. Qed.

Lemma res_cookie_docs {S} name v e h sec r :
  json_docs v = [] ->
  ret_spec (S:=S) (fun r' => flat_map (fun c => json_docs (ck_value c)) (cookies r') =
                             flat_map (fun c => json_docs (ck_value c)) (cookies r))
    (res_cookie name v e h sec r).
Proof.
  intros Hv. unfold res_cookie. destruct e; [apply ret_spec_ret|apply ret_spec_throw].
  simpl. by rewrite Hv.
Qed.
