(* ===== verification/Fixtures.v ===== *)
(** * Fixtures: concrete configuration, users, worlds and requests

    The witnesses of the theorems run the handlers on these inputs: the
    concrete crypto of [Crypto.ToyCrypto] and [Jwt.ToyMac], the JWT
    signer configured as [cfg0] says, two users, a world with a fixed
    random stream, and requests for every handler. *)

From stdpp Require Import base list strings.
From Stdlib Require Import ZArith String.
From S2P Require Import Prelude Crypto Jwt UserModel Http.
Open Scope string_scope.
Open Scope Z_scope.

Definition cfg0 : Config := mkConfig "secret" 7200 (Some 2) "development".

(** The session-token signer of [cfg0]. *)
Definition signer0 : TokenSigner :=
  @jwt_signer ToyMac.mac (JWT_SECRET cfg0) (JWT_EXPIRE cfg0).

Definition alice : User :=
  mkUser 1%N (Some "alice") (Some "a@x.io") (Some (ToyCrypto.toy_hash "pw1" "s0"))
    None None None None None.

Definition bob : User :=
  mkUser 2%N (Some "bob") (Some "b@x.io") (Some (ToyCrypto.toy_hash "pw2" "s0"))
    None None None None None.

Definition rng0 (n : nat) : string :=
  match n with 0%nat => "t0" | 1%nat => "t1" | _ => "tn" end.

Definition w0 : World := mkWorld [alice; bob] 1000000 rng0 0%nat [].

Definition rq_body (b : UserInput) : Req := mkReq b empty_query 0%N None.

Definition rq_login (e p : string) : Req :=
  rq_body (mkInput None (Some e) (Some p) None None None None None).

Definition rq_forgot (e : string) : Req :=
  rq_body (mkInput None (Some e) None None None None None None).

Definition rq_reset (rt p : string) : Req :=
  mkReq (mkInput None None (Some p) None None None None None)
        (mkQuery None None None None None None None None (Some rt)) 0%N None.

Definition rq_update (uid : ObjectId) (p : string) : Req :=
  mkReq (mkInput None None (Some p) None None None None None) empty_query 0%N (Some uid).
