(* ===== verification/Auth.v ===== *)
(** * Auth: the credential handlers of [src/controllers/userController.js]

    One definition per handler, lines 110 to 214 of the controller:
    [login], [forgotPassword], [resetPassword], [updatePassword],
    [logout] and the helper [sendTokenResponse].  Each [await] is a
    [let*], each [throw new Error(msg)] a [throw msg], the [try/catch]
    of [forgotPassword] an [st_catch]; a handler returns the response it
    builds.  The handlers are written against the crypto interfaces and
    against the [TokenSigner] contract, so the theorems about them hold
    for every implementation of these interfaces, and in particular for
    the JWT signer of [Jwt] configured with [JWT_SECRET] and
    [JWT_EXPIRE]. *)

From stdpp Require Import base list strings.
From Stdlib Require Import ZArith String.
From S2P Require Import Prelude Crypto Jwt UserModel Http Fixtures.
Open Scope string_scope.
Open Scope Z_scope.
Local Open Scope st_scope.

Section Handlers.
Context `{PasswordHasher} `{Digest} `{TokenSigner}.
Context (cfg : Config).

(** [sendTokenResponse(user, statusCode, res)] *)
Definition sendTokenResponse (d : Doc) (statusCode : Z) : ST World Response :=
  let* token := getSignedJwtToken d in
  let* t := date_now in
  let expires := (fun n => t + n * 24 * 60 * 60 * 1000) <$> JWT_COOKIE_EXPIRE cfg in
  let secure := String.eqb (NODE_ENV cfg) "production" in
  let* r := res_cookie "token" (JToken token) expires true secure
              (res_status statusCode res0) in
  st_ret (res_json (JObj [("success", JBool true); ("token", JToken token)]) r).

(** [login] *)
Definition login (req : Req) : ST World Response :=
  let email := in_email (body req) in
  let pw := in_password (body req) in
  if negb (truthy email) || negb (truthy pw) then throw "Enter email and pw"
  else
    let* user := findOne_email true email in
    match user with
    | None => throw "Invalid Credentials"
    | Some d =>
        let* isMatch := matchPassword d pw in
        if negb isMatch then throw "Invalid Credential"
        else sendTokenResponse d 200
    end.

(** The response of a successful [forgotPassword]. *)
Definition reset_issued_response (resetToken : string) : Response :=
  res_json (success_msg true ("YOU CAN RESET PW WITH TOKEN: " ++ resetToken))
    (res_setHeader "Content-Type" "application/json" (res_status 200 res0)).

(** [forgotPassword] *)
Definition forgotPassword (req : Req) : ST World Response :=
  let* user := findOne_email false (in_email (body req)) in
  match user with
  | None => throw "NO USER FOUND"
  | Some d =>
      let* '(resetToken, d1) := getResetPasswordToken d in
      st_catch
        (let* _ := save false d1 in st_ret (reset_issued_response resetToken))
        (fun _ =>
           let d2 := assign_resetPasswordExpire None (assign_resetPasswordToken None d1) in
           let* _ := save false d2 in
           throw "FAILED TO SAVE PASSWORD TOKEN")
  end.

(** [resetPassword]; [crypto.createHash(..).update(undefined)] throws. *)
Definition resetPassword (req : Req) : ST World Response :=
  match q_resetToken (query req) with
  | None => throw "The data argument must be of type string"
  | Some rt =>
      let resetPasswordToken := sha256_hex rt in
      let* t := date_now in
      let* user := findOne_reset resetPasswordToken t in
      match user with
      | None => throw "Invalid Token"
      | Some d =>
          let d1 := assign_password (in_password (body req)) d in
          let d2 := assign_resetPasswordExpire None d1 in
          let d3 := assign_resetPasswordExpire None d2 in
          let* d4 := save true d3 in
          sendTokenResponse d4 200
      end
  end.

(** [updatePassword]; [req.user.id] throws when no user is attached. *)
Definition updatePassword (req : Req) : ST World Response :=
  match req_user req with
  | None => throw "Cannot read properties of undefined (reading 'id')"
  | Some uid =>
      let* user := findById true uid in
      match user with
      | None => throw "Invalid Credentials"
      | Some d =>
          let* passwordMatches := matchPassword d (in_password (body req)) in
          if negb passwordMatches then throw "Password is incorrect"
          else
            let* d1 := save true d in
            sendTokenResponse d1 200
      end
  end.

(** [logout] *)
Definition logout (req : Req) : ST World Response :=
  let* t := date_now in
  let* r := res_cookie "token" (JStr "none") (Some (t + 10 * 1000)) true false
              (res_status 200 res0) in
  st_ret (res_json (success_msg true "Successfully logged out!") r).
End Handlers.

(** ** Behaviour of the handlers *)

(** The record a successful reset leaves: the new password's hash, the
    expiry cleared. *)
Definition reset_record `{PasswordHasher} (u : User) (p salt : string) : User :=
  with_resetPasswordExpire None (with_password (Some (bcrypt_hash p salt)) u).

Section Behaviour.
Context `{PasswordHasher} `{Digest} `{TokenSigner}.
Context (cfg : Config).
Local Arguments sendTokenResponse : simpl never.
Local Arguments replace_by_id : simpl never.
Local Arguments save : simpl never.

(** The session token [sendTokenResponse] issues for a document. *)
Definition session_cookie (tk : Token) (t n : Z) : Cookie :=
  mkCookie "token" (JToken tk) (t + n * 24 * 60 * 60 * 1000) true
    (String.eqb (NODE_ENV cfg) "production").

Lemma sendTokenResponse_run d sc w n :
  JWT_COOKIE_EXPIRE cfg = Some n ->
  sendTokenResponse cfg d sc w =
  (let tk := ts_issue (_id (doc d)) (now w) in
   (Ret (res_json (JObj [("success", JBool true); ("token", JToken tk)])
           (mkResponse sc [] [session_cookie tk (now w) n] None)), w)).
Proof.
  intros Hn. unfold sendTokenResponse, getSignedJwtToken, date_now.
  st_unfold. simpl. by rewrite Hn.
Qed.

Lemma sendTokenResponse_no_expiry d sc w :
  JWT_COOKIE_EXPIRE cfg = None ->
  sendTokenResponse cfg d sc w = (Throw "option expires is invalid", w).
Proof.
  intros Hn. unfold sendTokenResponse, getSignedJwtToken, date_now.
  st_unfold. simpl. by rewrite Hn.
Qed.

(** [sendTokenResponse] never changes the world. *)
Lemma sendTokenResponse_final d sc w : final (sendTokenResponse cfg d sc) w = w.
Proof.
  unfold final. destruct (JWT_COOKIE_EXPIRE cfg) eqn:Hn;
    [rewrite (sendTokenResponse_run _ _ _ _ Hn) | rewrite sendTokenResponse_no_expiry];
    done.
Qed.

Lemma sendTokenResponse_final_db d sc w :
  snd (sendTokenResponse cfg d sc w) = w.
Proof. apply sendTokenResponse_final. Qed.

(** Unfold a handler down to its first store query on a given world. *)
Lemma find_with_run sel p (k : option Doc -> ST World Response) w :
  st_bind (find_with sel p) k w = k (hydrate sel <$> find_first p (db w)) w.
Proof. reflexivity. Qed.

Lemma login_guard_passes req e p :
  in_email (body req) = Some e -> in_password (body req) = Some p ->
  e <> "" -> p <> "" ->
  login cfg req = st_bind (findOne_email true (Some e)) (fun user =>
    match user with
    | None => throw "Invalid Credentials"
    | Some d =>
        st_bind (matchPassword d (Some p)) (fun isMatch =>
          if negb isMatch then throw "Invalid Credential" else sendTokenResponse cfg d 200)
    end)%st.
Proof.
  intros He Hp Hne Hpe. unfold login. rewrite He, Hp. simpl.
  by rewrite (proj2 (String.eqb_neq _ _) Hne), (proj2 (String.eqb_neq _ _) Hpe).
Qed.

(** The run of a login that passed its guard and found a record with a
    stored password: the password check decides between the session
    response and ["Invalid Credential"]. *)
Lemma login_found_run req w e p u h :
  in_email (body req) = Some e -> in_password (body req) = Some p ->
  e <> "" -> p <> "" ->
  find_first (email_is (Some e)) (db w) = Some u -> password u = Some h ->
  login cfg req w =
    if bcrypt_compare p h then sendTokenResponse cfg (hydrate true u) 200 w
    else (Throw "Invalid Credential", w).
Proof.
  intros He Hp Hne Hpe Hf Hh. rewrite (login_guard_passes _ _ _ He Hp Hne Hpe).
  unfold findOne_email. rewrite find_with_run, Hf. simpl. rewrite Hh, st_bind_ret_l.
  by destruct (bcrypt_compare p h).
Qed.

(** C1. Scenario A: a login with an existing email and the matching
    password answers 200 with a session token for that user in the
    body and in an httpOnly [token] cookie that expires
    [JWT_COOKIE_EXPIRE] days later; the token verifies to the user's
    id over the signer's guaranteed lifetime; the store is untouched. *)
Theorem login_issues_session req w e p u h n :
  in_email (body req) = Some e -> in_password (body req) = Some p ->
  e <> "" -> p <> "" ->
  find_first (email_is (Some e)) (db w) = Some u ->
  password u = Some h -> bcrypt_compare p h = true ->
  JWT_COOKIE_EXPIRE cfg = Some n ->
  let tk := ts_issue (_id u) (now w) in
  exists r, login cfg req w = (Ret r, w) /\ status r = 200 /\
    body_json r = Some (JObj [("success", JBool true); ("token", JToken tk)]) /\
    cookies r = [session_cookie tk (now w) n] /\
    (forall now', now w <= now' < now w + ts_min_life -> ts_verify tk now' = Valid (_id u)).
Proof.
  intros He Hp Hne Hpe Hf Hh Hc Hn tk.
  rewrite (login_found_run _ _ _ _ _ _ He Hp Hne Hpe Hf Hh), Hc, (sendTokenResponse_run _ _ _ _ Hn).
  eexists. split_and!; [reflexivity..|]. apply ts_valid.
Qed.

(** C7. Scenario B, as the code behaves: a login with an unknown
    email throws ["Invalid Credentials"] and one with a wrong password
    throws ["Invalid Credential"]; both leave the store untouched, and
    the two messages differ, so a caller can tell which emails are
    registered. *)
Theorem login_rejections req w e p :
  in_email (body req) = Some e -> in_password (body req) = Some p ->
  e <> "" -> p <> "" ->
  (find_first (email_is (Some e)) (db w) = None ->
     login cfg req w = (Throw "Invalid Credentials", w)) /\
  (forall u h, find_first (email_is (Some e)) (db w) = Some u ->
     password u = Some h -> bcrypt_compare p h = false ->
     login cfg req w = (Throw "Invalid Credential", w)) /\
  "Invalid Credentials" <> "Invalid Credential".
Proof.
  intros He Hp Hne Hpe. split_and!.
  - intros Hf. rewrite (login_guard_passes _ _ _ He Hp Hne Hpe).
    unfold findOne_email. by rewrite find_with_run, Hf.
  - intros u h Hf Hh Hc. by rewrite (login_found_run _ _ _ _ _ _ He Hp Hne Hpe Hf Hh), Hc.
  - done.
Qed.

(** The guard of [login]: a missing or empty email or password
    throws ["Enter email and pw"] before the store is read. *)
Theorem login_missing_field req w :
  truthy (in_email (body req)) = false \/ truthy (in_password (body req)) = false ->
  login cfg req w = (Throw "Enter email and pw", w).
Proof.
  unfold login. intros [-> | ->]; [done|]. by rewrite orb_true_r.
Qed.

(** [logout] always answers 200 with the [token] cookie replaced
    by ["none"], httpOnly and expiring ten seconds later; no server
    state changes. *)
Theorem logout_clears_cookie req w :
  logout req w =
  (Ret (res_json (success_msg true "Successfully logged out!")
          (mkResponse 200 [] [mkCookie "token" (JStr "none") (now w + 10 * 1000) true false] None)),
   w).
Proof. reflexivity. Qed.

(** Unfold [updatePassword] down to its password check. *)
Lemma updatePassword_found req w uid u :
  req_user req = Some uid -> find_first (id_is uid) (db w) = Some u ->
  updatePassword cfg req w =
  st_bind (matchPassword (hydrate true u) (in_password (body req))) (fun ok =>
    if negb ok then throw "Password is incorrect"
    else st_bind (save true (hydrate true u)) (fun d1 => sendTokenResponse cfg d1 200))%st w.
Proof.
  intros Hu Hf. unfold updatePassword. rewrite Hu.
  unfold findById. by rewrite find_with_run, Hf.
Qed.

(** [updatePassword] leaves the world as it was, on any request. *)
Lemma updatePassword_final req w : final (updatePassword cfg req) w = w.
Proof.
  unfold final. destruct (req_user req) as [uid|] eqn:Hu;
    [|unfold updatePassword; by rewrite Hu].
  destruct (find_first (id_is uid) (db w)) as [u|] eqn:Hf;
    [|unfold updatePassword, findById; by rewrite Hu, find_with_run, Hf].
  rewrite (updatePassword_found _ _ _ _ Hu Hf). unfold matchPassword. simpl.
  destruct (in_password (body req)) as [q|]; simpl; [|done].
  destruct (password u) as [h|]; simpl; [|done].
  destruct (bcrypt_compare q h); st_simp; [|done].
  rewrite (st_bind_ret_step _ _ _ _ _ (save_clean true (hydrate true u) w eq_refl)).
  apply sendTokenResponse_final.
Qed.

(** C5. [updatePassword] never changes the stored records, on any
    request and any world: it checks the current password and saves
    the unmodified document, so no new password is ever stored.  It
    succeeds only for an attached user whose record is found and whose
    stored hash matches [req.body.password]. *)
Theorem updatePassword_never_writes req w :
  db (final (updatePassword cfg req) w) = db w /\
  forall r, outcome (updatePassword cfg req) w = Ret r ->
    exists uid u p h, req_user req = Some uid /\ find_first (id_is uid) (db w) = Some u /\
      in_password (body req) = Some p /\ password u = Some h /\ bcrypt_compare p h = true.
Proof.
  split; [by rewrite updatePassword_final|]. intros r. unfold outcome.
  destruct (req_user req) as [uid|] eqn:Hu; [|unfold updatePassword; by rewrite Hu].
  destruct (find_first (id_is uid) (db w)) as [u|] eqn:Hf;
    [|unfold updatePassword, findById; by rewrite Hu, find_with_run, Hf].
  rewrite (updatePassword_found _ _ _ _ Hu Hf). unfold matchPassword. simpl.
  destruct (in_password (body req)) as [q|] eqn:Hq; simpl; [|done].
  destruct (password u) as [h|] eqn:Hh; simpl; [|done].
  destruct (bcrypt_compare q h) eqn:Hc; st_simp; [|done]. intros _. by exists uid, u, q, h.
Qed.

(** Scenario E: [updatePassword] with a wrong current password
    throws ["Password is incorrect"] and leaves the world as it was. *)
Theorem updatePassword_wrong_current req w uid u p h :
  req_user req = Some uid -> find_first (id_is uid) (db w) = Some u ->
  in_password (body req) = Some p -> password u = Some h ->
  bcrypt_compare p h = false ->
  updatePassword cfg req w = (Throw "Password is incorrect", w).
Proof.
  intros Hu Hf Hp Hh Hc. rewrite (updatePassword_found _ _ _ _ Hu Hf).
  unfold matchPassword. simpl. by rewrite Hp, Hh, st_bind_ret_l, Hc.
Qed.

(** The document [resetPassword] saves: the new password is modified
    (and the expiry, when one was stored); the token hash is not
    touched, and writing its modified paths over the stored record
    gives [reset_record]. *)
Lemma reset_doc u p :
  let d := assign_resetPasswordExpire None (assign_resetPasswordExpire None
             (assign_password (Some p) (hydrate false u))) in
  is_modified P_password d = true /\ password (doc d) = Some p /\ _id (doc d) = _id u /\
  pw_selected d = false /\
  forall salt, let d' := with_password (Some (bcrypt_hash p salt)) (doc d) in
    d' = reset_record u p salt /\ merge (fun q => is_modified q d) d' u = reset_record u p salt.
Proof.
  destruct u as [i un e pw fn ln g tk ex]. unfold reset_record, is_modified,
    assign_resetPasswordExpire, assign_password, mark. simpl.
  destruct ex; simpl; split_and!; try done; intros salt; split; reflexivity.
Qed.

(** Unfold [resetPassword] down to the record its query finds. *)
Lemma resetPassword_query req w rt :
  q_resetToken (query req) = Some rt ->
  resetPassword cfg req w =
  match find_first (reset_matches (sha256_hex rt) (now w)) (db w) with
  | None => (Throw "Invalid Token", w)
  | Some u =>
      st_bind (save true (assign_resetPasswordExpire None (assign_resetPasswordExpire None
                 (assign_password (in_password (body req)) (hydrate false u)))))
              (fun d4 => sendTokenResponse cfg d4 200) w
  end.
Proof.
  intros Hq. unfold resetPassword. rewrite Hq.
  unfold date_now, findOne_reset. st_unfold. simpl. unfold find_with. simpl.
  by destruct (find_first _ _).
Qed.

(** Without a new password (absent or empty), the unselected password
    path is assigned and marked modified, so validation rejects the
    save and nothing is written. *)
Lemma resetPassword_no_password req w rt u :
  q_resetToken (query req) = Some rt -> truthy (in_password (body req)) = false ->
  find_first (reset_matches (sha256_hex rt) (now w)) (db w) = Some u ->
  resetPassword cfg req w =
    (Throw "User validation failed: password: Path `password` is required.", w).
Proof.
  intros Hq Hp Hf. rewrite (resetPassword_query _ _ _ Hq), Hf.
  destruct (in_password (body req)) as [s|];
    [simpl in Hp; apply negb_false_iff, String.eqb_eq in Hp; subst s|].
  all: unfold st_bind, save; destruct u as [? ? ? ? ? ? ? ? [x|]]; reflexivity.
Qed.

(** The run of a reset that found its record and has a new password:
    the password is hashed with the next random salt; then either the
    write fails, or the record becomes [reset_record] and the session
    token is sent. *)
Lemma resetPassword_found_run req w rt p u :
  q_resetToken (query req) = Some rt -> in_password (body req) = Some p -> p <> "" ->
  find_first (reset_matches (sha256_hex rt) (now w)) (db w) = Some u ->
  NoDup (_id <$> db w) ->
  let salt := rng w (rng_ctr w) in
  resetPassword cfg req w =
    if hd false (faults w)
    then (Throw "MongoServerError: write failed",
          mkWorld (db w) (now w) (rng w) (S (rng_ctr w)) (tl (faults w)))
    else sendTokenResponse cfg (mkDoc (reset_record u p salt) [] false) 200
           (mkWorld (replace_by_id (reset_record u p salt) (db w))
                    (now w) (rng w) (S (rng_ctr w)) (tl (faults w))).
Proof.
  intros Hq Hp Hne Hf Hnd salt.
  pose proof (find_first_Some _ _ _ Hf) as [_ Hin].
  rewrite (resetPassword_query _ _ _ Hq), Hf, Hp. unfold st_bind.
  destruct (reset_doc u p) as (Hm & Hpw & Hid & Hsel & Hw).
  rewrite (save_hashes_faults _ _ _ u p Hm Hpw Hne); [|rewrite Hid; exact (find_first_id_unique _ _ Hnd Hin)].
  destruct (hd false (faults w)); [done|]. rewrite Hsel. destruct (Hw (rng w (rng_ctr w))) as [Hd Hmg]. by rewrite Hmg, Hd.
Qed.

(** C9. A reset with a valid, unexpired token and a new non-empty password
    succeeds when the write goes through: the response carries a
    session token for the record's owner, and the record now holds
    the bcrypt hash of the new password (salted with the next random
    draw) with its expiry cleared; every other field, the reset token
    hash included, is kept. *)
Theorem resetPassword_success req w rt p u n :
  q_resetToken (query req) = Some rt -> in_password (body req) = Some p -> p <> "" ->
  find_first (reset_matches (sha256_hex rt) (now w)) (db w) = Some u ->
  NoDup (_id <$> db w) -> hd false (faults w) = false ->
  JWT_COOKIE_EXPIRE cfg = Some n ->
  let salt := rng w (rng_ctr w) in
  let tk := ts_issue (_id u) (now w) in
  exists r, outcome (resetPassword cfg req) w = Ret r /\
    body_json r = Some (JObj [("success", JBool true); ("token", JToken tk)]) /\
    db (final (resetPassword cfg req) w) =
      replace_by_id (with_resetPasswordExpire None
                       (with_password (Some (bcrypt_hash p salt)) u)) (db w).
Proof.
  intros Hq Hp Hne Hf Hnd Hw Hn salt tk. unfold outcome, final.
  rewrite (resetPassword_found_run _ _ _ _ _ Hq Hp Hne Hf Hnd), Hw.
  rewrite (sendTokenResponse_run _ _ _ _ Hn). by eexists.
Qed.

(** A token that matches no record holding an unexpired hash of it
    throws ["Invalid Token"] and changes nothing. *)
Lemma resetPassword_unmatched req w rt :
  q_resetToken (query req) = Some rt ->
  find_first (reset_matches (sha256_hex rt) (now w)) (db w) = None ->
  resetPassword cfg req w = (Throw "Invalid Token", w).
Proof. intros Hq Hf. by rewrite (resetPassword_query _ _ _ Hq), Hf. Qed.

(** C15. Scenario D, as the code behaves: a request without
    [?resetToken] throws the hashing library's type error, and a token
    that matches no record holding an unexpired hash of it (unknown,
    already used or expired alike) throws ["Invalid Token"]; in both
    cases nothing changes. *)
Theorem resetPassword_invalid req w :
  (q_resetToken (query req) = None ->
   resetPassword cfg req w = (Throw "The data argument must be of type string", w)) /\
  (forall rt, q_resetToken (query req) = Some rt ->
   find_first (reset_matches (sha256_hex rt) (now w)) (db w) = None ->
   resetPassword cfg req w = (Throw "Invalid Token", w)).
Proof.
  split; [intros Hq; unfold resetPassword; by rewrite Hq|].
  intros rt. apply resetPassword_unmatched.
Qed.

(** The run of [updatePassword] when the current password matches:
    the unmodified document is saved (nothing written) and a fresh
    session is sent. *)
Lemma updatePassword_ok_run req w uid u p h n :
  req_user req = Some uid -> find_first (id_is uid) (db w) = Some u ->
  in_password (body req) = Some p -> password u = Some h -> bcrypt_compare p h = true ->
  JWT_COOKIE_EXPIRE cfg = Some n ->
  updatePassword cfg req w =
    (let tk := ts_issue (_id u) (now w) in
     (Ret (res_json (JObj [("success", JBool true); ("token", JToken tk)])
             (mkResponse 200 [] [session_cookie tk (now w) n] None)), w)).
Proof.
  intros Hu Hf Hp Hh Hc Hn. rewrite (updatePassword_found _ _ _ _ Hu Hf).
  unfold matchPassword. simpl. rewrite Hp, Hh, st_bind_ret_l, Hc. simpl.
  rewrite (st_bind_ret_step _ _ _ _ _ (save_clean true (hydrate true u) w eq_refl)).
  by rewrite (sendTokenResponse_run _ _ _ _ Hn).
Qed.

(** What a successful login answered: the session cookie for the first
    record with the request's email. *)
Lemma login_ret req w r :
  outcome (login cfg req) w = Ret r ->
  exists u n, find_first (email_is (in_email (body req))) (db w) = Some u /\
    JWT_COOKIE_EXPIRE cfg = Some n /\
    cookies r = [session_cookie (ts_issue (_id u) (now w)) (now w) n] /\
    exists p h, in_password (body req) = Some p /\ password u = Some h /\ bcrypt_compare p h = true.
Proof.
  unfold outcome, login. destruct (negb _ || negb _); [done|].
  unfold findOne_email. rewrite find_with_run.
  destruct (find_first _ _) as [u|] eqn:Hf; simpl; [|done].
  unfold matchPassword. destruct (in_password (body req)) as [q|] eqn:Hq; simpl; [|done].
  destruct (password u) as [h|] eqn:Hh; simpl; [|done].
  destruct (bcrypt_compare q h) eqn:Hc; st_simp; [|done].
  destruct (JWT_COOKIE_EXPIRE cfg) as [n|] eqn:Hn;
    [rewrite (sendTokenResponse_run _ _ _ _ Hn) | by rewrite sendTokenResponse_no_expiry].
  simpl. intros [= <-]. exists u, n. split_and!; [done..|]. by exists q, h.
Qed.
End Behaviour.

(** ** The responses of the credential handlers *)

Section Responses.
Context `{PasswordHasher} `{Digest} `{TokenSigner}.
Context (cfg : Config).

Lemma sendTokenResponse_wf d sc :
  sc = 200 \/ sc = 201 -> ret_spec resp_wf (sendTokenResponse cfg d sc).
Proof.
  intros Hsc. unfold sendTokenResponse.
  apply ret_spec_bind; intros tk. apply ret_spec_bind; intros t.
  apply (ret_spec_bind_post (fun r => status r = sc)); [apply res_cookie_status|].
  intros r Hr. apply ret_spec_ret, res_json_wf. by rewrite Hr.
Qed.
End Responses.

(** Decompose a [ret_spec resp_wf] goal down to the responses built. *)
Ltac resp_wf_solve :=
  repeat (ret_spec_step
          || (apply sendTokenResponse_wf; auto)
          || (apply res_json_wf; simpl; auto)).

Section HandlerResponses.
Context `{PasswordHasher} `{Digest} `{TokenSigner}.
Context (cfg : Config).

Lemma login_wf req : ret_spec resp_wf (login cfg req).
Proof. unfold login. resp_wf_solve. Qed.

Lemma forgotPassword_wf req : ret_spec resp_wf (forgotPassword req).
Proof. unfold forgotPassword, reset_issued_response. resp_wf_solve. Qed.

Lemma resetPassword_wf req : ret_spec resp_wf (resetPassword cfg req).
Proof. unfold resetPassword. resp_wf_solve. Qed.

Lemma updatePassword_wf req : ret_spec resp_wf (updatePassword cfg req).
Proof. unfold updatePassword. resp_wf_solve. Qed.

Lemma logout_wf req : ret_spec resp_wf (logout req).
Proof.
  unfold logout. apply ret_spec_bind; intros t.
  apply (ret_spec_bind_post (fun r => status r = 200)); [apply res_cookie_status|].
  intros r Hr. apply ret_spec_ret, res_json_wf. by left.
Qed.

(** No credential handler answers with a stored record: its bodies are
    messages and session tokens, its cookies session tokens or ["none"]. *)
Lemma sendTokenResponse_docs d sc : ret_spec (fun r => resp_docs r = []) (sendTokenResponse cfg d sc).
Proof.
  unfold sendTokenResponse. apply ret_spec_bind; intros tk. apply ret_spec_bind; intros t.
  eapply ret_spec_bind_post; [apply res_cookie_docs; reflexivity|].
  intros r Hr. apply ret_spec_ret, res_json_docs; [done|]. by rewrite Hr.
Qed.

Ltac resp_docs_solve :=
  repeat (ret_spec_step || apply sendTokenResponse_docs || reflexivity).

Lemma login_docs req : ret_spec (fun r => resp_docs r = []) (login cfg req).
Proof. unfold login. resp_docs_solve. Qed.

Lemma forgotPassword_docs req : ret_spec (fun r => resp_docs r = []) (forgotPassword req).
Proof. unfold forgotPassword. resp_docs_solve. Qed.

Lemma resetPassword_docs req : ret_spec (fun r => resp_docs r = []) (resetPassword cfg req).
Proof. unfold resetPassword. resp_docs_solve. Qed.

Lemma updatePassword_docs req : ret_spec (fun r => resp_docs r = []) (updatePassword cfg req).
Proof. unfold updatePassword. resp_docs_solve. Qed.

Lemma logout_docs req : ret_spec (fun r => resp_docs r = []) (logout req).
Proof.
  unfold logout. apply ret_spec_bind; intros t.
  eapply ret_spec_bind_post; [apply res_cookie_docs; reflexivity|].
  intros r Hr. apply ret_spec_ret, res_json_docs; [done|]. by rewrite Hr.
Qed.
End HandlerResponses.

(** ** Witnesses: the theorems at the fixtures *)

Section Witnesses.
Import ToyCrypto.
#[local] Existing Instance signer0.

Lemma login_issues_session_witness :
  exists r, login cfg0 (rq_login "a@x.io" "pw1") w0 = (Ret r, w0) /\ status r = 200.
Proof.
  pose proof (login_issues_session cfg0 (rq_login "a@x.io" "pw1") w0 "a@x.io" "pw1" alice
                _ 2 eq_refl eq_refl ltac:(discriminate) ltac:(discriminate) eq_refl eq_refl
                eq_refl eq_refl) as H.
  cbv zeta in H. destruct H as (r & Hl & Hs & _). exists r. split; assumption.
Defined.

Lemma login_rejections_witness :
  login cfg0 (rq_login "c@x.io" "pw1") w0 = (Throw "Invalid Credentials", w0) /\
  login cfg0 (rq_login "a@x.io" "pw2") w0 = (Throw "Invalid Credential", w0).
Proof.
  split.
  - apply (login_rejections cfg0 _ _ "c@x.io" "pw1"); try reflexivity; discriminate.
  - apply (proj1 (proj2 (login_rejections cfg0 (rq_login "a@x.io" "pw2") w0 "a@x.io" "pw2"
             eq_refl eq_refl ltac:(discriminate) ltac:(discriminate))) alice _ eq_refl eq_refl).
    reflexivity.
Defined.

Lemma login_missing_field_witness :
  login cfg0 (rq_login "" "pw1") w0 = (Throw "Enter email and pw", w0).
Proof. apply login_missing_field. left. reflexivity. Defined.

Lemma updatePassword_wrong_current_witness :
  updatePassword cfg0 (rq_update 1%N "nope") w0 = (Throw "Password is incorrect", w0).
Proof.
  apply (updatePassword_wrong_current cfg0 _ _ 1%N alice "nope" (ToyCrypto.toy_hash "pw1" "s0"));
    reflexivity.
Defined.

(** A world where alice holds an unexpired reset digest of ["t0"]. *)
Definition w_reset : World :=
  mkWorld [mkUser 1%N (Some "alice") (Some "a@x.io") (Some (toy_hash "pw1" "s0"))
             None None None (Some (sha256_hex "t0")) (Some 1600000); bob]
          1000000 rng0 0%nat [].

Lemma resetPassword_success_witness :
  exists r, outcome (resetPassword cfg0 (rq_reset "t0" "new")) w_reset = Ret r.
Proof.
  pose proof (resetPassword_success cfg0 (rq_reset "t0" "new") w_reset "t0" "new"
                (hd alice (db w_reset)) 2 eq_refl eq_refl ltac:(discriminate) eq_refl
                ltac:(by_decide) eq_refl eq_refl) as H.
  cbv zeta in H. destruct H as (r & Hr & _). exists r. exact Hr.
Defined.

Lemma resetPassword_invalid_witness :
  resetPassword cfg0 (rq_reset "t9" "new") w_reset = (Throw "Invalid Token", w_reset).
Proof. apply (proj2 (resetPassword_invalid cfg0 (rq_reset "t9" "new") w_reset) "t9"); reflexivity. Defined.
End Witnesses.
