(* ===== verification/Crud.v ===== *)
(** * Crud: the record handlers of the controller

    [getUsers], [postUser], [deleteUsers], [getUser], [updateUser] and
    [deleteUser] of [src/controllers/userController.js], each a [try]
    around one call of the [User] model whose [catch] rethrows the
    error with a handler-specific prefix.  The model calls they make
    are defined here over the store of [UserModel]:
    - [User.find({}, projection, options)]: a projection of the schema
      paths (empty: every path but the unselected [password]; inclusive:
      [_id] and the listed paths, [password] included when listed), and
      the options [limit] (cast to a number; [0] means no limit, a
      negative limit its absolute value) and [sort] on [firstName]
      (absent values first when ascending; strings in binary order);
    - [User.create(body)]: a new document of the paths present in the
      body, with a fresh id, validated and passed through the pre-save
      hook, then inserted;
    - [User.findByIdAndUpdate(id, {$set: body}, {new: true})]: an
      update command, which runs neither the validators nor the save
      hook, answering the updated record without its password;
    - [User.deleteMany()] and [User.findByIdAndDelete(id)].
    Every write command consults the fault schedule once. *)

From stdpp Require Import base list strings sorting pretty sets.
From Stdlib Require Import ZArith String Ascii.
From S2P Require Import Prelude Crypto Jwt UserModel Http Fixtures Auth.
Open Scope string_scope.
Open Scope Z_scope.
Local Open Scope st_scope.

(** ** Projection and options of [getUsers] *)

(** The record with every path absent but [_id]. *)
Definition blank (u : User) : User :=
  mkUser (_id u) None None None None None None None None.

(** A result document under a projection: the empty projection keeps
    every path but [password] ([select: false] in the schema); an
    inclusive one keeps [_id] and the listed paths. *)
Definition project (ps : list Path) (u : User) : User :=
  match ps with
  | [] => with_password None u
  | _ => merge (fun p => bool_decide (p ∈ ps)) u (blank u)
  end.

(** The options object of [getUsers]: [limit] as the query gave it and
    the direction of the sort on [firstName]. *)
Record FindOptions := mkOptions { opt_limit : option string; opt_sort : option Z }.

(** [Object.keys(req.query).length]: the keys present in the query. *)
Definition query_has_keys (q : Query) : bool :=
  existsb (fun o => bool_decide (is_Some o)) [q_userName q; q_email q; q_password q; q_firstName q; q_lastName q;
    q_gender q; q_limit q; q_sortByFirstName q; q_resetToken q].

(** The [filter] and [options] objects that [getUsers] builds. *)
Definition getUsers_args (q : Query) : list Path * FindOptions :=
  if query_has_keys q then
    let f := ((if truthy (q_userName q) then [P_userName] else []) ++
             (if truthy (q_email q) then [P_email] else []) ++
             (if truthy (q_password q) then [P_password] else []) ++
             (if truthy (q_firstName q) then [P_firstName] else []) ++
             (if truthy (q_lastName q) then [P_lastName] else []) ++
             (if truthy (q_gender q) then [P_gender] else []))%list in
    let lim := if truthy (q_limit q) then q_limit q else None in
    let srt := if truthy (q_sortByFirstName q)
               then Some (if bool_decide (q_sortByFirstName q = Some "asc") then 1 else -1)
               else None in
    (f, mkOptions lim srt)
  else ([], mkOptions None None).

(** Casting the [limit] string to a number: an optional minus sign and
    decimal digits. *)
Fixpoint digits_value (acc : Z) (s : string) : option Z :=
  match s with
  | EmptyString => Some acc
  | String c s' =>
      let n := Z.of_nat (nat_of_ascii c) - 48 in
      if (0 <=? n) && (n <=? 9) then digits_value (10 * acc + n) s' else None
  end.

Definition parse_limit (s : string) : option Z :=
  match s with
  | String "-"%char (String c s') => Z.opp <$> digits_value 0 (String c s')
  | String c s' => digits_value 0 (String c s')
  | EmptyString => None
  end.

(** MongoDB's [limit]: [0] returns everything; a negative limit is
    taken by its absolute value. *)
Definition apply_limit (n : Z) (l : list User) : list User :=
  if n =? 0 then l else take (Z.to_nat (Z.abs n)) l.

(** The order of [sort: {firstName: 1}]: an absent value first, then
    strings in binary order. *)
Definition firstName_le (a b : option string) : Prop :=
  match a, b with
  | None, _ => True
  | Some _, None => False
  | Some x, Some y => String.compare x y <> Gt
  end.

#[export] Instance firstName_le_dec : RelDecision firstName_le.
Proof. intros [x|] [y|]; simpl; apply _. Defined.

Definition sort_order (dir : Z) (u v : User) : Prop :=
  if dir =? 1 then firstName_le (firstName u) (firstName v)
  else firstName_le (firstName v) (firstName u).

#[export] Instance sort_order_dec dir : RelDecision (sort_order dir).
Proof. intros u v. unfold sort_order. destruct (dir =? 1); apply _. Defined.

(** [User.find({}, filter, options)]: sort, then limit, then project. *)
Definition find_all (ps : list Path) (o : FindOptions) : ST World (list User) :=
  let* w := st_get in
  let sorted := match opt_sort o with
                | Some dir => merge_sort (sort_order dir) (db w)
                | None => db w
                end in
  match opt_limit o with
  | None => st_ret (project ps <$> sorted)
  | Some s =>
      match parse_limit s with
      | None => throw ("Cast to Number failed for value " ++ s ++ " at path limit")
      | Some n => st_ret (project ps <$> apply_limit n sorted)
      end
  end.

(** ** Writes of the update and delete commands *)

(** The fields of [{$set: req.body}]: the paths present in the body. *)
Definition set_fields (i : UserInput) (u : User) : User := {|
  _id := _id u;
  userName := if in_userName i is Some v then Some v else userName u;
  email := if in_email i is Some v then Some v else email u;
  password := if in_password i is Some v then Some v else password u;
  firstName := if in_firstName i is Some v then Some v else firstName u;
  lastName := if in_lastName i is Some v then Some v else lastName u;
  gender := if in_gender i is Some v then Some v else gender u;
  resetPasswordToken := if in_resetPasswordToken i is Some v then Some v
                        else resetPasswordToken u;
  resetPasswordExpire := if in_resetPasswordExpire i is Some v then Some v
                         else resetPasswordExpire u
|}.

(** A failing write command throws the store's error. *)
Definition write_command : ST World unit :=
  let* fails := next_write_fails in
  if fails then throw "MongoServerError: write failed" else st_ret tt.

(** [User.findByIdAndUpdate(id, {$set: body}, {new: true})]. *)
Definition findByIdAndUpdate (id : ObjectId) (i : UserInput) : ST World (option User) :=
  let* _ := write_command in
  let* w := st_get in
  match find_first (id_is id) (db w) with
  | None => st_ret None
  | Some u =>
      let u' := set_fields i u in
      let* _ := st_put (set_db (replace_by_id u' (db w)) w) in
      st_ret (Some (with_password None u'))
  end.

(** [User.findByIdAndDelete(id)] *)
Definition findByIdAndDelete (id : ObjectId) : ST World (option User) :=
  let* _ := write_command in
  let* w := st_get in
  let* _ := st_put (set_db (filter (fun u => negb (id_is id u)) (db w)) w) in
  st_ret (with_password None <$> find_first (id_is id) (db w)).

(** [User.deleteMany()] *)
Definition deleteMany : ST World unit :=
  let* _ := write_command in
  let* w := st_get in
  st_put (set_db [] w).

(** ** [User.create(body)] *)

(** The id of a new document: larger than every stored one. *)
Definition fresh_id (l : list User) : ObjectId := N.succ (foldr N.max 0%N (_id <$> l)).

(** [new User(body)]: the schema paths present in the body. *)
Definition input_user (id : ObjectId) (i : UserInput) : User :=
  set_fields i (mkUser id None None None None None None None None).

(** The paths a new document holds, all of them modified. *)
Definition input_paths (i : UserInput) : list Path :=
  ((if in_userName i is Some _ then [P_userName] else []) ++
   (if in_email i is Some _ then [P_email] else []) ++
   (if in_password i is Some _ then [P_password] else []) ++
   (if in_firstName i is Some _ then [P_firstName] else []) ++
   (if in_lastName i is Some _ then [P_lastName] else []) ++
   (if in_gender i is Some _ then [P_gender] else []) ++
   (if in_resetPasswordToken i is Some _ then [P_resetPasswordToken] else []) ++
   (if in_resetPasswordExpire i is Some _ then [P_resetPasswordExpire] else []))%list.

Section Create.
Context `{PasswordHasher}.

(** [User.create(body)]: a new document is validated on every path (the
    password is required), passes through the pre-save hook, and is
    inserted at the end of the collection. *)
Definition User_create (i : UserInput) : ST World Doc :=
  let* w := st_get in
  let d := mkDoc (input_user (fresh_id (db w)) i) (input_paths i) true in
  if negb (truthy (password (doc d)))
  then throw "User validation failed: password: Path `password` is required."
  else
    let* d1 := pre_save d in
    let* _ := write_command in
    let* w1 := st_get in
    let* _ := st_put (set_db (db w1 ++ [doc d1]) w1) in
    st_ret (mkDoc (doc d1) [] true).
End Create.

(** ** The handlers *)

Section Handlers.
Context `{PasswordHasher} `{Digest} `{TokenSigner}.
Context (cfg : Config).

(** The response [res.status(200).setHeader('Content-Type', ct).json(v)]. *)
Definition json_200 (ct : string) (v : Json) : Response :=
  res_json v (res_setHeader "Content-Type" ct (res_status 200 res0)).

(** [getUsers] *)
Definition getUsers (req : Req) : ST World Response :=
  let '(filter, options) := getUsers_args (query req) in
  st_catch
    (let* users := find_all filter options in
     st_ret (json_200 "application/json" (JArr (JDoc <$> users))))
    (fun m => throw ("ERROR RETRIEVING USERS: " ++ m)).

(** [postUser] *)
Definition postUser (req : Req) : ST World Response :=
  st_catch
    (let* user := User_create (body req) in
     sendTokenResponse cfg user 201)
    (fun m => throw ("ERROR POSTING USER: " ++ m)).

(** [deleteUsers] *)
Definition deleteUsers (req : Req) : ST World Response :=
  st_catch
    (let* _ := deleteMany in
     st_ret (json_200 "applicaton/json" (success_msg true "succesfully deleted all users!")))
    (fun m => throw ("ERROR DELETING USERS: " ++ m)).

(** [getUser] *)
Definition getUser (req : Req) : ST World Response :=
  st_catch
    (let* user := findById false (params_userId req) in
     st_ret (json_200 "application/json"
               (match user with Some d => JDoc (doc d) | None => JNull end)))
    (fun m => throw ("ERROR GETTING USER " ++ pretty (params_userId req) ++ ": " ++ m)).

(** [updateUser] *)
Definition updateUser (req : Req) : ST World Response :=
  st_catch
    (let* user := findByIdAndUpdate (params_userId req) (body req) in
     st_ret (json_200 "application/json"
               (match user with Some u => JDoc u | None => JNull end)))
    (fun m => throw ("ERROR UPDATING USER  " ++ pretty (params_userId req) ++ ": " ++ m)).

(** [deleteUser] *)
Definition deleteUser (req : Req) : ST World Response :=
  st_catch
    (let* _ := findByIdAndDelete (params_userId req) in
     st_ret (json_200 "application/json"
               (success_msg true ("User with id " ++ pretty (params_userId req)
                                  ++ " has been deleted!"))))
    (fun m => throw ("ERROR DELETING USER " ++ pretty (params_userId req) ++ ": " ++ m)).
End Handlers.

(** ** Behaviour of the handlers *)

(** The world after a write command consumed its fault entry. *)
Definition drop_fault (w : World) : World :=
  mkWorld (db w) (now w) (rng w) (rng_ctr w) (tl (faults w)).

Lemma write_command_run w :
  write_command w =
    if hd false (faults w) then (Throw "MongoServerError: write failed", drop_fault w)
    else (Ret tt, drop_fault w).
Proof.
  destruct w as [l t r c [|[] fs]]; reflexivity.
Qed.

Lemma st_bind_write_command {A} (k : unit -> ST World A) w :
  st_bind write_command k w =
    if hd false (faults w) then (Throw "MongoServerError: write failed", drop_fault w)
    else k tt (drop_fault w).
Proof. unfold st_bind. rewrite write_command_run. by destruct (hd false (faults w)). Qed.

(** The fresh id is none of the stored ids. *)
Lemma fresh_id_not_in (l : list User) : fresh_id l ∉ _id <$> l.
Proof.
  assert (Hle : forall x, x ∈ _id <$> l -> (x <= foldr N.max 0 (_id <$> l))%N).
  { induction (_id <$> l) as [|y k IH]; simpl; intros x Hx; [by inversion Hx|].
    apply elem_of_cons in Hx as [->|Hx]; [lia|]. specialize (IH x Hx). lia. }
  intros Hin. specialize (Hle _ Hin). unfold fresh_id in Hle. lia.
Qed.

Lemma input_user_password id i : password (input_user id i) = in_password i.
Proof. by destruct i as [? ? [] ? ? ? ? ?]. Qed.

Lemma input_paths_password i p : in_password i = Some p -> P_password ∈ input_paths i.
Proof. destruct i as [? ? pw ? ? ? ? ?]; simpl; intros ->. repeat case_match; set_solver. Qed.

(** Removing the records with an id none has keeps the store. *)
Lemma filter_id_none id (l : list User) :
  find_first (id_is id) l = None -> filter (fun u => negb (id_is id u)) l = l.
Proof.
  intros Hn. pose proof (find_first_None _ _ Hn) as Hall. clear Hn.
  induction l as [|v l IH]; [done|].
  rewrite filter_cons, (Hall v ltac:(left)). simpl.
  f_equal. apply IH. intros x Hx. apply Hall. by right.
Qed.

(** The password of a result document: present exactly when the query
    has a truthy [password] key. *)
Lemma project_password q u :
  password (project (fst (getUsers_args q)) u) =
    if truthy (q_password q) then password u else None.
Proof.
  unfold getUsers_args. destruct (query_has_keys q) eqn:Hk.
  - simpl. repeat case_match; reflexivity.
  - destruct q as [a b c d e f g h i]; unfold query_has_keys in Hk; simpl in *.
    destruct c; [by rewrite !orb_true_r in Hk|]. reflexivity.
Qed.

Lemma project_id ps u : _id (project ps u) = _id u.
Proof. by destruct ps. Qed.

Lemma firstName_le_total : Total firstName_le.
Proof.
  intros [x|] [y|]; simpl; auto. rewrite (String.compare_antisym x y).
  destruct (String.compare y x); simpl; [left|right|left]; discriminate.
Qed.

Lemma sort_order_total dir : Total (sort_order dir).
Proof.
  intros u v. unfold sort_order. destruct (dir =? 1);
    destruct (firstName_le_total (firstName u) (firstName v)); auto.
Qed.

Lemma apply_limit_length n (l : list User) :
  List.length (apply_limit n l) =
    if n =? 0 then List.length l else min (Z.to_nat (Z.abs n)) (List.length l).
Proof. unfold apply_limit. destruct (n =? 0); [done|]. apply length_take. Qed.

Lemma apply_limit_subseteq n (l : list User) u : u ∈ apply_limit n l -> u ∈ l.
Proof. unfold apply_limit. destruct (n =? 0); [done|]. apply subseteq_take. Qed.

(** What [User.find] returns: the projection of records of the store. *)
Lemma find_all_ret ps o w l w' :
  find_all ps o w = (Ret l, w') ->
  w' = w /\ exists l0, l = project ps <$> l0 /\ forall u, u ∈ l0 -> u ∈ db w.
Proof.
  unfold find_all. st_unfold. simpl.
  assert (Hs : forall u, u ∈ (match opt_sort o with
                              | Some dir => merge_sort (sort_order dir) (db w)
                              | None => db w end) -> u ∈ db w).
  { destruct (opt_sort o) as [dir|]; [|done]. intros u. by rewrite merge_sort_Permutation. }
  destruct (opt_limit o) as [s|]; [destruct (parse_limit s) as [n|]|]; simpl; intros [= <- <-];
    split; try done; eexists; split; try done; eauto using apply_limit_subseteq.
Qed.

Section Behaviour.
Context `{PasswordHasher} `{Digest} `{TokenSigner}.
Context (cfg : Config).
Local Arguments sendTokenResponse : simpl never.
Local Arguments replace_by_id : simpl never.
Local Arguments write_command : simpl never.

(** The run of [updateUser]: the write command may fail; otherwise the
    record with the id, if any, takes the body's paths, and the
    response is that record without its password, or [null]. *)
Lemma updateUser_run req w :
  let id := params_userId req in
  updateUser req w =
    if hd false (faults w)
    then (Throw ("ERROR UPDATING USER  " ++ pretty id ++ ": MongoServerError: write failed"),
          drop_fault w)
    else match find_first (id_is id) (db w) with
         | None => (Ret (json_200 "application/json" JNull), drop_fault w)
         | Some u =>
             (Ret (json_200 "application/json" (JDoc (with_password None (set_fields (body req) u)))),
              set_db (replace_by_id (set_fields (body req) u) (db w)) (drop_fault w))
         end.
Proof.
  intros id. unfold updateUser, findByIdAndUpdate, st_catch.
  rewrite st_bind_assoc, st_bind_write_command.
  destruct (hd false (faults w)); [reflexivity|]. st_unfold. simpl.
  by destruct (find_first _ _).
Qed.

(** C18. [updateUser] with a [password] in the body, on an existing
    record and a write that goes through, stores that password as
    given: [findByIdAndUpdate] runs no save hook, so the plaintext
    reaches the store, while the response hides it. *)
Theorem updateUser_stores_plaintext req w u p :
  NoDup (_id <$> db w) -> find_first (id_is (params_userId req)) (db w) = Some u ->
  in_password (body req) = Some p -> hd false (faults w) = false ->
  exists v, find_first (id_is (params_userId req)) (db (final (updateUser req) w)) = Some v /\
    password v = Some p /\ _id v = _id u /\
    outcome (updateUser req) w = Ret (json_200 "application/json" (JDoc (with_password None v))).
Proof.
  intros Hnd Hf Hp Hw. pose proof (find_first_Some _ _ _ Hf) as [Hid _].
  unfold outcome, final. rewrite updateUser_run, Hw, Hf. simpl.
  exists (set_fields (body req) u). split_and!; [|simpl; by rewrite Hp|done|done].
  apply (find_first_replace _ _ u); [done|done|done|exact Hid].
Qed.

(** The run of [getUser]: a read, with no write. *)
Lemma getUser_run req w :
  getUser req w =
    (Ret (json_200 "application/json"
            (match find_first (id_is (params_userId req)) (db w) with
             | Some u => JDoc (with_password None u)
             | None => JNull
             end)), w).
Proof.
  unfold getUser, findById, st_catch. rewrite find_with_run.
  by destruct (find_first _ _).
Qed.

(** C35. [getUser] answers 200 on every id and changes nothing: its
    body is the record with that id without its password, or [null]
    when there is none (an absent record is not an error). *)
Theorem getUser_result req w :
  final (getUser req) w = w /\
  exists r, outcome (getUser req) w = Ret r /\ status r = 200 /\
    (body_json r = Some JNull <-> find_first (id_is (params_userId req)) (db w) = None) /\
    forall u, find_first (id_is (params_userId req)) (db w) = Some u ->
      body_json r = Some (JDoc (with_password None u)).
Proof.
  unfold final, outcome. rewrite getUser_run. split; [done|]. eexists. split_and!; [done|done| |].
  - by destruct (find_first _ _).
  - intros u ->. done.
Qed.

(** The run of [deleteUser]. *)
Lemma deleteUser_run req w :
  let id := params_userId req in
  deleteUser req w =
    if hd false (faults w)
    then (Throw ("ERROR DELETING USER " ++ pretty id ++ ": MongoServerError: write failed"),
          drop_fault w)
    else (Ret (json_200 "application/json"
                 (success_msg true ("User with id " ++ pretty id ++ " has been deleted!"))),
          set_db (filter (fun u => negb (id_is id u)) (db w)) (drop_fault w)).
Proof.
  intros id. unfold deleteUser, findByIdAndDelete, st_catch.
  rewrite st_bind_assoc, st_bind_write_command. by destruct (hd false (faults w)).
Qed.

(** C25. [deleteUser], when its write goes through, removes the
    record with the id and reports success; it reports the same
    success when no record had the id, the store then unchanged.  A
    failing write throws the prefixed store error and deletes
    nothing. *)
Theorem deleteUser_reports_success req w :
  let id := params_userId req in
  (hd false (faults w) = false ->
     outcome (deleteUser req) w =
       Ret (json_200 "application/json"
              (success_msg true ("User with id " ++ pretty id ++ " has been deleted!"))) /\
     db (final (deleteUser req) w) = filter (fun u => negb (id_is id u)) (db w) /\
     (find_first (id_is id) (db w) = None -> db (final (deleteUser req) w) = db w)) /\
  (hd false (faults w) = true ->
     outcome (deleteUser req) w =
       Throw ("ERROR DELETING USER " ++ pretty id ++ ": MongoServerError: write failed") /\
     db (final (deleteUser req) w) = db w).
Proof.
  intros id. unfold outcome, final. rewrite deleteUser_run.
  split; intros ->; [|done]. split_and!; [done|done|]. simpl. apply filter_id_none.
Qed.

(** C24. [deleteUsers] empties the collection when its write goes
    through, and then answers with the misspelled content type
    ["applicaton/json"] (which [res.json] keeps, as a content type is
    already set); a failing write throws the prefixed store error and
    deletes nothing. *)
Theorem deleteUsers_clears req w :
  (forall r, outcome (deleteUsers req) w = Ret r ->
     db (final (deleteUsers req) w) = [] /\ status r = 200 /\
     headers r = [("Content-Type", "applicaton/json")]) /\
  (hd false (faults w) = true ->
     outcome (deleteUsers req) w = Throw "ERROR DELETING USERS: MongoServerError: write failed" /\
     db (final (deleteUsers req) w) = db w).
Proof.
  unfold outcome, final, deleteUsers, deleteMany, st_catch.
  rewrite st_bind_assoc, st_bind_write_command.
  split; [|by intros ->]. intros r. destruct (hd false (faults w)); [done|].
  intros [= <-]. done.
Qed.

(** The record [User.create] inserts for a body with password [p]. *)
Definition created_user (i : UserInput) (id : ObjectId) (p salt : string) : User :=
  with_password (Some (bcrypt_hash p salt)) (input_user id i).

(** The run of [User.create] on a body with a non-empty password: the
    password is hashed with the next random salt, then the insert may
    fail, or the record is appended with a fresh id. *)
Lemma User_create_run i w p :
  in_password i = Some p -> p <> "" ->
  let id := fresh_id (db w) in
  let salt := rng w (rng_ctr w) in
  let w1 := mkWorld (db w) (now w) (rng w) (S (rng_ctr w)) (tl (faults w)) in
  User_create i w =
    if hd false (faults w) then (Throw "MongoServerError: write failed", w1)
    else (Ret (mkDoc (created_user i id p salt) [] true), set_db (db w ++ [created_user i id p salt]) w1).
Proof.
  intros Hp Hne id salt w1. unfold User_create, pre_save, is_modified. st_unfold. simpl.
  rewrite (bool_decide_true _ (input_paths_password _ _ Hp)), Hp, (truthy_nonempty _ Hne).
  simpl. rewrite write_command_run. simpl.
  by destruct (hd false (faults w)).
Qed.

(** The run of [postUser] on a body with a non-empty password: the
    create, then the session response, any error prefixed. *)
Lemma postUser_run req w p :
  in_password (body req) = Some p -> p <> "" ->
  let u := created_user (body req) (fresh_id (db w)) p (rng w (rng_ctr w)) in
  let w1 := mkWorld (db w) (now w) (rng w) (S (rng_ctr w)) (tl (faults w)) in
  postUser cfg req w =
    if hd false (faults w)
    then (Throw "ERROR POSTING USER: MongoServerError: write failed", w1)
    else match sendTokenResponse cfg (mkDoc u [] true) 201 (set_db (db w ++ [u])%list w1) with
         | (Ret r, w') => (Ret r, w')
         | (Throw e, w') => (Throw ("ERROR POSTING USER: " ++ e), w')
         end.
Proof.
  intros Hp Hne u w1. unfold postUser, st_catch, st_bind at 1.
  rewrite (User_create_run _ _ _ Hp Hne). by destruct (hd false (faults w)).
Qed.

(** C21. [postUser] with a non-empty password, a write that goes
    through and a cookie lifetime configured: it appends one record
    with a fresh id holding the body's paths and the bcrypt hash of the
    password, and answers 201 with a session token for the new id. *)
Theorem postUser_creates req w p n :
  in_password (body req) = Some p -> p <> "" -> hd false (faults w) = false ->
  JWT_COOKIE_EXPIRE cfg = Some n ->
  let id := fresh_id (db w) in
  (id ∉ _id <$> db w) /\
  exists r, outcome (postUser cfg req) w = Ret r /\ status r = 201 /\
    body_json r = Some (JObj [("success", JBool true); ("token", JToken (ts_issue id (now w)))]) /\
    db (final (postUser cfg req) w) =
      (db w ++ [created_user (body req) id p (rng w (rng_ctr w))])%list.
Proof.
  intros Hp Hne Hw Hn id. split; [apply fresh_id_not_in|].
  unfold outcome, final. rewrite (postUser_run _ _ _ Hp Hne), Hw.
  rewrite (sendTokenResponse_run _ _ _ _ _ Hn). simpl. eexists. split_and!; reflexivity.
Qed.

(** C36. [postUser] without a password (absent or empty) fails
    validation before anything is written. *)
Theorem postUser_requires_password req w :
  truthy (in_password (body req)) = false ->
  postUser cfg req w =
    (Throw "ERROR POSTING USER: User validation failed: password: Path `password` is required.", w).
Proof.
  intros Ht. unfold postUser, st_catch, User_create, st_bind, st_get. cbn [doc].
  by rewrite input_user_password, Ht.
Qed.

(** C22. When the cookie lifetime is not configured, [postUser] stores
    the new record and then throws, so the client sees a failed
    registration of an account that exists. *)
Theorem postUser_cookie_failure req w p :
  in_password (body req) = Some p -> p <> "" -> hd false (faults w) = false ->
  JWT_COOKIE_EXPIRE cfg = None ->
  outcome (postUser cfg req) w = Throw "ERROR POSTING USER: option expires is invalid" /\
  db (final (postUser cfg req) w) =
    (db w ++ [created_user (body req) (fresh_id (db w)) p (rng w (rng_ctr w))])%list.
Proof.
  intros Hp Hne Hw Hn. unfold outcome, final. rewrite (postUser_run _ _ _ Hp Hne), Hw.
  by rewrite (sendTokenResponse_no_expiry _ _ _ _ Hn).
Qed.

(** The run of [getUsers]: the find with the arguments built from the
    query, its error prefixed. *)
Lemma getUsers_run req w :
  getUsers req w =
    match find_all (fst (getUsers_args (query req))) (snd (getUsers_args (query req))) w with
    | (Ret l, w') => (Ret (json_200 "application/json" (JArr (JDoc <$> l))), w')
    | (Throw m, w') => (Throw ("ERROR RETRIEVING USERS: " ++ m), w')
    end.
Proof.
  unfold getUsers. destruct (getUsers_args (query req)) as [ps o]. simpl.
  unfold st_catch, st_bind. by destruct (find_all ps o w) as [[]].
Qed.

(** With no truthy [limit], the options of [getUsers] set no limit. *)
Lemma getUsers_args_no_limit q :
  truthy (q_limit q) = false -> opt_limit (snd (getUsers_args q)) = None.
Proof. intros Hl. unfold getUsers_args. destruct (query_has_keys q); simpl; [by rewrite Hl|done]. Qed.

(** C19. Without a [limit], [getUsers] answers 200 with every stored
    record, in some order (the store's, or sorted by [firstName]), each
    projected as the query selects: its password omitted, except when
    the query has a truthy [password] key, in which case every stored
    bcrypt hash is returned to the caller. *)
Theorem getUsers_password_exposure req w :
  truthy (q_limit (query req)) = false ->
  let ps := fst (getUsers_args (query req)) in
  exists l, l ≡ₚ db w /\
    getUsers req w = (Ret (json_200 "application/json" (JArr (JDoc <$> (project ps <$> l)))), w) /\
    Forall (fun u => _id (project ps u) = _id u /\
       password (project ps u) = if truthy (q_password (query req)) then password u else None) l.
Proof.
  intros Hl ps. rewrite getUsers_run. unfold find_all. st_unfold. simpl.
  rewrite (getUsers_args_no_limit _ Hl).
  assert (Hp : forall l, Forall (fun u => _id (project ps u) = _id u /\
       password (project ps u) = if truthy (q_password (query req)) then password u else None) l)
    by (intros l; apply Forall_forall; intros u _; split; [apply project_id|apply project_password]).
  destruct (opt_sort (snd (getUsers_args (query req)))) as [dir|].
  - exists (merge_sort (sort_order dir) (db w)). split_and!; [apply merge_sort_Permutation|done|done].
  - exists (db w). by split_and!.
Qed.

(** C23. [getUsers] with a truthy [sortByFirstName] and a numeric
    [limit]: it answers the projection of the first [|n|] records
    ([n = 0]: all of them) of an ordering of the store sorted by
    [firstName], ascending for ["asc"] and descending otherwise. *)
Theorem getUsers_sorted_limited req w s ls n :
  q_sortByFirstName (query req) = Some s -> s <> "" ->
  q_limit (query req) = Some ls -> ls <> "" -> parse_limit ls = Some n ->
  let dir := if bool_decide (s = "asc") then 1 else -1 in
  exists l, l ≡ₚ db w /\ Sorted (sort_order dir) l /\
    getUsers req w =
      (Ret (json_200 "application/json"
              (JArr (JDoc <$> (project (fst (getUsers_args (query req))) <$> apply_limit n l)))), w) /\
    List.length (apply_limit n l) =
      if n =? 0 then List.length (db w) else min (Z.to_nat (Z.abs n)) (List.length (db w)).
Proof.
  intros Hs Hse Hl Hle Hn dir. exists (merge_sort (sort_order dir) (db w)).
  split_and!.
  - apply merge_sort_Permutation.
  - apply Sorted_merge_sort, sort_order_total.
  - rewrite getUsers_run. unfold getUsers_args.
    assert (Hk : query_has_keys (query req) = true)
      by (unfold query_has_keys; rewrite Hl; simpl; by rewrite !orb_true_r).
    rewrite Hk. simpl. rewrite Hs, Hl, (truthy_nonempty _ Hse), (truthy_nonempty _ Hle).
    unfold find_all. st_unfold. simpl. rewrite Hn.
    assert (Hd : (if bool_decide (Some s = Some "asc") then 1 else -1) = dir).
    { unfold dir. by destruct (decide (s = "asc")) as [->|Hne];
        [rewrite !bool_decide_true | rewrite !bool_decide_false by congruence]. }
    by rewrite Hd.
  - rewrite apply_limit_length. by rewrite (Permutation_length (merge_sort_Permutation _ (db w))).
Qed.

(** A [limit] that is not a number makes [getUsers] throw the
    prefixed cast error; nothing changes. *)
Theorem getUsers_bad_limit req w ls :
  q_limit (query req) = Some ls -> ls <> "" -> parse_limit ls = None ->
  getUsers req w =
    (Throw ("ERROR RETRIEVING USERS: Cast to Number failed for value " ++ ls ++ " at path limit"), w).
Proof.
  intros Hl Hle Hn. rewrite getUsers_run. unfold getUsers_args.
  assert (Hk : query_has_keys (query req) = true)
    by (unfold query_has_keys; rewrite Hl; simpl; by rewrite !orb_true_r).
  rewrite Hk. simpl. rewrite Hl, (truthy_nonempty _ Hle).
  unfold find_all. st_unfold. simpl. by rewrite Hn.
Qed.
(** ** The stores each handler may leave *)

Lemma find_all_final ps o w : final (find_all ps o) w = w.
Proof.
  unfold final, find_all. st_unfold. simpl.
  by destruct (opt_limit o) as [ls|]; [destruct (parse_limit ls)|].
Qed.

Lemma getUsers_final req w : final (getUsers req) w = w.
Proof.
  unfold final. rewrite getUsers_run.
  pose proof (find_all_final (fst (getUsers_args (query req))) (snd (getUsers_args (query req))) w)
    as Hf. unfold final in Hf.
  destruct (find_all _ _ w) as [[] w']; simpl in *; done.
Qed.

Lemma postUser_db req w :
  db (final (postUser cfg req) w) = db w \/
  exists u, _id u = fresh_id (db w) /\ db (final (postUser cfg req) w) = (db w ++ [u])%list.
Proof.
  destruct (truthy (in_password (body req))) eqn:Ht;
    [|left; unfold final, postUser, st_catch, User_create, st_bind, st_get; cbn [doc];
      by rewrite input_user_password, Ht].
  destruct (truthy_Some _ Ht) as (p & Hp & Hne). unfold final.
  rewrite (postUser_run _ _ _ Hp Hne). destruct (hd false (faults w)); [by left|].
  right. exists (created_user (body req) (fresh_id (db w)) p (rng w (rng_ctr w))). split; [reflexivity|].
  match goal with |- context [sendTokenResponse cfg ?d ?sc ?w1] =>
    pose proof (sendTokenResponse_final_db cfg d sc w1) as Hs;
    destruct (sendTokenResponse cfg d sc w1) as [[] w'] end; simpl in *; by subst.
Qed.

Lemma deleteUsers_db req w :
  db (final (deleteUsers req) w) = db w \/ db (final (deleteUsers req) w) = [].
Proof.
  unfold final, deleteUsers, deleteMany, st_catch.
  rewrite st_bind_assoc, st_bind_write_command. destruct (hd false (faults w)); [by left|by right].
Qed.

Lemma updateUser_db req w :
  db (final (updateUser req) w) = db w \/
  exists u, db (final (updateUser req) w) = replace_by_id u (db w).
Proof.
  unfold final. rewrite updateUser_run. destruct (hd false (faults w)); [by left|].
  destruct (find_first _ _); [right; by eexists|by left].
Qed.

Lemma deleteUser_db req w :
  db (final (deleteUser req) w) = db w \/
  db (final (deleteUser req) w) = filter (fun u => negb (id_is (params_userId req) u)) (db w).
Proof.
  unfold final. rewrite deleteUser_run. destruct (hd false (faults w)); [by left|by right].
Qed.
End Behaviour.

(** ** The responses of the record handlers *)

Section Responses.
Context `{PasswordHasher} `{Digest} `{TokenSigner}.
Context (cfg : Config).

Lemma getUsers_wf req : ret_spec resp_wf (getUsers req).
Proof. unfold getUsers, json_200. resp_wf_solve. Qed.

Lemma postUser_wf req : ret_spec resp_wf (postUser cfg req).
Proof. unfold postUser. resp_wf_solve. Qed.

Lemma deleteUsers_wf req : ret_spec resp_wf (deleteUsers req).
Proof. unfold deleteUsers, json_200. resp_wf_solve. Qed.

Lemma getUser_wf req : ret_spec resp_wf (getUser req).
Proof. unfold getUser, json_200. resp_wf_solve. Qed.

Lemma updateUser_wf req : ret_spec resp_wf (updateUser req).
Proof. unfold updateUser, json_200. resp_wf_solve. Qed.

Lemma deleteUser_wf req : ret_spec resp_wf (deleteUser req).
Proof. unfold deleteUser, json_200. resp_wf_solve. Qed.
End Responses.

(** ** Witnesses: the theorems at the fixtures *)

Section Witnesses.
Import ToyCrypto.
#[local] Existing Instance signer0.

Definition rq_params (uid : ObjectId) (b : UserInput) : Req := mkReq b empty_query uid None.
Definition rq_query (q : Query) : Req := mkReq empty_input q 0%N None.
Definition input_pw (p : string) : UserInput := mkInput None (Some "c@x.io") (Some p) None None None None None.
Definition q_pw : Query := mkQuery None None (Some "1") None None None None None None.
Definition q_sorted (lim : string) : Query :=
  mkQuery None None None None None None (Some lim) (Some "asc") None.
Definition cfg_nocookie : Config := mkConfig "secret" 7200 None "development".

Lemma updateUser_stores_plaintext_witness :
  exists v, find_first (id_is 1%N) (db (final (updateUser (rq_params 1%N (input_pw "plain"))) w0)) = Some v /\
    password v = Some "plain" /\ _id v = 1%N /\
    outcome (updateUser (rq_params 1%N (input_pw "plain"))) w0 =
      Ret (json_200 "application/json" (JDoc (with_password None v))).
Proof.
  exact (updateUser_stores_plaintext (rq_params 1%N (input_pw "plain")) w0 alice "plain"
           ltac:(by_decide) eq_refl eq_refl eq_refl).
Defined.

Lemma postUser_creates_witness :
  (fresh_id (db w0) ∉ _id <$> db w0) /\
  exists r, outcome (postUser cfg0 (rq_body (input_pw "pw3"))) w0 = Ret r /\ status r = 201 /\
    body_json r = Some (JObj [("success", JBool true);
                              ("token", JToken (ts_issue (fresh_id (db w0)) (now w0)))]) /\
    db (final (postUser cfg0 (rq_body (input_pw "pw3"))) w0) =
      (db w0 ++ [created_user (input_pw "pw3") (fresh_id (db w0)) "pw3" (rng w0 (rng_ctr w0))])%list.
Proof.
  exact (postUser_creates cfg0 (rq_body (input_pw "pw3")) w0 "pw3" 2
           eq_refl ltac:(discriminate) eq_refl eq_refl).
Defined.

Lemma postUser_requires_password_witness :
  postUser cfg0 (rq_body (input_pw "")) w0 =
    (Throw "ERROR POSTING USER: User validation failed: password: Path `password` is required.", w0).
Proof. apply postUser_requires_password. reflexivity. Defined.

Lemma postUser_cookie_failure_witness :
  outcome (postUser cfg_nocookie (rq_body (input_pw "pw3"))) w0 =
    Throw "ERROR POSTING USER: option expires is invalid" /\
  db (final (postUser cfg_nocookie (rq_body (input_pw "pw3"))) w0) =
    (db w0 ++ [created_user (input_pw "pw3") (fresh_id (db w0)) "pw3" (rng w0 (rng_ctr w0))])%list.
Proof.
  exact (postUser_cookie_failure cfg_nocookie (rq_body (input_pw "pw3")) w0 "pw3"
           eq_refl ltac:(discriminate) eq_refl eq_refl).
Defined.

(** [?password=1] returns every stored hash. *)
Definition exposed_response : Response :=
  json_200 "application/json" (JArr (JDoc <$> (project [P_password] <$> [alice; bob]))).

Lemma getUsers_password_exposure_witness :
  getUsers (rq_query q_pw) w0 = (Ret exposed_response, w0) /\
  let ps := fst (getUsers_args q_pw) in
  exists l, l ≡ₚ db w0 /\
    getUsers (rq_query q_pw) w0 =
      (Ret (json_200 "application/json" (JArr (JDoc <$> (project ps <$> l)))), w0) /\
    Forall (fun u => _id (project ps u) = _id u /\
       password (project ps u) = if truthy (q_password q_pw) then password u else None) l.
Proof.
  split; [vm_compute; reflexivity|].
  exact (getUsers_password_exposure (rq_query q_pw) w0 eq_refl).
Defined.

Lemma getUsers_sorted_limited_witness :
  let dir := if bool_decide ("asc" = "asc") then 1 else -1 in
  exists l, l ≡ₚ db w0 /\ Sorted (sort_order dir) l /\
    getUsers (rq_query (q_sorted "1")) w0 =
      (Ret (json_200 "application/json"
              (JArr (JDoc <$> (project (fst (getUsers_args (q_sorted "1"))) <$> apply_limit 1 l)))), w0) /\
    List.length (apply_limit 1 l) =
      if 1 =? 0 then List.length (db w0) else min (Z.to_nat (Z.abs 1)) (List.length (db w0)).
Proof.
  exact (getUsers_sorted_limited (rq_query (q_sorted "1")) w0 "asc" "1" 1
           eq_refl ltac:(discriminate) eq_refl ltac:(discriminate) eq_refl).
Defined.

Lemma getUsers_bad_limit_witness :
  getUsers (rq_query (q_sorted "ten")) w0 =
    (Throw "ERROR RETRIEVING USERS: Cast to Number failed for value ten at path limit", w0).
Proof. apply (getUsers_bad_limit _ _ "ten"); [reflexivity|discriminate|reflexivity]. Defined.
End Witnesses.
