(* ===== verification/AuthProps.v ===== *)
(** * AuthProps: the credential lifecycle across handlers

    The properties that involve more than one request: a reset token is
    issued by [forgotPassword] (and returned in its response), consumed
    by [resetPassword], is single use, is invalidated by a newer one, and
    is cleared again when its write fails; the end-to-end reset scenario
    of the spec; and where the code departs from the spec's
    invariants. *)

From stdpp Require Import base list strings sets.
From Stdlib Require Import ZArith String Lia.
From S2P Require Import Prelude Crypto Jwt UserModel Http Fixtures Auth.
Open Scope string_scope.
Open Scope Z_scope.
Local Open Scope st_scope.

(** The record after [getResetPasswordToken] was saved, and after the
    compensating clear of [forgotPassword]'s [catch]. *)
Definition issue_reset `{Digest} (u : User) (tok : string) (t : Z) : User :=
  with_resetPasswordExpire (Some (t + 10 * 60 * 1000))
    (with_resetPasswordToken (Some (sha256_hex tok)) u).

Definition clear_reset (u : User) : User :=
  with_resetPasswordExpire None (with_resetPasswordToken None u).

(** At most one stored record holds a given reset-token digest. *)
Definition unique_reset_hash (h : string) (l : list User) : Prop :=
  forall u v, u ∈ l -> v ∈ l ->
    resetPasswordToken u = Some h -> resetPasswordToken v = Some h -> u = v.

(** The spec's invariant of a record (section 3): the reset-token
    digest and its expiry are both present or both absent. *)
Definition reset_pair_ok (u : User) : bool :=
  match resetPasswordToken u, resetPasswordExpire u with
  | Some _, Some _ | None, None => true
  | _, _ => false
  end.

(** Uniqueness of a digest from a count, which evaluates. *)
Lemma unique_reset_hash_count h (l : list User) :
  (List.length (filter (fun u => resetPasswordToken u = Some h) l) <= 1)%nat ->
  unique_reset_hash h l.
Proof.
  intros Hlen u v Hu Hv Htu Htv.
  assert (Hu' : u ∈ filter (fun u => resetPasswordToken u = Some h) l)
    by (apply list_elem_of_filter; auto).
  assert (Hv' : v ∈ filter (fun u => resetPasswordToken u = Some h) l)
    by (apply list_elem_of_filter; auto).
  destruct (filter _ l) as [|x [|y k]]; simpl in Hlen; [by inversion Hu'| |lia].
  apply list_elem_of_singleton in Hu', Hv'. congruence.
Qed.

Lemma reset_matches_cleared h t u :
  resetPasswordExpire u = None -> reset_matches h t u = false.
Proof. unfold reset_matches. intros ->. apply andb_false_r. Qed.

Lemma reset_matches_token h t u :
  reset_matches h t u = true -> resetPasswordToken u = Some h.
Proof. unfold reset_matches. intros [Hh _]%andb_prop. by apply bool_decide_eq_true in Hh. Qed.

Section Lifecycle.
Context `{PasswordHasher} `{Digest} `{TokenSigner}.
Context (cfg : Config).
Local Arguments sendTokenResponse : simpl never.
Local Arguments replace_by_id : simpl never.
Local Arguments save : simpl never.

(** The document [forgotPassword] saves. *)
Definition forgot_doc (u : User) (tok : string) (t : Z) : Doc :=
  assign_resetPasswordExpire (Some (t + 10 * 60 * 1000))
    (assign_resetPasswordToken (Some (sha256_hex tok)) (hydrate false u)).

Lemma forgot_doc_password u tok t : is_modified P_password (forgot_doc u tok t) = false.
Proof.
  unfold forgot_doc, is_modified, assign_resetPasswordExpire, assign_resetPasswordToken, mark.
  simpl. by case_changed.
Qed.

Lemma forgot_doc_merge u tok t :
  merge (fun q => is_modified q (forgot_doc u tok t)) (doc (forgot_doc u tok t)) u =
  issue_reset u tok t.
Proof.
  destruct u. unfold forgot_doc, issue_reset, is_modified, assign_resetPasswordExpire,
    assign_resetPasswordToken, mark. simpl.
  case_changed; simpl; by subst.
Qed.

(** The run of [forgotPassword] up to its [try], on a found record. *)
Lemma forgotPassword_found req w u :
  find_first (email_is (in_email (body req))) (db w) = Some u ->
  let tok := rng w (rng_ctr w) in
  forgotPassword req w =
  st_catch (st_bind (save false (forgot_doc u tok (now w)))
              (fun _ => st_ret (reset_issued_response tok)))
    (fun _ => st_bind (save false (assign_resetPasswordExpire None
                 (assign_resetPasswordToken None (forgot_doc u tok (now w))))) (fun _ => throw
                 "FAILED TO SAVE PASSWORD TOKEN"))
    (mkWorld (db w) (now w) (rng w) (S (rng_ctr w)) (faults w)).
Proof.
  intros Hf tok. unfold forgotPassword, findOne_email. rewrite find_with_run, Hf.
  reflexivity.
Qed.

(** The run of [forgotPassword] on a registered email with no failing
    write. *)
Lemma forgotPassword_run req w u :
  find_first (email_is (in_email (body req))) (db w) = Some u ->
  NoDup (_id <$> db w) -> faults w = [] ->
  let tok := rng w (rng_ctr w) in
  forgotPassword req w =
    (Ret (reset_issued_response tok),
     mkWorld (replace_by_id (issue_reset u tok (now w)) (db w))
             (now w) (rng w) (S (rng_ctr w)) []).
Proof.
  intros Hf Hnd Hfl tok. rewrite (forgotPassword_found _ _ _ Hf).
  pose proof (find_first_Some _ _ _ Hf) as [_ Hin].
  unfold st_catch, st_bind.
  rewrite (save_no_password _ _ _ u); simpl; rewrite ?Hfl; try done.
  - by rewrite forgot_doc_merge.
  - apply forgot_doc_password.
  - exact (find_first_id_unique _ _ Hnd Hin).
Qed.

(** What a successful reset did: it found the first record holding an
    unexpired digest of the token, and stored the new password's hash
    with the expiry cleared. *)
Lemma resetPassword_ret req w rt r :
  q_resetToken (query req) = Some rt -> NoDup (_id <$> db w) ->
  outcome (resetPassword cfg req) w = Ret r ->
  exists u p, find_first (reset_matches (sha256_hex rt) (now w)) (db w) = Some u /\
    db (final (resetPassword cfg req) w) = replace_by_id (reset_record u p (rng w (rng_ctr w))) (db w).
Proof.
  intros Hq Hnd Hr.
  destruct (find_first (reset_matches (sha256_hex rt) (now w)) (db w)) as [u|] eqn:Hf;
    [|unfold outcome in Hr; by rewrite (resetPassword_unmatched _ _ _ _ Hq Hf) in Hr].
  destruct (truthy (in_password (body req))) eqn:Ht;
    [|unfold outcome in Hr; by rewrite (resetPassword_no_password _ _ _ _ _ Hq Ht Hf) in Hr].
  destruct (truthy_Some _ Ht) as (p & Hp & Hne).
  exists u, p. split; [done|]. unfold outcome, final in *.
  rewrite (resetPassword_found_run _ _ _ _ _ _ Hq Hp Hne Hf Hnd) in *.
  destruct (hd false (faults w)); [done|]. by rewrite sendTokenResponse_final_db.
Qed.

(** C3. A reset token is single use: after a reset with it succeeded,
    the same token is rejected with ["Invalid Token"] at any later
    time, provided no other record held its digest. *)
Theorem reset_single_use req req' w rt r dt :
  q_resetToken (query req) = Some rt -> q_resetToken (query req') = Some rt ->
  NoDup (_id <$> db w) -> unique_reset_hash (sha256_hex rt) (db w) ->
  outcome (resetPassword cfg req) w = Ret r ->
  let w' := tick dt (final (resetPassword cfg req) w) in
  resetPassword cfg req' w' = (Throw "Invalid Token", w').
Proof.
  intros Hq Hq' Hnd Hu Hr w'.
  destruct (resetPassword_ret _ _ _ _ Hq Hnd Hr) as (u & p & Hf & Hdb).
  apply (resetPassword_unmatched _ _ _ _ Hq'). apply find_first_None_intro.
  unfold w'. simpl. rewrite Hdb. intros v [->|[Hv Hne]]%elem_of_replace_by_id.
  - by apply reset_matches_cleared.
  - pose proof (find_first_Some _ _ _ Hf) as [Hm Hin].
    destruct (reset_matches _ _ v) eqn:Hv'; [|done]. exfalso. apply Hne.
    rewrite (Hu v u Hv Hin (reset_matches_token _ _ _ Hv') (reset_matches_token _ _ _ Hm)).
    reflexivity.
Qed.

Lemma forgotPassword_issues_final req w u :
  find_first (email_is (in_email (body req))) (db w) = Some u ->
  NoDup (_id <$> db w) -> faults w = [] ->
  final (forgotPassword req) w =
    mkWorld (replace_by_id (issue_reset u (rng w (rng_ctr w)) (now w)) (db w))
            (now w) (rng w) (S (rng_ctr w)) [].
Proof. intros Hf Hnd Hfl. unfold final. by rewrite (forgotPassword_run _ _ _ Hf Hnd Hfl). Qed.

(** C8. [forgotPassword] for a registered email, with no failing
    write: it answers 200 with the plaintext token in the body; the
    user's record now holds the sha256 digest of that fresh random
    token with an expiry ten minutes ahead, and keeps its password and
    email; every other record is kept and none is added. *)
Theorem forgotPassword_issues req w u :
  find_first (email_is (in_email (body req))) (db w) = Some u ->
  NoDup (_id <$> db w) -> faults w = [] ->
  let tok := rng w (rng_ctr w) in
  let w' := final (forgotPassword req) w in
  outcome (forgotPassword req) w = Ret (reset_issued_response tok) /\
  (exists u', find_first (id_is (_id u)) (db w') = Some u' /\
    resetPasswordToken u' = Some (sha256_hex tok) /\
    resetPasswordExpire u' = Some (now w + 10 * 60 * 1000) /\
    password u' = password u /\ email u' = email u) /\
  (forall v, v ∈ db w -> _id v <> _id u -> v ∈ db w') /\
  List.length (db w') = List.length (db w).
Proof.
  intros Hf Hnd Hfl tok w'. pose proof (find_first_Some _ _ _ Hf) as [_ Hin].
  assert (Hw' : db w' = replace_by_id (issue_reset u tok (now w)) (db w))
    by (unfold w'; by rewrite (forgotPassword_issues_final _ _ _ Hf Hnd Hfl)).
  rewrite Hw'. split_and!.
  - unfold outcome. by rewrite (forgotPassword_run _ _ _ Hf Hnd Hfl).
  - exists (issue_reset u tok (now w)). split; [|by destruct u].
    apply (find_first_replace _ _ u); [done|by apply find_first_id_unique|by destruct u|].
    unfold id_is. by rewrite bool_decide_true by (by destruct u).
  - intros v Hv Hne. by apply replace_by_id_keeps.
  - unfold replace_by_id. apply length_map.
Qed.

(** Only the replaced record can match a digest no other record held. *)
Lemma replaced_only_match h t (l : list User) u u' :
  Forall (fun v => resetPasswordToken v <> Some h) (filter (fun v => _id v <> _id u) l) ->
  _id u' = _id u ->
  forall v, v ∈ replace_by_id u' l -> reset_matches h t v = true -> v = u'.
Proof.
  intros Hold Hid v [->|[Hv Hne]]%elem_of_replace_by_id Hm; [done|]. exfalso.
  rewrite Forall_forall in Hold. apply (Hold v); [|by apply reset_matches_token in Hm].
  apply list_elem_of_filter. split; [congruence|done].
Qed.

Lemma reset_matches_replaced h t (l : list User) u u' :
  Forall (fun v => resetPasswordToken v <> Some h) (filter (fun v => _id v <> _id u) l) ->
  reset_matches h t u' = false -> _id u' = _id u ->
  forall v, v ∈ replace_by_id u' l -> reset_matches h t v = false.
Proof.
  intros Hold Hu' Hid v Hv. destruct (reset_matches h t v) eqn:Hm; [|done].
  rewrite (replaced_only_match h t l u u' Hold Hid v Hv Hm) in Hm. congruence.
Qed.

(** C4. A new reset request invalidates the previous token: after
    two [forgotPassword] requests for the same email, the first token
    is rejected with ["Invalid Token"], given distinct random draws, a
    collision-free digest, and no other record holding its digest. *)
Theorem reset_token_overwrite `{!DigestInjective} req1 req2 req3 w u :
  find_first (email_is (in_email (body req1))) (db w) = Some u ->
  in_email (body req2) = in_email (body req1) ->
  NoDup (_id <$> db w) -> faults w = [] ->
  rng w (rng_ctr w) <> rng w (S (rng_ctr w)) ->
  Forall (fun v => resetPasswordToken v <> Some (sha256_hex (rng w (rng_ctr w))))
         (filter (fun v => _id v <> _id u) (db w)) ->
  q_resetToken (query req3) = Some (rng w (rng_ctr w)) ->
  let w2 := final (forgotPassword req2) (final (forgotPassword req1) w) in
  resetPassword cfg req3 w2 = (Throw "Invalid Token", w2).
Proof.
  intros Hf He Hnd Hfl Hne Hold Hq w2.
  set (tok1 := rng w (rng_ctr w)) in *. set (u1 := issue_reset u tok1 (now w)).
  pose proof (find_first_Some _ _ _ Hf) as [Hpu Hin].
  assert (Hf1 : find_first (email_is (in_email (body req2))) (replace_by_id u1 (db w)) = Some u1)
    by (rewrite He; by apply (find_first_replace _ _ u)).
  assert (Hnd1 : NoDup (_id <$> replace_by_id u1 (db w))) by by rewrite replace_by_id_ids.
  unfold w2. rewrite (forgotPassword_issues_final _ _ _ Hf Hnd Hfl). fold tok1 u1.
  rewrite (forgotPassword_issues_final req2
    (mkWorld (replace_by_id u1 (db w)) (now w) (rng w) (S (rng_ctr w)) []) u1 Hf1 Hnd1 eq_refl).
  apply (resetPassword_unmatched _ _ _ _ Hq). apply find_first_None_intro. simpl.
  apply (reset_matches_replaced _ _ _ u); [| | done].
  - rewrite Forall_forall in *. intros v [Hid Hv]%list_elem_of_filter.
    apply elem_of_replace_by_id in Hv as [->|[Hv _]]; [done|].
    apply Hold. by apply list_elem_of_filter.
  - destruct (reset_matches _ _ _) eqn:Hm; [|done].
    apply reset_matches_token in Hm. injection Hm as Hm.
    by apply sha256_hex_inj in Hm.
Qed.

(** After a successful [forgotPassword], the issued record is the only
    one matching its token's digest until the expiry. *)
Lemma issued_token_matches req w u t :
  find_first (email_is (in_email (body req))) (db w) = Some u ->
  Forall (fun v => resetPasswordToken v <> Some (sha256_hex (rng w (rng_ctr w))))
         (filter (fun v => _id v <> _id u) (db w)) ->
  find_first (reset_matches (sha256_hex (rng w (rng_ctr w))) t)
    (replace_by_id (issue_reset u (rng w (rng_ctr w)) (now w)) (db w)) =
  if t <? now w + 10 * 60 * 1000 then Some (issue_reset u (rng w (rng_ctr w)) (now w))
  else None.
Proof.
  intros Hf Hold. pose proof (find_first_Some _ _ _ Hf) as [_ Hin].
  assert (Hm : reset_matches (sha256_hex (rng w (rng_ctr w))) t
                 (issue_reset u (rng w (rng_ctr w)) (now w)) = (t <? now w + 10 * 60 * 1000)).
  { unfold reset_matches. simpl. by rewrite bool_decide_true. }
  destruct (t <? _) eqn:Ht.
  - apply find_first_unique; [by apply (replace_by_id_elem _ u)|done|].
    by apply (replaced_only_match _ _ _ u).
  - apply find_first_None_intro. by apply (reset_matches_replaced _ _ _ u).
Qed.

(** The reset flow on the store: after [forgotPassword] for a
    registered email and, within ten minutes, a reset with the issued
    token and a non-empty password, the reset succeeded and the
    record found by that email holds the bcrypt hash of the new
    password. *)
Lemma reset_flow_store req_f req_r w u p dt n :
  find_first (email_is (in_email (body req_f))) (db w) = Some u ->
  NoDup (_id <$> db w) -> faults w = [] ->
  Forall (fun v => resetPasswordToken v <> Some (sha256_hex (rng w (rng_ctr w))))
         (filter (fun v => _id v <> _id u) (db w)) ->
  0 <= dt < 10 * 60 * 1000 ->
  q_resetToken (query req_r) = Some (rng w (rng_ctr w)) -> in_password (body req_r) = Some p ->
  p <> "" -> JWT_COOKIE_EXPIRE cfg = Some n ->
  let w1 := tick dt (final (forgotPassword req_f) w) in
  let w2 := final (resetPassword cfg req_r) w1 in
  let u2 := reset_record (issue_reset u (rng w (rng_ctr w)) (now w)) p (rng w (S (rng_ctr w))) in
  is_ret (outcome (resetPassword cfg req_r) w1) = true /\
  find_first (email_is (in_email (body req_f))) (db w2) = Some u2 /\
  password u2 = Some (bcrypt_hash p (rng w (S (rng_ctr w)))).
Proof.
  intros Hf Hnd Hfl Hold Hdt Hq Hp Hpe Hn w1 w2 u2.
  pose proof (find_first_Some _ _ _ Hf) as [Hpu Hin].
  set (tok := rng w (rng_ctr w)) in *. set (u1 := issue_reset u tok (now w)).
  assert (Hw1 : w1 = mkWorld (replace_by_id u1 (db w)) (now w + dt) (rng w) (S (rng_ctr w)) [])
    by (unfold w1; by rewrite (forgotPassword_issues_final _ _ _ Hf Hnd Hfl)).
  assert (Hnd1 : NoDup (_id <$> db w1)) by (rewrite Hw1; simpl; by rewrite replace_by_id_ids).
  assert (Hr : find_first (reset_matches (sha256_hex tok) (now w1)) (db w1) = Some u1).
  { rewrite Hw1. simpl. rewrite (issued_token_matches _ _ _ _ Hf Hold).
    by rewrite (proj2 (Z.ltb_lt _ _)) by lia. }
  pose proof (resetPassword_found_run cfg _ _ _ _ _ Hq Hp Hpe Hr Hnd1) as Hrun.
  assert (Hfw1 : faults w1 = []) by (by rewrite Hw1).
  rewrite Hfw1 in Hrun. cbn [hd] in Hrun. rewrite (sendTokenResponse_run _ _ _ _ _ Hn) in Hrun.
  split_and!; [unfold outcome; by rewrite Hrun| |reflexivity].
  unfold w2, final. rewrite Hrun, Hw1. simpl.
  apply (find_first_replace _ _ u1); [by rewrite replace_by_id_ids|
    by apply (find_first_replace _ _ u)|done|done].
Qed.

(** C2. Scenario C, end to end: a [forgotPassword] for a registered
    email returns the plaintext token in its response; a reset with
    that token and a new password, within ten minutes, succeeds; then a
    login with the new password succeeds and a login with any other
    password is rejected.  Nothing but the email is needed to obtain
    the token. *)
Theorem reset_flow_end_to_end `{!HasherBinding} req_f req_r req_ok req_bad w e u p q dt n :
  in_email (body req_f) = Some e -> find_first (email_is (Some e)) (db w) = Some u ->
  NoDup (_id <$> db w) -> faults w = [] ->
  Forall (fun v => resetPasswordToken v <> Some (sha256_hex (rng w (rng_ctr w))))
         (filter (fun v => _id v <> _id u) (db w)) ->
  0 <= dt < 10 * 60 * 1000 ->
  q_resetToken (query req_r) = Some (rng w (rng_ctr w)) -> in_password (body req_r) = Some p ->
  in_email (body req_ok) = Some e -> in_password (body req_ok) = Some p ->
  in_email (body req_bad) = Some e -> in_password (body req_bad) = Some q ->
  e <> "" -> p <> "" -> q <> "" -> q <> p -> JWT_COOKIE_EXPIRE cfg = Some n ->
  let w1 := tick dt (final (forgotPassword req_f) w) in
  let w2 := final (resetPassword cfg req_r) w1 in
  outcome (forgotPassword req_f) w = Ret (reset_issued_response (rng w (rng_ctr w))) /\
  is_ret (outcome (resetPassword cfg req_r) w1) = true /\
  is_ret (outcome (login cfg req_ok) w2) = true /\
  login cfg req_bad w2 = (Throw "Invalid Credential", w2).
Proof.
  intros Hef Hf Hnd Hfl Hold Hdt Hq Hp Heo Hpo Heb Hpb He Hpe Hqe Hqp Hn w1 w2.
  rewrite <- Hef in Hf.
  destruct (reset_flow_store _ _ _ _ _ _ _ Hf Hnd Hfl Hold Hdt Hq Hp Hpe Hn) as (Hro & Hf2 & Hpw2).
  fold w1 w2 in Hro, Hf2. rewrite Hef in Hf2.
  split_and!; [unfold outcome; by rewrite (forgotPassword_run _ _ _ Hf Hnd Hfl)|done| |].
  - unfold outcome. rewrite (login_found_run cfg _ _ _ _ _ _ Heo Hpo He Hpe Hf2 Hpw2), bcrypt_compare_hash.
    by rewrite (sendTokenResponse_run _ _ _ _ _ Hn).
  - rewrite (login_found_run cfg _ _ _ _ _ _ Heb Hpb He Hqe Hf2 Hpw2).
    destruct (bcrypt_compare q _) eqn:Hc; [|done].
    apply bcrypt_compare_sound in Hc. congruence.
Qed.

(** C10. Scenario D, as the code behaves: once ten minutes have passed
    since [forgotPassword], its token is rejected with ["Invalid
    Token"] (the code reports no distinct expiry error). *)
Theorem reset_after_expiry req_f req_r w u dt :
  find_first (email_is (in_email (body req_f))) (db w) = Some u ->
  NoDup (_id <$> db w) -> faults w = [] ->
  Forall (fun v => resetPasswordToken v <> Some (sha256_hex (rng w (rng_ctr w))))
         (filter (fun v => _id v <> _id u) (db w)) ->
  10 * 60 * 1000 <= dt ->
  q_resetToken (query req_r) = Some (rng w (rng_ctr w)) ->
  let w1 := tick dt (final (forgotPassword req_f) w) in
  resetPassword cfg req_r w1 = (Throw "Invalid Token", w1).
Proof.
  intros Hf Hnd Hfl Hold Hdt Hq w1. apply (resetPassword_unmatched _ _ _ _ Hq).
  unfold w1. rewrite (forgotPassword_issues_final _ _ _ Hf Hnd Hfl). simpl.
  rewrite (issued_token_matches _ _ _ _ Hf Hold).
  by rewrite (proj2 (Z.ltb_ge _ _)) by lia.
Qed.

(** C6. A successful reset clears the expiry but not the token digest
    ([resetPassword] assigns [resetPasswordExpire] twice and never
    [resetPasswordToken]): the record it leaves holds the digest of the
    consumed token with no expiry, breaking the spec's invariant that
    both are present or both absent. *)
Theorem resetPassword_leaves_token_hash req w rt r :
  q_resetToken (query req) = Some rt -> NoDup (_id <$> db w) ->
  outcome (resetPassword cfg req) w = Ret r ->
  exists v, v ∈ db (final (resetPassword cfg req) w) /\
    resetPasswordToken v = Some (sha256_hex rt) /\ resetPasswordExpire v = None /\
    reset_pair_ok v = false.
Proof.
  intros Hq Hnd Hr. destruct (resetPassword_ret _ _ _ _ Hq Hnd Hr) as (u & p & Hf & Hdb).
  pose proof (find_first_Some _ _ _ Hf) as [Hm Hin]. apply reset_matches_token in Hm.
  exists (reset_record u p (rng w (rng_ctr w))). rewrite Hdb.
  split; [by apply (replace_by_id_elem _ u)|].
  unfold reset_pair_ok. destruct u; simpl in *. by subst.
Qed.
End Lifecycle.

(** ** The write-failure path of [forgotPassword] *)

Section Rollback.
Context `{PasswordHasher} `{Digest}.
Local Arguments replace_by_id : simpl never.
Local Arguments save : simpl never.

(** The document the [catch] of [forgotPassword] saves. *)
Definition rollback_doc (u : User) (tok : string) (t : Z) : Doc :=
  assign_resetPasswordExpire None (assign_resetPasswordToken None (forgot_doc u tok t)).

Lemma forgot_doc_modified u tok t :
  resetPasswordToken u <> Some (sha256_hex tok) -> modified (forgot_doc u tok t) <> [].
Proof.
  intros Hne. unfold forgot_doc, assign_resetPasswordExpire, assign_resetPasswordToken, mark.
  simpl. rewrite (bool_decide_true (Some (sha256_hex tok) ≠ _)) by congruence.
  simpl. case_changed; simpl; done.
Qed.

Lemma rollback_doc_facts u tok t :
  is_modified P_password (rollback_doc u tok t) = false /\
  modified (rollback_doc u tok t) <> [] /\
  merge (fun q => is_modified q (rollback_doc u tok t)) (doc (rollback_doc u tok t)) u =
    clear_reset u.
Proof.
  destruct u. unfold rollback_doc, forgot_doc, clear_reset, is_modified,
    assign_resetPasswordExpire, assign_resetPasswordToken, mark. simpl.
  case_changed; simpl; case_changed; simpl; split_and!; try done; by subst.
Qed.

(** C16. [forgotPassword] when the write of the new token fails: the
    [catch] writes the compensating clear of both reset fields (also
    removing any earlier token) and throws ["FAILED TO SAVE PASSWORD
    TOKEN"]; if that write fails too, the error of the store is thrown
    and nothing was written.  In no case is a half-written pair left. *)
Theorem forgotPassword_write_failure req w u fs :
  find_first (email_is (in_email (body req))) (db w) = Some u ->
  NoDup (_id <$> db w) ->
  resetPasswordToken u <> Some (sha256_hex (rng w (rng_ctr w))) ->
  faults w = true :: fs ->
  (hd false fs = false ->
     outcome (forgotPassword req) w = Throw "FAILED TO SAVE PASSWORD TOKEN" /\
     db (final (forgotPassword req) w) = replace_by_id (clear_reset u) (db w)) /\
  (hd false fs = true ->
     outcome (forgotPassword req) w = Throw "MongoServerError: write failed" /\
     db (final (forgotPassword req) w) = db w).
Proof.
  intros Hf Hnd Hne Hfl. unfold outcome, final. rewrite (forgotPassword_found _ _ _ Hf).
  pose proof (find_first_Some _ _ _ Hf) as [_ Hin].
  pose proof (find_first_id_unique _ _ Hnd Hin) as Hid.
  destruct (rollback_doc_facts u (rng w (rng_ctr w)) (now w)) as (Hpw2 & Hm2 & Hmerge).
  set (tok := rng w (rng_ctr w)) in *.
  set (w1 := mkWorld (db w) (now w) (rng w) (S (rng_ctr w)) (faults w)).
  unfold st_catch, st_bind.
  rewrite (save_no_password_faults false (forgot_doc u tok (now w)) w1 u
             (forgot_doc_password _ _ _) (forgot_doc_modified _ _ (now w) Hne) Hid).
  unfold w1. simpl. rewrite Hfl. simpl. fold (rollback_doc u tok (now w)).
  rewrite (save_no_password_faults false (rollback_doc u tok (now w))
             (mkWorld (db w) (now w) (rng w) (S (rng_ctr w)) fs) u Hpw2 Hm2 Hid).
  rewrite Hmerge. split; intros Hh; cbn [faults]; rewrite Hh; done.
Qed.
End Rollback.

(** ** Witnesses: the theorems at the fixtures *)

Section Witnesses.
Import ToyCrypto.
#[local] Existing Instance signer0.

Lemma forgotPassword_issues_witness :
  outcome (forgotPassword (rq_forgot "a@x.io")) w0 = Ret (reset_issued_response "t0").
Proof.
  exact (proj1 (forgotPassword_issues (rq_forgot "a@x.io") w0 alice eq_refl
                  ltac:(by_decide) eq_refl)).
Defined.

Definition reset_ok_response : Response :=
  match outcome (resetPassword cfg0 (rq_reset "t0" "new")) w_reset with
  | Ret r => r | Throw _ => res0
  end.

Lemma reset_ok_outcome :
  outcome (resetPassword cfg0 (rq_reset "t0" "new")) w_reset = Ret reset_ok_response.
Proof. vm_compute. reflexivity. Qed.

Lemma reset_single_use_witness :
  let w' := tick 5000 (final (resetPassword cfg0 (rq_reset "t0" "new")) w_reset) in
  resetPassword cfg0 (rq_reset "t0" "other") w' = (Throw "Invalid Token", w').
Proof.
  apply (reset_single_use cfg0 (rq_reset "t0" "new") (rq_reset "t0" "other") w_reset "t0"
           reset_ok_response 5000 eq_refl eq_refl);
    [by_decide | apply unique_reset_hash_count; by_decide | exact reset_ok_outcome].
Defined.

Lemma reset_token_overwrite_witness :
  let w2 := final (forgotPassword (rq_forgot "a@x.io")) (final (forgotPassword (rq_forgot "a@x.io")) w0) in
  resetPassword cfg0 (rq_reset "t0" "x") w2 = (Throw "Invalid Token", w2).
Proof.
  apply (reset_token_overwrite cfg0 _ _ _ _ alice); try reflexivity; by_decide.
Defined.

Lemma reset_flow_end_to_end_witness :
  let w1 := tick 1000 (final (forgotPassword (rq_forgot "a@x.io")) w0) in
  let w2 := final (resetPassword cfg0 (rq_reset "t0" "new")) w1 in
  is_ret (outcome (login cfg0 (rq_login "a@x.io" "new")) w2) = true /\
  login cfg0 (rq_login "a@x.io" "pw1") w2 = (Throw "Invalid Credential", w2).
Proof.
  pose proof (reset_flow_end_to_end cfg0 (rq_forgot "a@x.io") (rq_reset "t0" "new")
    (rq_login "a@x.io" "new") (rq_login "a@x.io" "pw1") w0 "a@x.io" alice "new" "pw1" 1000 2
    eq_refl eq_refl ltac:(by_decide) eq_refl ltac:(by_decide) ltac:(lia) eq_refl eq_refl
    eq_refl eq_refl eq_refl eq_refl ltac:(discriminate) ltac:(discriminate)
    ltac:(discriminate) ltac:(discriminate) eq_refl) as H.
  cbv zeta in H. destruct H as (_ & _ & H3 & H4). split; assumption.
Defined.

Lemma reset_after_expiry_witness :
  let w1 := tick 600000 (final (forgotPassword (rq_forgot "a@x.io")) w0) in
  resetPassword cfg0 (rq_reset "t0" "new") w1 = (Throw "Invalid Token", w1).
Proof.
  apply (reset_after_expiry cfg0 _ _ _ alice); try reflexivity; by_decide.
Defined.

Lemma resetPassword_leaves_token_hash_witness :
  exists v, v ∈ db (final (resetPassword cfg0 (rq_reset "t0" "new")) w_reset) /\
    reset_pair_ok v = false.
Proof.
  destruct (resetPassword_leaves_token_hash cfg0 (rq_reset "t0" "new") w_reset "t0"
              reset_ok_response eq_refl ltac:(by_decide) reset_ok_outcome) as (v & Hv & _ & _ & Hok).
  exists v. split; assumption.
Defined.
Definition w_fail : World := mkWorld [alice; bob] 1000000 rng0 0 [true].

Lemma forgotPassword_write_failure_witness :
  outcome (forgotPassword (rq_forgot "a@x.io")) w_fail = Throw "FAILED TO SAVE PASSWORD TOKEN" /\
  db (final (forgotPassword (rq_forgot "a@x.io")) w_fail) =
    replace_by_id (clear_reset alice) [alice; bob].
Proof.
  exact (proj1 (forgotPassword_write_failure (rq_forgot "a@x.io") w_fail alice []
                  eq_refl ltac:(by_decide) ltac:(discriminate) eq_refl) eq_refl).
Defined.
End Witnesses.
