(* ===== verification/Concurrency.v ===== *)
(** * Concurrency: password resets and reset requests, interleaved

    A handler runs to completion between its [await]s; requests of two
    clients interleave at those points.  [resetPassword] awaits twice
    on the store: the query for the record holding the token's digest,
    then [user.save()].  It is split here into those two segments, and
    the split is proved to compose back to the handler.  Running the
    segments of two resets in the order read, read, write, write (both
    queries before either save) is then a run the server may perform;
    in it both resets succeed with the same token, and the second write
    overwrites the first password.  [forgotPassword] is split the same
    way; a reset whose save follows a concurrent forgot request's save
    erases the expiry of the token that request hands out. *)

From stdpp Require Import base list strings.
From Stdlib Require Import ZArith String.
From S2P Require Import Prelude Crypto Jwt UserModel Http Fixtures Auth AuthProps.
Open Scope string_scope.
Open Scope Z_scope.
Local Open Scope st_scope.

(** ** Interleaving two two-segment requests *)

(** The second segment of a request, run on the outcome of its first. *)
Definition resume {A B} (e : Exc A) (k : A -> ST World B) : ST World B :=
  fun w => match e with Ret a => k a w | Throw m => (Throw m, w) end.

(** The run read, read, write, write of two requests [m1; k1] and
    [m2; k2]: each request keeps its own error. *)
Definition interleave {A B C D} (m1 : ST World A) (k1 : A -> ST World B)
    (m2 : ST World C) (k2 : C -> ST World D) : ST World (Exc B * Exc D) :=
  fun w =>
    let (e1, w1) := m1 w in
    let (e2, w2) := m2 w1 in
    let (o1, w3) := resume e1 k1 w2 in
    let (o2, w4) := resume e2 k2 w3 in
    (Ret (o1, o2), w4).

Section Segments.
Context `{PasswordHasher} `{Digest} `{TokenSigner}.
Context (cfg : Config).

(** The segment of [resetPassword] up to its query. *)
Definition resetPassword_read (req : Req) : ST World (option Doc) :=
  match q_resetToken (query req) with
  | None => throw "The data argument must be of type string"
  | Some rt =>
      let resetPasswordToken := sha256_hex rt in
      let* t := date_now in
      findOne_reset resetPasswordToken t
  end.

(** The segment of [resetPassword] from its query's result. *)
Definition resetPassword_write (req : Req) (user : option Doc) : ST World Response :=
  match user with
  | None => throw "Invalid Token"
  | Some d =>
      let d1 := assign_password (in_password (body req)) d in
      let d2 := assign_resetPasswordExpire None d1 in
      let d3 := assign_resetPasswordExpire None d2 in
      let* d4 := save true d3 in
      sendTokenResponse cfg d4 200
  end.

(** The segment of [forgotPassword] up to its query by email. *)
Definition forgotPassword_read (req : Req) : ST World (option Doc) :=
  findOne_email false (in_email (body req)).

(** The segment of [forgotPassword] from its query's result: the token
    is drawn and its digest saved, or cleared if the save fails. *)
Definition forgotPassword_write (req : Req) (user : option Doc) : ST World Response :=
  match user with
  | None => throw "NO USER FOUND"
  | Some d =>
      let* '(resetToken, d1) := getResetPasswordToken d in
      st_catch
        (let* _ := save false d1 in st_ret (reset_issued_response resetToken))
        (fun _ =>
           let d2 := assign_resetPasswordExpire None (assign_resetPasswordToken None d1) in
           let* _ := save false d2 in
           throw "FAILED TO SAVE PASSWORD TOKEN")
  end.
End Segments.

(** ** The segments compose to the handler *)

Section Behaviour.
Context `{PasswordHasher} `{Digest} `{TokenSigner}.
Context (cfg : Config).
Local Arguments sendTokenResponse : simpl never.
Local Arguments replace_by_id : simpl never.
Local Arguments save : simpl never.
Local Arguments resetPassword_write : simpl never.
Local Arguments forgotPassword_write : simpl never.

(** [resetPassword] is its query segment followed by its write
    segment, on every request and world. *)
Theorem resetPassword_split req w :
  resetPassword cfg req w = st_bind (resetPassword_read req) (resetPassword_write cfg req) w.
Proof.
  unfold resetPassword, resetPassword_read, resetPassword_write.
  destruct (q_resetToken (query req)); [|reflexivity].
  by rewrite st_bind_assoc.
Qed.

(** The reset document's modified paths, written over any stored
    version of the record whose expiry the reset clears. *)
Lemma reset_doc_onto u p salt s :
  resetPasswordExpire u <> None -> _id s = _id u ->
  let d := assign_resetPasswordExpire None (assign_resetPasswordExpire None
             (assign_password (Some p) (hydrate false u))) in
  merge (fun q => is_modified q d) (with_password (Some (bcrypt_hash p salt)) (doc d)) s =
    reset_record s p salt.
Proof.
  destruct u as [i un e pw fn ln g tk [x|]]; [|done]. intros _ Hid.
  destruct s; simpl in *. subst. reflexivity.
Qed.

(** The write segment on a document read earlier, when the store now
    holds the version [s] of its record: the password is hashed with
    the next salt, then the write fails or [s] becomes [reset_record s]. *)
Lemma resetPassword_write_run req w u s p :
  in_password (body req) = Some p -> p <> "" -> resetPasswordExpire u <> None ->
  find_first (id_is (_id u)) (db w) = Some s ->
  let salt := rng w (rng_ctr w) in
  resetPassword_write cfg req (Some (hydrate false u)) w =
    if hd false (faults w)
    then (Throw "MongoServerError: write failed",
          mkWorld (db w) (now w) (rng w) (S (rng_ctr w)) (tl (faults w)))
    else sendTokenResponse cfg (mkDoc (reset_record u p salt) [] false) 200
           (mkWorld (replace_by_id (reset_record s p salt) (db w))
                    (now w) (rng w) (S (rng_ctr w)) (tl (faults w))).
Proof.
  intros Hp Hne Hx Hs salt. unfold resetPassword_write. rewrite Hp. unfold st_bind.
  destruct (reset_doc u p) as (Hm & Hpw & Hid & Hsel & Hw).
  pose proof (find_first_Some _ _ _ Hs) as [Hids _]. unfold id_is in Hids.
  apply bool_decide_eq_true in Hids.
  rewrite (save_hashes_faults _ _ _ s p Hm Hpw Hne); [|by rewrite Hid].
  destruct (hd false (faults w)); [done|]. rewrite Hsel.
  destruct (Hw (rng w (rng_ctr w))) as [Hd _].
  rewrite (reset_doc_onto u p (rng w (rng_ctr w)) s Hx Hids). by rewrite Hd.
Qed.

Lemma resetPassword_read_run req w rt :
  q_resetToken (query req) = Some rt ->
  resetPassword_read req w =
    (Ret (hydrate false <$> find_first (reset_matches (sha256_hex rt) (now w)) (db w)), w).
Proof. intros Hq. unfold resetPassword_read. by rewrite Hq. Qed.

(** A record a reset token matches has an expiry. *)
Lemma reset_matches_expire h t u :
  reset_matches h t u = true -> resetPasswordExpire u <> None.
Proof. unfold reset_matches. destruct (resetPasswordExpire u); [done|]. by rewrite andb_false_r. Qed.

(** A reset record has no expiry: no token matches it. *)
Lemma reset_record_voids h t s p salt : reset_matches h t (reset_record s p salt) = false.
Proof. destruct s. unfold reset_matches. simpl. apply andb_false_r. Qed.

Lemma forgotPassword_split req w :
  forgotPassword req w = st_bind (forgotPassword_read req) (forgotPassword_write req) w.
Proof. reflexivity. Qed.

Lemma forgotPassword_read_run req w :
  forgotPassword_read req w =
    (Ret (hydrate false <$> find_first (email_is (in_email (body req))) (db w)), w).
Proof. reflexivity. Qed.

(** The write segment of [forgotPassword] on the record read in the
    same world is the whole handler. *)
Lemma forgotPassword_write_run req w u :
  find_first (email_is (in_email (body req))) (db w) = Some u ->
  forgotPassword_write req (Some (hydrate false u)) w = forgotPassword req w.
Proof.
  intros Hf. rewrite forgotPassword_split. unfold st_bind.
  by rewrite forgotPassword_read_run, Hf.
Qed.

Lemma reset_record_twice u p q s1 s2 :
  reset_record (reset_record u p s1) q s2 = reset_record u q s2.
Proof. by destruct u. Qed.

(** Two resets with one valid token, whose queries both run
    before either save (the interleaving of their [await]s the server
    allows), both succeed: each client receives a session for the
    record's owner, and the second write overwrites the first new
    password.  Run one after the other, the second is rejected
    (single use); concurrently the token is used twice. *)
Theorem concurrent_resets_both_succeed reqA reqB w rt u pA pB n :
  q_resetToken (query reqA) = Some rt -> q_resetToken (query reqB) = Some rt ->
  in_password (body reqA) = Some pA -> in_password (body reqB) = Some pB ->
  pA <> "" -> pB <> "" ->
  find_first (reset_matches (sha256_hex rt) (now w)) (db w) = Some u ->
  NoDup (_id <$> db w) -> faults w = [] -> JWT_COOKIE_EXPIRE cfg = Some n ->
  let run := interleave (resetPassword_read reqA) (resetPassword_write cfg reqA)
                        (resetPassword_read reqB) (resetPassword_write cfg reqB) in
  let session := Some (JObj [("success", JBool true); ("token", JToken (ts_issue (_id u) (now w)))]) in
  exists rA rB, outcome run w = Ret (Ret rA, Ret rB) /\
    body_json rA = session /\ body_json rB = session /\
    db (final run w) = replace_by_id (reset_record u pB (rng w (S (rng_ctr w)))) (db w).
Proof.
  intros HqA HqB HpA HpB HneA HneB Hf Hnd Hfl Hn run session.
  pose proof (find_first_Some _ _ _ Hf) as [Hm Hin].
  pose proof (reset_matches_expire _ _ _ Hm) as Hx.
  set (uA := reset_record u pA (rng w (rng_ctr w))).
  assert (HsA : find_first (id_is (_id u)) (replace_by_id uA (db w)) = Some uA).
  { apply (find_first_replace _ _ u); [done|by apply find_first_id_unique|by destruct u|].
    unfold id_is. by rewrite bool_decide_true by (by destruct u). }
  unfold run, interleave, outcome, final.
  rewrite (resetPassword_read_run _ _ _ HqA), (resetPassword_read_run _ _ _ HqB), Hf. simpl.
  rewrite (resetPassword_write_run _ _ _ _ _ HpA HneA Hx (find_first_id_unique _ _ Hnd Hin)), Hfl.
  simpl. rewrite (sendTokenResponse_run _ _ _ _ _ Hn). fold uA. simpl.
  rewrite (resetPassword_write_run reqB
             (mkWorld (replace_by_id uA (db w)) (now w) (rng w) (S (rng_ctr w)) [])
             u uA pB HpB HneB Hx HsA). simpl.
  rewrite (sendTokenResponse_run _ _ _ _ _ Hn). simpl.
  eexists _, _. split_and!; [reflexivity|reflexivity|reflexivity|].
  unfold uA. rewrite reset_record_twice, replace_by_id_twice; [done|by destruct u].
Qed.

(** A reset with a still valid token [rt] whose query runs before
    a [forgotPassword] for the same account saves, and whose own save
    lands after it: both succeed, the forgot request hands out a fresh
    token, and the reset's save, writing its modified path
    [resetPasswordExpire] as unset, erases the fresh token's expiry.
    The record keeps the fresh token's digest with no expiry, so the
    token just handed out is rejected as ["Invalid Token"] at every
    later time. *)
Theorem reset_during_forgot_voids_token req_f req_r w rt u p n :
  q_resetToken (query req_r) = Some rt -> in_password (body req_r) = Some p -> p <> "" ->
  find_first (reset_matches (sha256_hex rt) (now w)) (db w) = Some u ->
  find_first (email_is (in_email (body req_f))) (db w) = Some u ->
  NoDup (_id <$> db w) -> faults w = [] -> JWT_COOKIE_EXPIRE cfg = Some n ->
  Forall (fun v => resetPasswordToken v <> Some (sha256_hex (rng w (rng_ctr w))))
         (filter (fun v => _id v <> _id u) (db w)) ->
  let run := interleave (forgotPassword_read req_f) (forgotPassword_write req_f)
                        (resetPassword_read req_r) (resetPassword_write cfg req_r) in
  let tok := rng w (rng_ctr w) in
  exists rR, outcome run w = Ret (Ret (reset_issued_response tok), Ret rR) /\
    forall req dt, q_resetToken (query req) = Some tok ->
      outcome (resetPassword cfg req) (tick dt (final run w)) = Throw "Invalid Token".
Proof.
  intros Hq Hp Hne Hr Hf Hnd Hfl Hn Hold run tok.
  pose proof (find_first_Some _ _ _ Hf) as [_ Hin].
  pose proof (reset_matches_expire _ _ _ (proj1 (find_first_Some _ _ _ Hr))) as Hx.
  set (s := issue_reset u tok (now w)).
  assert (Hs : find_first (id_is (_id u)) (replace_by_id s (db w)) = Some s).
  { apply (find_first_replace _ _ u); [done|by apply find_first_id_unique|by destruct u|].
    unfold id_is. by rewrite bool_decide_true by (by destruct u). }
  unfold run, interleave, outcome, final.
  rewrite forgotPassword_read_run, (resetPassword_read_run _ _ _ Hq), Hf, Hr. simpl.
  rewrite (forgotPassword_write_run _ _ _ Hf), (forgotPassword_run _ _ _ Hf Hnd Hfl). simpl.
  rewrite (resetPassword_write_run _
             (mkWorld (replace_by_id (issue_reset u (rng w (rng_ctr w)) (now w)) (db w))
                      (now w) (rng w) (S (rng_ctr w)) [])
             u s p Hp Hne Hx Hs). simpl.
  rewrite (sendTokenResponse_run _ _ _ _ _ Hn). simpl.
  eexists. split; [reflexivity|]. intros req dt Hq'.
  rewrite (resetPassword_unmatched _ _ _ _ Hq'); [reflexivity|]. simpl.
  rewrite replace_by_id_twice by (by destruct u).
  apply find_first_None_intro, (reset_matches_replaced _ _ _ u); [done|apply reset_record_voids|by destruct u].
Qed.
End Behaviour.

(** ** Witness: two resets with the token ["t0"] of [w_reset] *)

Section Witnesses.
Import ToyCrypto.
#[local] Existing Instance signer0.

Lemma concurrent_resets_both_succeed_witness :
  let run := interleave (resetPassword_read (rq_reset "t0" "a")) (resetPassword_write cfg0 (rq_reset "t0" "a"))
                        (resetPassword_read (rq_reset "t0" "b")) (resetPassword_write cfg0 (rq_reset "t0" "b")) in
  let session := Some (JObj [("success", JBool true);
                             ("token", JToken (ts_issue (_id (hd alice (db w_reset))) (now w_reset)))]) in
  exists rA rB, outcome run w_reset = Ret (Ret rA, Ret rB) /\
    body_json rA = session /\ body_json rB = session /\
    db (final run w_reset) =
      replace_by_id (reset_record (hd alice (db w_reset)) "b" (rng w_reset (S (rng_ctr w_reset))))
                    (db w_reset).
Proof.
  exact (concurrent_resets_both_succeed cfg0 (rq_reset "t0" "a") (rq_reset "t0" "b") w_reset "t0"
           (hd alice (db w_reset)) "a" "b" 2 eq_refl eq_refl eq_refl eq_refl
           ltac:(discriminate) ltac:(discriminate) eq_refl ltac:(by_decide) eq_refl eq_refl).
Defined.

(** The world of [w_reset] one random draw later, so that the forgot
    request draws the token ["t1"], not the stored ["t0"]. *)
Definition w_race : World := mkWorld (db w_reset) (now w_reset) rng0 1%nat [].

Lemma reset_during_forgot_voids_token_witness :
  let run := interleave (forgotPassword_read (rq_forgot "a@x.io")) (forgotPassword_write (rq_forgot "a@x.io"))
                        (resetPassword_read (rq_reset "t0" "b")) (resetPassword_write cfg0 (rq_reset "t0" "b")) in
  exists rR, outcome run w_race = Ret (Ret (reset_issued_response "t1"), Ret rR) /\
    forall req dt, q_resetToken (query req) = Some "t1" ->
      outcome (resetPassword cfg0 req) (tick dt (final run w_race)) = Throw "Invalid Token".
Proof.
  exact (reset_during_forgot_voids_token cfg0 (rq_forgot "a@x.io") (rq_reset "t0" "b") w_race "t0"
           (hd alice (db w_race)) "b" 2 eq_refl eq_refl ltac:(discriminate) eq_refl eq_refl
           ltac:(by_decide) eq_refl eq_refl ltac:(by_decide)).
Defined.
End Witnesses.
