(* ===== verification/Session.v ===== *)
(** * Session: the token cookie between the client and the protect middleware

    [sendTokenResponse] hands the session token to the client as the
    cookie [token]; the client sends it back on later requests, and the
    authentication middleware [protect] (outside [src/], modelled from
    the spec: sections 4.2, 6 and 7) verifies it and loads the record
    whose id it carries, which becomes [req.user] for [updatePassword].
    - The client is a cookie jar: it keeps the last [token] cookie a
      response set, and sends its value until the cookie's [expires].
    - [protect] answers the user's id or an error of the spec's
      taxonomy: no token, an invalid token (a forged one, or the
      ["none"] that [logout] leaves), an expired one, or an id no
      record has any longer.
    The session theorems are proved against the [TokenSigner] contract;
    the theorems on the JWT implementation instantiate it with the
    configured secret and lifetime. *)

From stdpp Require Import base list strings.
From Stdlib Require Import ZArith String Lia.
From S2P Require Import Prelude Crypto Jwt UserModel Http Fixtures Auth.
Open Scope string_scope.
Open Scope Z_scope.
Local Open Scope st_scope.

(** ** The client's cookie jar *)

Definition Jar := option Cookie.

(** A response's [Set-Cookie: token=...] replaces the jar's cookie. *)
Definition jar_store (r : Response) (j : Jar) : Jar :=
  match find_first (fun c => String.eqb (ck_name c) "token") (cookies r) with
  | Some c => Some c
  | None => j
  end.

(** The value the client sends at time [t]: none once the cookie has
    expired. *)
Definition jar_send (j : Jar) (t : Z) : option Json :=
  match j with
  | Some c => if t <? ck_expires c then Some (ck_value c) else None
  | None => None
  end.

(** ** The protect middleware *)

(** The authentication errors of the spec's taxonomy. *)
Inductive AuthError :=
| NoToken
| BadToken
| ExpiredToken
| UnknownUser.

Section Protect.
Context `{TokenSigner}.

(** [protect]: verify the token cookie, then load the record of its id. *)
Definition protect (v : option Json) : ST World (AuthError + ObjectId) :=
  match v with
  | None => st_ret (inl NoToken)
  | Some (JToken tk) =>
      let* t := date_now in
      match ts_verify tk t with
      | Valid id =>
          let* user := findById false id in
          match user with
          | Some _ => st_ret (inr id)
          | None => st_ret (inl UnknownUser)
          end
      | TokenInvalid => st_ret (inl BadToken)
      | TokenExpired => st_ret (inl ExpiredToken)
      end
  | Some _ => st_ret (inl BadToken)
  end.
End Protect.

(** [req.user] set by the middleware. *)
Definition authenticate (req : Req) (id : ObjectId) : Req :=
  mkReq (body req) (query req) (params_userId req) (Some id).

(** ** Sessions, against the token contract *)

Section Sessions.
Context `{PasswordHasher} `{Digest} `{TokenSigner}.
Context (cfg : Config).
Local Arguments sendTokenResponse : simpl never.

Lemma jar_store_session r j tk t n :
  cookies r = [session_cookie cfg tk t n] -> jar_store r j = Some (session_cookie cfg tk t n).
Proof. intros Hc. unfold jar_store. by rewrite Hc. Qed.

Lemma jar_send_session tk t n t' :
  jar_send (Some (session_cookie cfg tk t n)) t' =
    if t' <? t + n * 24 * 60 * 60 * 1000 then Some (JToken tk) else None.
Proof. reflexivity. Qed.

(** [protect] only reads the world. *)
Lemma protect_token tk w :
  protect (Some (JToken tk)) w =
    (Ret (match ts_verify tk (now w) with
          | Valid id => if find_first (id_is id) (db w) is Some _ then inr id else inl UnknownUser
          | TokenInvalid => inl BadToken
          | TokenExpired => inl ExpiredToken
          end), w).
Proof.
  unfold protect, date_now. st_unfold. simpl.
  destruct (ts_verify tk (now w)) as [id| |]; [|done..].
  unfold findById, find_with. simpl. by destruct (find_first _ _).
Qed.

Lemma find_first_id_elem id (l : list User) :
  id ∈ _id <$> l -> exists v, find_first (id_is id) l = Some v.
Proof.
  intros (u & -> & Hu)%list_elem_of_fmap.
  destruct (find_first (id_is (_id u)) l) as [v|] eqn:Hf; [by eexists|].
  exfalso. pose proof (find_first_None _ _ Hf u Hu) as Hn.
  unfold id_is in Hn. by rewrite bool_decide_true in Hn.
Qed.

(** C28. Round trip of a session: after a successful login, the token
    cookie the client keeps authenticates it as the logged-in user on
    every later request, for at least the token's guaranteed lifetime
    and while the cookie lasts, as long as the record still exists. *)
Theorem login_session_valid req w r :
  outcome (login cfg req) w = Ret r ->
  exists u, find_first (email_is (in_email (body req))) (db w) = Some u /\
    forall w', now w <= now w' < now w + ts_min_life ->
      jar_send (jar_store r None) (now w') <> None ->
      _id u ∈ _id <$> db w' ->
      protect (jar_send (jar_store r None) (now w')) w' = (Ret (inr (_id u)), w').
Proof.
  intros Hr. destruct (login_ret _ _ _ _ Hr) as (u & n & Hf & Hn & Hc & _).
  exists u. split; [done|]. intros w' Hw Hs Hid.
  rewrite (jar_store_session _ _ _ _ _ Hc), jar_send_session in *.
  destruct (_ <? _); [|done]. rewrite protect_token, (ts_valid _ _ _ Hw).
  by destruct (find_first_id_elem _ _ Hid) as [v ->].
Qed.

(** C29. A session is bounded: from the token's maximal lifetime on,
    or once the cookie ([JWT_COOKIE_EXPIRE] days) has expired, the
    client is no longer authenticated: it sends no token, or one
    reported expired. *)
Theorem login_session_expires req w r :
  outcome (login cfg req) w = Ret r ->
  exists n, JWT_COOKIE_EXPIRE cfg = Some n /\
    forall w', now w + ts_max_life <= now w' \/ now w + n * 24 * 60 * 60 * 1000 <= now w' ->
      final (protect (jar_send (jar_store r None) (now w'))) w' = w' /\
      (outcome (protect (jar_send (jar_store r None) (now w'))) w' = Ret (inl NoToken) \/
       outcome (protect (jar_send (jar_store r None) (now w'))) w' = Ret (inl ExpiredToken)).
Proof.
  intros Hr. destruct (login_ret _ _ _ _ Hr) as (u & n & Hf & Hn & Hc & _).
  exists n. split; [done|]. intros w' Hw.
  rewrite (jar_store_session _ _ _ _ _ Hc), jar_send_session.
  destruct (Z.ltb_spec (now w') (now w + n * 24 * 60 * 60 * 1000)) as [Hlt|];
    [|unfold final, outcome; simpl; auto].
  destruct Hw as [Hw|]; [|lia].
  unfold final, outcome. rewrite protect_token, (ts_expired _ _ _ Hw). simpl. auto.
Qed.

(** C30. [logout] ends the session whatever cookie the client held:
    the value ["none"] it sets is no token, and once that cookie
    expires the client sends nothing. *)
Theorem logout_ends_session req w r (j : Jar) w' :
  outcome (logout req) w = Ret r ->
  protect (jar_send (jar_store r j) (now w')) w' = (Ret (inl BadToken), w') \/
  protect (jar_send (jar_store r j) (now w')) w' = (Ret (inl NoToken), w').
Proof.
  unfold outcome, logout. simpl. intros [= <-].
  unfold jar_store, jar_send. simpl. destruct (now w' <? _); auto.
Qed.

(** C33. An authenticated password update, end to end: after a login
    with password [p], the client's session authenticates it (until the
    token's guaranteed lifetime ends, while the cookie lasts and the
    store is as it was), and its [updatePassword] carrying [p] as the
    current password succeeds with a fresh session for the same user;
    the store is left unchanged. *)
Theorem authenticated_updatePassword req req2 w r w' :
  outcome (login cfg req) w = Ret r -> NoDup (_id <$> db w) ->
  now w <= now w' < now w + ts_min_life -> jar_send (jar_store r None) (now w') <> None ->
  db w' = db w -> in_password (body req2) = in_password (body req) ->
  exists id r2, protect (jar_send (jar_store r None) (now w')) w' = (Ret (inr id), w') /\
    updatePassword cfg (authenticate req2 id) w' = (Ret r2, w') /\
    body_json r2 = Some (JObj [("success", JBool true); ("token", JToken (ts_issue id (now w')))]).
Proof.
  intros Hr Hnd Hw Hs Hdb Hp2.
  destruct (login_ret _ _ _ _ Hr) as (u & n & Hf & Hn & Hc & p & h & Hp & Hh & Hcmp).
  pose proof (find_first_Some _ _ _ Hf) as [_ Hin].
  assert (Hid : find_first (id_is (_id u)) (db w') = Some u)
    by (rewrite Hdb; by apply find_first_id_unique).
  exists (_id u). eexists. split_and!.
  - rewrite (jar_store_session _ _ _ _ _ Hc), jar_send_session in *.
    destruct (_ <? _); [|done]. by rewrite protect_token, (ts_valid _ _ _ Hw), Hid.
  - apply (updatePassword_ok_run cfg _ _ (_id u) u p h n); [done|done|simpl; by rewrite Hp2|done|done|done].
  - reflexivity.
Qed.
End Sessions.

(** ** The session token of the JWT implementation *)

(** The signer the server runs with: [JWT_SECRET] and [JWT_EXPIRE]. *)
Definition session_signer `{Mac Claims} (cfg : Config) : TokenSigner :=
  jwt_signer (JWT_SECRET cfg) (JWT_EXPIRE cfg).

Section JwtSessions.
Context `{Mac Claims}.
Context (cfg : Config).

(** The token cookie of a response of [sendTokenResponse] under the
    configured signer. *)
Lemma sendTokenResponse_jwt_cookie d sc w r :
  outcome (@sendTokenResponse (session_signer cfg) cfg d sc) w = Ret r ->
  exists n, cookies r =
    [session_cookie cfg
       (jwt_sign (JWT_SECRET cfg) (JWT_EXPIRE cfg) (_id (doc d)) (now w)) (now w) n].
Proof.
  unfold outcome. destruct (JWT_COOKIE_EXPIRE cfg) as [n|] eqn:Hn.
  - rewrite (@sendTokenResponse_run (session_signer cfg) cfg _ _ _ _ Hn). simpl.
    intros [= <-]. by exists n.
  - by rewrite (@sendTokenResponse_no_expiry (session_signer cfg) cfg _ _ _ Hn).
Qed.

(** C31. Refinement: the session token [sendTokenResponse] sets, under
    the configured JWT signer, behaves as the spec's [issue(identity,
    ttl)] allows at every later instant: it verifies to the record's
    id until [ttl] has elapsed and is reported expired afterwards, its
    expiry falling at most 999 ms before [now + ttl]. *)
Theorem session_token_refines d sc w r :
  outcome (@sendTokenResponse (session_signer cfg) cfg d sc) w = Ret r ->
  exists c tk, cookies r = [c] /\ ck_value c = JToken tk /\
    forall t, now w <= t ->
      token_spec (JWT_EXPIRE cfg) (_id (doc d)) (now w) t (jwt_verify (JWT_SECRET cfg) tk t).
Proof.
  intros Hr. destruct (sendTokenResponse_jwt_cookie _ _ _ _ Hr) as [n Hc].
  eexists _, _. split_and!; [exact Hc|reflexivity|]. intros t Ht. by apply jwt_meets_spec.
Qed.

(** C32. The exact end of a session token: it verifies to the record's
    id exactly before [1000 * (floor(now / 1000) + JWT_EXPIRE)] ms,
    which lies in [[now + 1000 JWT_EXPIRE - 999, now + 1000
    JWT_EXPIRE]] and is strictly before [now + ttl] whenever the token
    is not issued on a whole second: [iat] is truncated to seconds. *)
Theorem session_token_expiry_instant d sc w r :
  outcome (@sendTokenResponse (session_signer cfg) cfg d sc) w = Ret r ->
  let e := jwt_expiry_ms (JWT_EXPIRE cfg) (now w) in
  exists c tk, cookies r = [c] /\ ck_value c = JToken tk /\
    (forall t, jwt_verify (JWT_SECRET cfg) tk t = Valid (_id (doc d)) <-> t < e) /\
    now w + 1000 * JWT_EXPIRE cfg - 999 <= e <= now w + 1000 * JWT_EXPIRE cfg /\
    (now w mod 1000 <> 0 -> e < now w + 1000 * JWT_EXPIRE cfg).
Proof.
  intros Hr e. destruct (sendTokenResponse_jwt_cookie _ _ _ _ Hr) as [n Hc].
  eexists _, _. split_and!; [exact Hc|reflexivity| |apply jwt_expiry_ms_bounds..|].
  - intros t. rewrite jwt_verify_sign_instant. fold e.
    destruct (Z.ltb_spec t e); split; done || lia.
  - intros Hm. unfold e, jwt_expiry_ms, seconds. Z.div_mod_to_equations. lia.
Qed.
End JwtSessions.

(** ** Witnesses: alice's session at the fixtures *)

Section Witnesses.
Import ToyCrypto ToyMac.
#[local] Existing Instance signer0.

Definition login_ok_response : Response :=
  match outcome (login cfg0 (rq_login "a@x.io" "pw1")) w0 with Ret r => r | Throw _ => res0 end.

Lemma login_ok_outcome : outcome (login cfg0 (rq_login "a@x.io" "pw1")) w0 = Ret login_ok_response.
Proof. vm_compute. reflexivity. Qed.

Lemma login_session_valid_witness :
  exists u, find_first (email_is (Some "a@x.io")) (db w0) = Some u /\
    forall w', now w0 <= now w' < now w0 + ts_min_life ->
      jar_send (jar_store login_ok_response None) (now w') <> None ->
      _id u ∈ _id <$> db w' ->
      protect (jar_send (jar_store login_ok_response None) (now w')) w' = (Ret (inr (_id u)), w').
Proof. exact (login_session_valid cfg0 (rq_login "a@x.io" "pw1") w0 _ login_ok_outcome). Defined.

Lemma login_session_expires_witness :
  exists n, JWT_COOKIE_EXPIRE cfg0 = Some n /\
    forall w', now w0 + ts_max_life <= now w' \/ now w0 + n * 24 * 60 * 60 * 1000 <= now w' ->
      final (protect (jar_send (jar_store login_ok_response None) (now w'))) w' = w' /\
      (outcome (protect (jar_send (jar_store login_ok_response None) (now w'))) w' = Ret (inl NoToken) \/
       outcome (protect (jar_send (jar_store login_ok_response None) (now w'))) w' = Ret (inl ExpiredToken)).
Proof. exact (login_session_expires cfg0 (rq_login "a@x.io" "pw1") w0 _ login_ok_outcome). Defined.

Definition logout_response : Response :=
  match outcome (logout (rq_body empty_input)) w0 with Ret r => r | Throw _ => res0 end.

Lemma logout_ends_session_witness :
  protect (jar_send (jar_store logout_response (jar_store login_ok_response None)) (now w0)) w0 =
    (Ret (inl BadToken), w0) \/
  protect (jar_send (jar_store logout_response (jar_store login_ok_response None)) (now w0)) w0 =
    (Ret (inl NoToken), w0).
Proof. apply (logout_ends_session (rq_body empty_input) w0). reflexivity. Defined.

Definition alice_session : Response :=
  match outcome (@sendTokenResponse (session_signer cfg0) cfg0 (hydrate true alice) 200) w0 with
  | Ret r => r | Throw _ => res0
  end.

Lemma alice_session_outcome :
  outcome (@sendTokenResponse (session_signer cfg0) cfg0 (hydrate true alice) 200) w0 = Ret alice_session.
Proof. vm_compute. reflexivity. Qed.

Lemma session_token_refines_witness :
  exists c tk, cookies alice_session = [c] /\ ck_value c = JToken tk /\
    forall t, now w0 <= t ->
      token_spec (JWT_EXPIRE cfg0) 1%N (now w0) t (jwt_verify (JWT_SECRET cfg0) tk t).
Proof. exact (session_token_refines cfg0 (hydrate true alice) 200 w0 _ alice_session_outcome). Defined.

Lemma session_token_expiry_instant_witness :
  let e := jwt_expiry_ms (JWT_EXPIRE cfg0) (now w0) in
  exists c tk, cookies alice_session = [c] /\ ck_value c = JToken tk /\
    (forall t, jwt_verify (JWT_SECRET cfg0) tk t = Valid 1%N <-> t < e) /\
    now w0 + 1000 * JWT_EXPIRE cfg0 - 999 <= e <= now w0 + 1000 * JWT_EXPIRE cfg0 /\
    (now w0 mod 1000 <> 0 -> e < now w0 + 1000 * JWT_EXPIRE cfg0).
Proof. exact (session_token_expiry_instant cfg0 (hydrate true alice) 200 w0 _ alice_session_outcome). Defined.

Lemma authenticated_updatePassword_witness :
  exists id r2, protect (jar_send (jar_store login_ok_response None) (now w0)) w0 = (Ret (inr id), w0) /\
    updatePassword cfg0 (authenticate (rq_login "a@x.io" "pw1") id) w0 = (Ret r2, w0) /\
    body_json r2 = Some (JObj [("success", JBool true); ("token", JToken (ts_issue id (now w0)))]).
Proof.
  apply (authenticated_updatePassword cfg0 (rq_login "a@x.io" "pw1") _ w0 _ w0 login_ok_outcome).
  - by_decide.
  - split; [reflexivity|]. vm_compute. reflexivity.
  - vm_compute. discriminate.
  - reflexivity.
  - reflexivity.
Defined.
End Witnesses.
