(* ===== verification/Invariants.v ===== *)
(** * Invariants: well-formed stores over every reachable world

    The credential routes as one step relation on worlds: a step serves
    any request of any credential handler, lets the clock advance, or
    lets the environment choose a new fault schedule for the store.  The
    reachable worlds are the reflexive-transitive closure of the steps.
    The invariant [store_ok] (unique ids; an expiry only beside a token
    digest; every stored password a bcrypt hash) holds in every world
    reachable from one where it holds, by induction on the steps, from
    the cases of the store each handler may leave. *)

From stdpp Require Import base list strings.
From Stdlib Require Import ZArith String Lia.
From S2P Require Import Prelude Crypto Jwt UserModel Http Fixtures Auth Crud AuthProps.
Open Scope string_scope.
Open Scope Z_scope.
Local Open Scope st_scope.

(** The requests of the credential routes. *)
Inductive AuthReq :=
| RLogin (r : Req)
| RForgot (r : Req)
| RReset (r : Req)
| RUpdatePassword (r : Req)
| RLogout (r : Req).

(** The requests of all the routes. *)
Inductive Request :=
| RAuth (a : AuthReq)
| RGetUsers (r : Req)
| RPostUser (r : Req)
| RDeleteUsers (r : Req)
| RGetUser (r : Req)
| RUpdateUser (r : Req)
| RDeleteUser (r : Req).

Definition set_faults (fs : list bool) (w : World) : World :=
  mkWorld (db w) (now w) (rng w) (rng_ctr w) fs.

(** Unique ids survive an append of a fresh id and any removal. *)
Lemma ids_snoc (l : list User) u :
  NoDup (_id <$> l) -> _id u ∉ _id <$> l -> NoDup (_id <$> (l ++ [u])%list).
Proof.
  intros Hnd Hu. rewrite fmap_app. apply NoDup_app. split_and!; [done| |].
  - intros x Hx [-> | Hx']%elem_of_cons; [done|by inversion Hx'].
  - apply NoDup_singleton.
Qed.

Lemma ids_filter (P : User -> bool) (l : list User) :
  NoDup (_id <$> l) -> NoDup (_id <$> filter P l).
Proof.
  intros Hnd. apply (sublist_NoDup _ (_id <$> l)); [done|].
  apply fmap_sublist, sublist_filter.
Qed.

(** Record-wise invariants. *)
Definition expiry_has_token (u : User) : Prop :=
  resetPasswordExpire u <> None -> resetPasswordToken u <> None.

Definition password_hashed `{PasswordHasher} (u : User) : Prop :=
  forall h, password u = Some h -> exists p salt, h = bcrypt_hash p salt.

Definition store_ok `{PasswordHasher} (l : list User) : Prop :=
  NoDup (_id <$> l) /\ Forall expiry_has_token l /\ Forall password_hashed l.

(** ** Steps and reachable worlds, for any router *)

Section Reach.
Variable R : Type.
Variable serve : R -> ST World Response.

(** A step serves any request, lets the clock advance, or lets the
    environment choose a new fault schedule. *)
Inductive step : World -> World -> Prop :=
| step_request a w : step w (final (serve a) w)
| step_tick dt w : 0 <= dt -> step w (tick dt w)
| step_faults fs w : step w (set_faults fs w).

Inductive reachable (w0 : World) : World -> Prop :=
| reach_init : reachable w0 w0
| reach_step w w' : reachable w0 w -> step w w' -> reachable w0 w'.

(** A property of the store that every request keeps, holds over every
    reachable world. *)
Lemma reachable_ind_db (P : list User -> Prop) w0 w :
  (forall a w, P (db w) -> P (db (final (serve a) w))) ->
  P (db w0) -> reachable w0 w -> P (db w).
Proof.
  intros Hserve H0 Hr. induction Hr as [|w w' _ IH Hs]; [done|].
  destruct Hs as [a w|dt w _|fs w]; [by apply Hserve|done|done].
Qed.
End Reach.

Arguments step {R} serve.
Arguments reachable {R} serve.
Arguments reach_init {R serve w0}.
Arguments reach_step {R serve w0} w w'.

Section Steps.
Context `{PasswordHasher} `{Digest} `{TokenSigner}.
Context (cfg : Config).
Local Arguments sendTokenResponse : simpl never.
Local Arguments replace_by_id : simpl never.
Local Arguments save : simpl never.

(** The router of the credential routes. *)
Definition handle (a : AuthReq) : ST World Response :=
  match a with
  | RLogin r => login cfg r
  | RForgot r => forgotPassword r
  | RReset r => resetPassword cfg r
  | RUpdatePassword r => updatePassword cfg r
  | RLogout r => logout r
  end.

(** Replacing a record by one with its id that satisfies the record
    invariants keeps the store well formed. *)
Lemma store_ok_replace (l : list User) u' :
  store_ok l -> expiry_has_token u' -> password_hashed u' -> store_ok (replace_by_id u' l).
Proof.
  intros (Hnd & He & Hp) He' Hp'. split_and!.
  - by rewrite replace_by_id_ids.
  - by apply replace_by_id_Forall.
  - by apply replace_by_id_Forall.
Qed.

(** [login] changes nothing. *)
Lemma login_final req w : final (login cfg req) w = w.
Proof.
  unfold login, final. destruct (negb _ || negb _); [done|].
  unfold findOne_email. rewrite find_with_run.
  destruct (find_first _ _) as [u|]; simpl; [|done].
  unfold matchPassword. destruct (in_password (body req)) as [q|]; simpl; [|done].
  destruct (password u) as [h|]; simpl; [|done].
  destruct (bcrypt_compare q h); st_simp; [|done]. apply sendTokenResponse_final.
Qed.

(** The stores [forgotPassword] may leave, under any fault schedule:
    unchanged, the found record with a new token, or with both reset
    fields cleared. *)
Lemma forgotPassword_db req w :
  NoDup (_id <$> db w) ->
  db (final (forgotPassword req) w) = db w \/
  exists u, u ∈ db w /\
    (db (final (forgotPassword req) w) =
       replace_by_id (issue_reset u (rng w (rng_ctr w)) (now w)) (db w) \/
     db (final (forgotPassword req) w) = replace_by_id (clear_reset u) (db w)).
Proof.
  intros Hnd. destruct (find_first (email_is (in_email (body req))) (db w)) as [u|] eqn:Hf;
    [|left; unfold forgotPassword, final, findOne_email; by rewrite find_with_run, Hf].
  pose proof (find_first_Some _ _ _ Hf) as [_ Hin].
  pose proof (find_first_id_unique _ _ Hnd Hin) as Hid.
  unfold final. rewrite (forgotPassword_found _ _ _ Hf).
  set (tok := rng w (rng_ctr w)). set (w1 := mkWorld (db w) (now w) (rng w) (S (rng_ctr w)) (faults w)).
  unfold st_catch, st_bind.
  destruct (modified (forgot_doc u tok (now w))) eqn:Hm;
    [left; by rewrite (save_clean false _ w1 Hm)|].
  rewrite (save_no_password_faults false (forgot_doc u tok (now w)) w1 u
             (forgot_doc_password _ _ _) ltac:(by rewrite Hm) Hid).
  destruct (rollback_doc_facts u tok (now w)) as (Hpw2 & Hm2 & Hmerge).
  unfold w1. cbn [faults]. destruct (hd false (faults w)).
  - fold (rollback_doc u tok (now w)).
    rewrite (save_no_password_faults false (rollback_doc u tok (now w))
               (mkWorld (db w) (now w) (rng w) (S (rng_ctr w)) (tl (faults w))) u Hpw2 Hm2 Hid).
    rewrite Hmerge. cbn [faults]. destruct (hd false (tl (faults w))); [by left|].
    right. exists u. by split; [|right].
  - right. exists u. split; [done|left]. by rewrite forgot_doc_merge.
Qed.

(** The stores [resetPassword] may leave: unchanged, or the found
    record with a new password hash and no expiry. *)
Lemma resetPassword_db req w :
  NoDup (_id <$> db w) ->
  db (final (resetPassword cfg req) w) = db w \/
  exists u rt p salt, q_resetToken (query req) = Some rt /\ in_password (body req) = Some p /\
    reset_matches (sha256_hex rt) (now w) u = true /\ u ∈ db w /\
    db (final (resetPassword cfg req) w) = replace_by_id (reset_record u p salt) (db w).
Proof.
  intros Hnd. destruct (q_resetToken (query req)) as [rt|] eqn:Hq;
    [|left; unfold resetPassword, final; by rewrite Hq].
  destruct (find_first (reset_matches (sha256_hex rt) (now w)) (db w)) as [u|] eqn:Hf;
    [|left; unfold final; by rewrite (resetPassword_unmatched _ _ _ _ Hq Hf)].
  destruct (truthy (in_password (body req))) eqn:Ht;
    [|left; unfold final; by rewrite (resetPassword_no_password _ _ _ _ _ Hq Ht Hf)].
  destruct (truthy_Some _ Ht) as (p & Hp & Hne).
  pose proof (find_first_Some _ _ _ Hf) as [Hm Hin]. unfold final.
  rewrite (resetPassword_found_run _ _ _ _ _ _ Hq Hp Hne Hf Hnd).
  destruct (hd false (faults w)); [by left|]. right.
  exists u, rt, p, (rng w (rng_ctr w)). split_and!; try done. by rewrite sendTokenResponse_final_db.
Qed.

(** Every handler keeps the store well formed. *)
Lemma handle_store_ok a w : store_ok (db w) -> store_ok (db (final (handle a) w)).
Proof.
  intros Hok. pose proof Hok as (Hnd & He & Hp).
  assert (Hu : forall u, u ∈ db w -> expiry_has_token u /\ password_hashed u)
    by (intros u Hu; rewrite Forall_forall in He, Hp; auto).
  destruct a as [r|r|r|r|r]; simpl.
  - by rewrite login_final.
  - destruct (forgotPassword_db r w Hnd) as [->|(u & Hin & [-> | ->])]; [done| |];
      destruct (Hu u Hin) as [_ Hpu]; apply store_ok_replace; try done;
      first [exact Hpu | intros Hc; exfalso; apply Hc; reflexivity].
  - destruct (resetPassword_db r w Hnd) as [->|(u & rt & p & salt & _ & _ & _ & Hin & ->)]; [done|].
    apply store_ok_replace; [done| |].
    + intros Hc. exfalso. apply Hc. reflexivity.
    + intros h Hh. unfold reset_record in Hh. destruct u; simpl in Hh. injection Hh as <-. eauto.
  - by rewrite updatePassword_final.
  - done.
Qed.

(** C17. In every world reachable from one whose store is well formed
    (through any credential requests, clock ticks and fault schedules),
    ids are unique, every stored expiry sits beside a token digest, and
    every stored password is a bcrypt hash. *)
Theorem reachable_store_ok w0 w :
  store_ok (db w0) -> reachable handle w0 w -> store_ok (db w).
Proof. apply reachable_ind_db. intros a w'. apply handle_store_ok. Qed.

(** ** All the routes *)

(** The router of every route of the controller. *)
Definition serve (q : Request) : ST World Response :=
  match q with
  | RAuth a => handle a
  | RGetUsers r => getUsers r
  | RPostUser r => postUser cfg r
  | RDeleteUsers r => deleteUsers r
  | RGetUser r => getUser r
  | RUpdateUser r => updateUser r
  | RDeleteUser r => deleteUser r
  end.

Lemma handle_ids a w : NoDup (_id <$> db w) -> NoDup (_id <$> db (final (handle a) w)).
Proof.
  intros Hnd. destruct a as [r|r|r|r|r]; simpl.
  - by rewrite login_final.
  - destruct (forgotPassword_db r w Hnd) as [->|(u & _ & [-> | ->])];
      rewrite ?replace_by_id_ids; done.
  - destruct (resetPassword_db r w Hnd) as [->|(u & rt & p & salt & _ & _ & _ & _ & ->)];
      rewrite ?replace_by_id_ids; done.
  - by rewrite updatePassword_final.
  - done.
Qed.

Lemma serve_ids q w : NoDup (_id <$> db w) -> NoDup (_id <$> db (final (serve q) w)).
Proof.
  intros Hnd. destruct q as [a|r|r|r|r|r|r]; simpl.
  - by apply handle_ids.
  - by rewrite getUsers_final.
  - destruct (postUser_db cfg r w) as [->|(u & Hu & ->)]; [done|].
    apply ids_snoc; [done|]. rewrite Hu. apply fresh_id_not_in.
  - by destruct (deleteUsers_db r w) as [-> | ->]; [|constructor].
  - unfold final. by rewrite getUser_run.
  - by destruct (updateUser_db r w) as [->|(u & ->)]; rewrite ?replace_by_id_ids.
  - destruct (deleteUser_db r w) as [-> | ->]; [done|by apply ids_filter].
Qed.

(** C27. Every response the controller answers with, on any route,
    request and world, is well formed: a 200 or 201 status, a JSON body
    and a [Content-Type] header; every other outcome is a thrown
    error. *)
Theorem serve_responses_wf q w r :
  outcome (serve q) w = Ret r -> resp_wf r.
Proof.
  unfold outcome. destruct (serve q w) as [e w'] eqn:E. simpl. intros ->.
  revert E. apply (ret_spec_weaken resp_wf); [done|].
  destruct q as [[a|a|a|a|a]|r'|r'|r'|r'|r'|r']; simpl;
    auto using login_wf, forgotPassword_wf, resetPassword_wf, updatePassword_wf, logout_wf,
               getUsers_wf, postUser_wf, deleteUsers_wf, getUser_wf, updateUser_wf, deleteUser_wf.
Qed.

(** C20. No response of the credential routes carries a stored record,
    in its body or in its cookies, so no password hash leaves them
    (spec section 3): they answer with messages and session tokens,
    unlike [getUsers], whose [?password=] returns every stored hash. *)
Theorem handle_no_records a w r :
  outcome (handle a) w = Ret r -> resp_docs r = [].
Proof.
  unfold outcome. destruct (handle a w) as [e w'] eqn:E. simpl. intros ->. revert E.
  destruct a as [req|req|req|req|req]; simpl;
    [apply login_docs|apply forgotPassword_docs|apply resetPassword_docs|apply updatePassword_docs
    |apply logout_docs].
Qed.

End Steps.

(** ** Witness: the fixture store is well formed, and stays so after a
    reset token was issued. *)

Section Witnesses.
Import ToyCrypto.
#[local] Existing Instance signer0.

Lemma store_ok_w0 : store_ok (db w0).
Proof.
  split_and!.
  - by_decide.
  - repeat constructor; intros Hc; exfalso; apply Hc; reflexivity.
  - repeat constructor; intros h Hh; injection Hh as <-; eexists _, _; reflexivity.
Qed.

Lemma reachable_store_ok_witness :
  store_ok (db (final (handle cfg0 (RForgot (rq_forgot "a@x.io"))) w0)).
Proof.
  apply (reachable_store_ok cfg0 w0); [exact store_ok_w0|].
  eapply reach_step; [apply reach_init|apply (step_request _ (handle cfg0))].
Defined.

Lemma serve_responses_wf_witness :
  resp_wf (json_200 "application/json" (JDoc (with_password None alice))).
Proof.
  apply (serve_responses_wf cfg0 (RGetUser (rq_params 1%N empty_input)) w0).
  vm_compute. reflexivity.
Defined.

(** alice's login answers with her session, and no record. *)
Definition login_response : Response :=
  match outcome (handle cfg0 (RLogin (rq_login "a@x.io" "pw1"))) w0 with
  | Ret r => r
  | Throw _ => res0
  end.

Lemma handle_no_records_witness :
  outcome (handle cfg0 (RLogin (rq_login "a@x.io" "pw1"))) w0 = Ret login_response /\
  resp_docs login_response = [].
Proof.
  assert (E : outcome (handle cfg0 (RLogin (rq_login "a@x.io" "pw1"))) w0 = Ret login_response)
    by (vm_compute; reflexivity).
  split; [exact E|exact (handle_no_records cfg0 _ _ _ E)].
Defined.
End Witnesses.
