(* ===== verification/Lifecycle.v ===== *)
(** * Lifecycle: the credential state machine of the spec and its refinement

    Spec sections 3, 4.3 and 4.4 describe each user's credential as an
    abstract record (identity, password hash, an optional outstanding
    reset token with its expiry) and the transitions the credential
    service may make on it: issue a reset token (any state to "reset
    pending", overwriting an older token), consume a pending unexpired
    token together with a new password hash, clear the token on a
    failed request (rollback); login, logout and the password update
    change no stored state.  This file states that machine as a
    labelled step relation [cred_step] on [Cred], lifts it to the
    abstract store with its clock ([astep]), and proves that the
    handlers of [Auth] refine it: [cred_of] maps each stored [User] to
    its abstract credential, and every credential request leaves the
    abstract store unchanged or makes one transition of a kind its
    route allows ([route_allows]), at the instant of the request; over
    every run of the sequential server the abstract stores follow a run
    of the machine (a simulation in the style of a compiler's
    simulation diagram).

    The abstraction reads a record as "reset pending" exactly when it
    holds both a digest and an expiry: the query of [resetPassword]
    matches a record exactly when its abstract state is pending with
    that digest and a later expiry ([reset_matches_pending]), so the
    record the code leaves after a reset (the digest without an expiry,
    [AuthProps]) is, to every later request, a record without a token. *)

From stdpp Require Import base list strings relations.
From Stdlib Require Import ZArith String Lia.
From S2P Require Import Prelude Crypto Jwt UserModel Http Fixtures Auth AuthProps Invariants.
Open Scope string_scope.
Open Scope Z_scope.
Local Open Scope st_scope.

(** ** The abstract machine of spec sections 3 and 4.4 *)

(** The reset fields of a credential: none, or a digest with its expiry. *)
Inductive ResetState :=
| NoReset
| Pending (h : string) (e : Z).

(** A user credential (spec section 3). *)
Record Cred := mkCred {
  c_id : ObjectId;
  c_pw : option string;
  c_reset : ResetState
}.

(** The abstract store: the clock and the credentials in store order. *)
Record AState := mkAState {
  a_now : Z;
  a_creds : list Cred
}.

(** The transitions of a credential: [issueResetToken] with the
    plaintext token drawn, [consumeResetToken] with the presented token,
    the new password and the salt of its hash, the rollback clear. *)
Inductive Label :=
| LIssue (tok : string)
| LConsume (tok p salt : string)
| LClear.

(** The reset window of section 4.3 (ten minutes, in milliseconds). *)
Definition reset_window : Z := 10 * 60 * 1000.

Definition set_reset (r : ResetState) (c : Cred) : Cred := mkCred (c_id c) (c_pw c) r.

Section Machine.
Context `{PasswordHasher} `{Digest}.

(** One transition of a credential at instant [t]. *)
Inductive cred_step (t : Z) : Label -> Cred -> Cred -> Prop :=
| cs_issue tok c :
    cred_step t (LIssue tok) c (set_reset (Pending (sha256_hex tok) (t + reset_window)) c)
| cs_consume tok p salt c e :
    c_reset c = Pending (sha256_hex tok) e -> t < e ->
    cred_step t (LConsume tok p salt) c (mkCred (c_id c) (Some (bcrypt_hash p salt)) NoReset)
| cs_clear c :
    cred_step t LClear c (set_reset NoReset c).

(** The abstract store moves by one credential's transition, or its
    clock moves forward. *)
Inductive astep : AState -> AState -> Prop :=
| astep_cred t cs i c l c' :
    cs !! i = Some c -> cred_step t l c c' -> astep (mkAState t cs) (mkAState t (<[i:=c']> cs))
| astep_tick t dt cs :
    0 <= dt -> astep (mkAState t cs) (mkAState (t + dt) cs).
End Machine.

(** The transitions each credential route may make (section 4.4):
    [forgotPassword] issues or rolls back, [resetPassword] consumes the
    token of its query with the password of its body, the other routes
    make none. *)
Definition route_allows (a : AuthReq) (l : Label) : Prop :=
  match a, l with
  | RForgot _, LIssue _ => True
  | RForgot _, LClear => True
  | RReset r, LConsume tok p _ => q_resetToken (query r) = Some tok /\ in_password (body r) = Some p
  | _, _ => False
  end.

(** ** The abstraction of the stored records *)

Definition cred_of (u : User) : Cred :=
  mkCred (_id u) (password u)
    (match resetPasswordToken u, resetPasswordExpire u with
     | Some h, Some e => Pending h e
     | _, _ => NoReset
     end).

Definition abs (w : World) : AState := mkAState (now w) (cred_of <$> db w).

(** What one request may do to the abstract store: nothing, or one
    transition its route allows, at the instant of the request. *)
Definition refines_step `{PasswordHasher} `{Digest} (a : AuthReq) (s s' : AState) : Prop :=
  s' = s \/
  exists l i c c', route_allows a l /\ a_creds s !! i = Some c /\
    cred_step (a_now s) l c c' /\ s' = mkAState (a_now s) (<[i:=c']> (a_creds s)).

(** ** A generic simulation: a step of the server matched by steps of a machine *)

Section Simulation.
Context {R C : Type} (serve : R -> ST World Response) (mstep : C -> C -> Prop).
Variable inv : World -> C -> Prop.
Hypothesis simulation :
  forall w w' c, step serve w w' -> inv w c -> exists c', rtc mstep c c' /\ inv w' c'.

Lemma reachable_simulation w0 c0 w :
  reachable serve w0 w -> inv w0 c0 -> exists c, rtc mstep c0 c /\ inv w c.
Proof.
  intros Hr Hi. induction Hr as [|w w' _ IH Hs]; [by exists c0|].
  destruct IH as (c & Hc & Hic). destruct (simulation _ _ _ Hs Hic) as (c' & Hc' & Hic').
  exists c'. split; [by etrans|done].
Qed.
End Simulation.

(** ** The clock: a request runs at one instant *)

Definition clock_at (t : Z) (w : World) : Prop := now w = t.

Create HintDb clock.

Section Clock.
Context `{PasswordHasher} `{Digest} `{TokenSigner}.
Context (cfg : Config) (t : Z).

Lemma clock_find_with sel p : keeps (clock_at t) (find_with sel p).
Proof. by apply keeps_same. Qed.

Lemma clock_findOne_email sel e : keeps (clock_at t) (findOne_email sel e).
Proof. apply clock_find_with. Qed.

Lemma clock_findById sel i : keeps (clock_at t) (findById sel i).
Proof. apply clock_find_with. Qed.

Lemma clock_findOne_reset h t' : keeps (clock_at t) (findOne_reset h t').
Proof. apply clock_find_with. Qed.

Lemma clock_date_now : keeps (clock_at t) date_now.
Proof. by apply keeps_same. Qed.

Lemma clock_draw_random : keeps (clock_at t) draw_random.
Proof. by intros w Hw. Qed.

Lemma clock_res_cookie n v e ho sec r : keeps (clock_at t) (res_cookie n v e ho sec r).
Proof. unfold res_cookie. repeat keeps_step. Qed.

(** The write only replaces the store and consumes a fault. *)
Lemma clock_write_modified d : keeps (clock_at t) (write_modified d).
Proof.
  intros w Hw. unfold write_modified, next_write_fails. st_unfold.
  by repeat (case_match; simplify_eq/=).
Qed.

#[local] Hint Resolve clock_findOne_email clock_findById clock_findOne_reset clock_date_now
  clock_draw_random clock_res_cookie clock_write_modified keeps_ret keeps_throw : clock.

Lemma clock_save v d : keeps (clock_at t) (save v d).
Proof. unfold save, pre_save. repeat keeps_step; auto with clock. Qed.

Lemma clock_getResetPasswordToken d : keeps (clock_at t) (getResetPasswordToken d).
Proof. unfold getResetPasswordToken. repeat keeps_step; auto with clock. Qed.

Lemma clock_matchPassword d e : keeps (clock_at t) (matchPassword d e).
Proof. unfold matchPassword. repeat keeps_step; auto with clock. Qed.

Lemma clock_sendTokenResponse d sc : keeps (clock_at t) (sendTokenResponse cfg d sc).
Proof. unfold sendTokenResponse, getSignedJwtToken. repeat keeps_step; auto with clock. Qed.

#[local] Hint Resolve clock_save clock_getResetPasswordToken clock_matchPassword
  clock_sendTokenResponse : clock.

Lemma clock_handle a : keeps (clock_at t) (handle cfg a).
Proof.
  destruct a as [r|r|r|r|r]; simpl;
    [unfold login|unfold forgotPassword|unfold resetPassword|unfold updatePassword|unfold logout];
    repeat keeps_step; auto with clock.
Qed.
End Clock.

Lemma handle_now `{PasswordHasher} `{Digest} `{TokenSigner} cfg a w :
  now (final (handle cfg a) w) = now w.
Proof. by apply (clock_handle cfg (now w) a w). Qed.

(** ** The abstraction and the handlers' stores *)

(** The query of [resetPassword] matches a record exactly when its
    abstract credential is pending with that digest and expires later. *)
Lemma reset_matches_pending h t u :
  reset_matches h t u = true <-> exists e, c_reset (cred_of u) = Pending h e /\ t < e.
Proof.
  unfold reset_matches, cred_of. simpl.
  destruct (resetPasswordToken u) as [h'|], (resetPasswordExpire u) as [e|]; simpl;
    rewrite ?andb_false_r, ?andb_true_iff, ?bool_decide_eq_true, ?Z.ltb_lt; split;
    try (intros (? & [=] & _); fail); try (intros [[=] _]; fail); try (intros [=]; fail).
  - intros [[= ->] He]. by exists e.
  - by intros (? & [= -> ->] & He).
Qed.

(** With unique ids, replacing the record with the id of the [i]-th
    one is the list update at [i]. *)
Lemma replace_by_id_insert (l : list User) i u u' :
  NoDup (_id <$> l) -> l !! i = Some u -> _id u' = _id u -> replace_by_id u' l = <[i:=u']> l.
Proof.
  intros Hnd Hi Hid. apply list_eq. intros j. unfold replace_by_id.
  change (map ?f l) with (f <$> l). rewrite list_lookup_fmap.
  destruct (decide (i = j)) as [<-|Hne].
  - rewrite Hi, list_lookup_insert_eq; [|by eapply lookup_lt_Some].
    simpl. unfold id_is. by rewrite bool_decide_true.
  - rewrite list_lookup_insert_ne by done. destruct (l !! j) as [v|] eqn:Hj; [|done]. simpl.
    unfold id_is. rewrite bool_decide_false; [done|]. intros Hv. apply Hne.
    apply (NoDup_lookup _ _ _ (_id u) Hnd); rewrite list_lookup_fmap; [by rewrite Hi|].
    rewrite Hj. simpl. by rewrite Hv, Hid.
Qed.

(** A request that replaces a stored record by one with its id makes
    the transition between their abstractions, when its route allows
    it. *)
Lemma refines_replace `{PasswordHasher} `{Digest} a l w u u' :
  NoDup (_id <$> db w) -> u ∈ db w -> _id u' = _id u -> route_allows a l ->
  cred_step (now w) l (cred_of u) (cred_of u') ->
  refines_step a (abs w) (mkAState (now w) (cred_of <$> replace_by_id u' (db w))).
Proof.
  intros Hnd Hin Hid Ha Hs. apply list_elem_of_lookup_1 in Hin as [i Hi].
  right. exists l, i, (cred_of u), (cred_of u'). split_and!; [done| |done|].
  - simpl. by rewrite list_lookup_fmap, Hi.
  - by rewrite (replace_by_id_insert _ i u u'), list_fmap_insert.
Qed.

Section Transitions.
Context `{PasswordHasher} `{Digest}.

Lemma issue_reset_step u tok t :
  cred_step t (LIssue tok) (cred_of u) (cred_of (issue_reset u tok t)).
Proof. destruct u. apply cs_issue. Qed.

Lemma clear_reset_step u t : cred_step t LClear (cred_of u) (cred_of (clear_reset u)).
Proof. destruct u. apply cs_clear. Qed.

(** A matched record steps by a consume to the record a reset leaves. *)
Lemma reset_record_step u tok p salt t :
  reset_matches (sha256_hex tok) t u = true ->
  cred_step t (LConsume tok p salt) (cred_of u) (cred_of (reset_record u p salt)).
Proof.
  intros (e & He & Ht)%reset_matches_pending.
  replace (cred_of (reset_record u p salt)) with
    (mkCred (c_id (cred_of u)) (Some (bcrypt_hash p salt)) NoReset)
    by (destruct u as [? ? ? ? ? ? ? [] ?]; reflexivity).
  by eapply cs_consume.
Qed.
End Transitions.

(** ** Refinement *)

Section Refinement.
Context `{PasswordHasher} `{Digest} `{TokenSigner}.
Context (cfg : Config).

Lemma logout_final req w : final (logout req) w = w.
Proof. reflexivity. Qed.

(** The case analysis behind [handle_refines], shared with the
    simulation below. *)
Lemma request_refines a w :
  NoDup (_id <$> db w) -> refines_step a (abs w) (abs (final (handle cfg a) w)).
Proof.
  intros Hnd. unfold abs at 2. rewrite handle_now.
  destruct a as [r|r|r|r|r]; cbn [handle].
  - rewrite login_final. by left.
  - destruct (forgotPassword_db r w Hnd) as [->|(u & Hin & [-> | ->])]; [by left| |].
    + apply (refines_replace _ (LIssue (rng w (rng_ctr w))) w u);
        [done|done|by destruct u|done|apply issue_reset_step].
    + apply (refines_replace _ LClear w u); [done|done|by destruct u|done|apply clear_reset_step].
  - destruct (resetPassword_db cfg r w Hnd) as [->|(u & rt & p & salt & Hq & Hp & Hm & Hin & ->)];
      [by left|].
    eapply refines_replace; [done|exact Hin|by destruct u| |by apply reset_record_step].
    by split.
  - rewrite updatePassword_final. by left.
  - rewrite logout_final. by left.
Qed.

(** C13. Every credential request refines the credential machine of
    the spec: from a store with unique ids, [login], [updatePassword]
    and [logout] leave the abstract store as it was; [forgotPassword]
    leaves it, or issues the drawn token to one credential (a digest
    and an expiry ten minutes ahead, overwriting any older token), or
    clears that credential's token on its rollback; [resetPassword]
    leaves it, or consumes, on one credential holding the digest of
    the token of its query with an expiry still ahead, that token
    together with the password of its body, storing its hash and no
    token.  The clock does not move during a request. *)
Theorem handle_refines a w :
  NoDup (_id <$> db w) -> refines_step a (abs w) (abs (final (handle cfg a) w)).
Proof. apply request_refines. Qed.

(** The abstraction is matched by the machine at every step of the
    sequential server: a request by [handle_refines], a clock tick by
    a tick of the machine, a new fault schedule by no step. *)
Lemma step_refines w w' :
  step (handle cfg) w w' -> NoDup (_id <$> db w) ->
  rtc astep (abs w) (abs w') /\ NoDup (_id <$> db w').
Proof.
  intros [a w1|dt w1 Hdt|fs w1] Hnd.
  - split; [|by apply handle_ids].
    destruct (request_refines a w1 Hnd) as [->|(l & i & c & c' & _ & Hi & Hs & ->)]; [done|].
    apply rtc_once. by eapply astep_cred.
  - split; [|done]. apply rtc_once. by apply astep_tick.
  - by split.
Qed.

(** C14. Over every run of the sequential server of the credential
    routes (requests, clock ticks, fault schedules) from a store with
    unique ids, the abstract stores follow a run of the credential
    machine: the code never reaches a credential state the spec's
    machine cannot. *)
Theorem reachable_refines w0 w :
  NoDup (_id <$> db w0) -> reachable (handle cfg) w0 w -> rtc astep (abs w0) (abs w).
Proof.
  intros Hnd Hr.
  destruct (reachable_simulation (handle cfg) astep
              (fun w s => s = abs w /\ NoDup (_id <$> db w))
              ltac:(intros w1 w2 ? Hs [-> Hnd1]; destruct (step_refines w1 w2 Hs Hnd1) as [? ?];
                    eexists; split; [eassumption|done])
              w0 (abs w0) w Hr (conj eq_refl Hnd)) as (s & Hs & -> & _).
  exact Hs.
Qed.
End Refinement.

(** ** Witnesses: a reset token issued to alice, then consumed *)

Section Witnesses.
Import ToyCrypto.
#[local] Existing Instance signer0.

Definition w_issued : World := final (handle cfg0 (RForgot (rq_forgot "a@x.io"))) w0.

Definition w_consumed : World := final (handle cfg0 (RReset (rq_reset "t0" "new"))) w_issued.

Lemma handle_refines_witness :
  NoDup (_id <$> db w_issued) /\
  refines_step (RReset (rq_reset "t0" "new")) (abs w_issued) (abs w_consumed).
Proof. split; [by_decide|apply handle_refines; by_decide]. Defined.

Lemma reachable_refines_witness : rtc astep (abs w0) (abs w_consumed).
Proof.
  apply (reachable_refines cfg0 w0); [by_decide|].
  eapply reach_step; [eapply reach_step; [apply reach_init|]|]; apply (step_request _ (handle cfg0)).
Defined.
End Witnesses.
