(* ===== verification/Threads.v ===== *)
(** * Threads: requests in flight, interleaved at their [await]s

    Node runs an [async] handler until its first [await]; the rest of
    the handler is resumed when the awaited operation settles, while
    other requests run.  A request in flight is a [Thread]: finished
    with its outcome ([Done]), or suspended before a segment ([Await])
    that runs atomically on the world (the awaited store operation with
    the code around it up to the next [await]) and yields the rest of
    the thread.  A thread run alone ([run]) is a computation of the
    state monad, to be compared with the handler it splits.

    The server's configurations are a world and the threads in flight.
    The scheduler ([sched_step]) resumes any suspended thread; the
    environment ([cstep]) also lets a request arrive, the clock advance
    or the store's fault schedule change.  Two judgements on threads
    carry the theorems: [within n t] (every run of [t] finishes after
    at most [n] segments, whatever the worlds met) and [thread_keeps I t]
    (every segment of [t] keeps the state invariant [I]). *)

From stdpp Require Import base list relations.
From Stdlib Require Import ZArith String Lia.
From S2P Require Import Prelude UserModel Http Invariants.
Open Scope Z_scope.
Local Open Scope st_scope.
#[local] Set Warnings "-register-all".

(** ** Threads *)

Inductive Thread :=
| Done (o : Exc Response)
| Await (seg : ST World Thread).

(** The awaited operation [m], then the rest [k] on its value; a
    rejection of [m] finishes the thread with it. *)
Definition seg {X} (m : ST World X) (k : X -> Thread) : Thread :=
  Await (let* x := m in st_ret (k x)).

(** The last segment: its value is the response. *)
Definition tail (m : ST World Response) : Thread := seg m (fun r => Done (Ret r)).

(** One segment of a thread resumed in a world. *)
Definition resume_thread (m : ST World Thread) (w : World) : Thread * World :=
  match m w with
  | (Ret t, w') => (t, w')
  | (Throw e, w') => (Done (Throw e), w')
  end.

(** A thread run alone, segment after segment. *)
Fixpoint run (t : Thread) : ST World Response :=
  match t with
  | Done o => fun w => (o, w)
  | Await m => fun w =>
      match m w with
      | (Ret t', w') => run t' w'
      | (Throw e, w') => (Throw e, w')
      end
  end.

(** The thread that continues after a segment's outcome. *)
Definition cont {X} (e : Exc X) (k : X -> Thread) : Thread :=
  match e with Ret x => k x | Throw msg => Done (Throw msg) end.

Lemma resume_thread_seg {X} (m : ST World X) (k : X -> Thread) w :
  resume_thread (let* x := m in st_ret (k x)) w = (cont (fst (m w)) k, snd (m w)).
Proof. unfold resume_thread, st_bind, st_ret. by destruct (m w) as [[x|e] w']. Qed.

Lemma run_seg {X} (m : ST World X) (k : X -> Thread) w :
  run (seg m k) w = st_bind m (fun x => run (k x)) w.
Proof. simpl. unfold st_bind, st_ret. by destruct (m w) as [[x|e] w']. Qed.

Lemma run_tail m w : run (tail m) w = m w.
Proof. unfold tail. rewrite run_seg. unfold st_bind. by destruct (m w) as [[x|e] w']. Qed.

Lemma run_await m w : run (Await m) w = st_bind m run w.
Proof. reflexivity. Qed.

(** ** Bounded threads

    [within n t]: every run of [t] finishes after at most [n]
    segments, whatever the worlds its segments meet. *)

Inductive within : nat -> Thread -> Prop :=
| within_done n o : within n (Done o)
| within_await n m :
    (forall w t w', m w = (Ret t, w') -> within n t) -> within (S n) (Await m).

Lemma within_seg {X} n (m : ST World X) (k : X -> Thread) :
  (forall x, within n (k x)) -> within (S n) (seg m k).
Proof. intros Hk. constructor. apply ret_spec_bind. intros x. by apply ret_spec_ret. Qed.

Lemma within_tail n m : within (S n) (tail m).
Proof. apply within_seg. constructor. Qed.

(** ** Threads that keep a state invariant *)

Section ThreadKeeps.
Variable I : World -> Prop.

(** Every segment keeps [I], and the threads it yields do. *)
Inductive thread_keeps : Thread -> Prop :=
| keeps_done o : thread_keeps (Done o)
| keeps_await m : keeps I m ->
    (forall w t w', m w = (Ret t, w') -> thread_keeps t) -> thread_keeps (Await m).

Lemma thread_keeps_seg {X} (m : ST World X) (k : X -> Thread) :
  keeps I m -> (forall x, thread_keeps (k x)) -> thread_keeps (seg m k).
Proof.
  intros Hm Hk. constructor.
  - apply keeps_bind; [done|]. intros x. apply keeps_ret.
  - apply ret_spec_bind. intros x. by apply ret_spec_ret.
Qed.

Lemma thread_keeps_tail m : keeps I m -> thread_keeps (tail m).
Proof. intros Hm. apply thread_keeps_seg; [done|constructor]. Qed.

Lemma thread_keeps_await m :
  keeps I m -> ret_spec thread_keeps m -> thread_keeps (Await m).
Proof. by constructor. Qed.

(** A resumed segment keeps [I] and yields a thread that keeps it. *)
Lemma thread_keeps_resume m w :
  thread_keeps (Await m) -> I w -> I (snd (resume_thread m w)) /\ thread_keeps (fst (resume_thread m w)).
Proof.
  inversion 1 as [|m' Hm Hk]; subst. intros Hw. unfold resume_thread.
  specialize (Hm w Hw). destruct (m w) as [[t'|e] w'] eqn:E; simpl in *.
  - split; [done|]. exact (Hk _ _ _ E).
  - split; [done|constructor].
Qed.
End ThreadKeeps.

(** ** The server *)

(** A configuration: the world and the threads in flight. *)
Definition Conf : Type := World * list Thread.

Section Server.
Variable R : Type.
Variable thread : R -> Thread.

(** The scheduler resumes any suspended thread in flight. *)
Inductive sched_step : Conf -> Conf -> Prop :=
| sched_resume i m w ts :
    ts !! i = Some (Await m) ->
    sched_step (w, ts) (snd (resume_thread m w), <[i := fst (resume_thread m w)]> ts).

(** A step of the server: the scheduler's, a request's arrival, the
    clock, or a new fault schedule of the store. *)
Inductive cstep : Conf -> Conf -> Prop :=
| cstep_sched c c' : sched_step c c' -> cstep c c'
| cstep_arrive a w ts : cstep (w, ts) (w, (ts ++ [thread a])%list)
| cstep_tick dt w ts : 0 <= dt -> cstep (w, ts) (tick dt w, ts)
| cstep_faults fs w ts : cstep (w, ts) (set_faults fs w, ts).
End Server.

Arguments cstep {R} thread.

(** The scheduler as a function: resume_thread the [i]-th thread if it is
    suspended. *)
Definition sched_at (i : nat) (c : Conf) : Conf :=
  match c.2 !! i with
  | Some (Await m) => (snd (resume_thread m c.1), <[i := fst (resume_thread m c.1)]> c.2)
  | _ => c
  end.

Definition awaiting (o : option Thread) : bool :=
  match o with Some (Await _) => true | _ => false end.

Lemma sched_at_step i c : awaiting (c.2 !! i) = true -> sched_step c (sched_at i c).
Proof.
  destruct c as [w ts]. unfold sched_at, awaiting. simpl.
  destruct (ts !! i) as [[o|m]|] eqn:E; [done| |done]. intros _. by apply sched_resume.
Qed.

(** ** State invariants over every schedule *)

Section Invariant.
Variable R : Type.
Variable thread : R -> Thread.
Variable I : World -> Prop.
Hypothesis thread_ok : forall a, thread_keeps I (thread a).
Hypothesis tick_ok : forall dt w, 0 <= dt -> I w -> I (tick dt w).
Hypothesis faults_ok : forall fs w, I w -> I (set_faults fs w).

Definition config_ok (c : Conf) : Prop := I c.1 /\ Forall (thread_keeps I) c.2.

Lemma sched_step_ok c c' : sched_step c c' -> config_ok c -> config_ok c'.
Proof.
  destruct 1 as [i m w ts Hi]. intros [Hw Hts]. simpl in *.
  destruct (thread_keeps_resume I m w) as [Hw' Ht']; [by eapply Forall_lookup_1|done|].
  split; [done|]. by apply Forall_insert.
Qed.

Lemma cstep_ok c c' : cstep thread c c' -> config_ok c -> config_ok c'.
Proof.
  destruct 1 as [c c' Hs|a w ts|dt w ts Hdt|fs w ts]; intros [Hw Hts]; simpl in *.
  - by apply (sched_step_ok c).
  - split; [done|]. apply Forall_app; split; [done|]. by apply Forall_singleton.
  - split; [by apply tick_ok|done].
  - split; [by apply faults_ok|done].
Qed.

Lemma rtc_cstep_ok c c' : rtc (cstep thread) c c' -> config_ok c -> config_ok c'.
Proof.
  induction 1 as [c|c1 c2 c3 Hs _ IH]; intros Hc; [done|].
  apply IH, (cstep_ok c1); done.
Qed.

End Invariant.

(** ** A thread run to its end by the scheduler *)

(** A thread resumed until it finishes, the others waiting, reaches the
    outcome and the world of its run alone. *)
Lemma sched_run_thread n t w ts i :
  within n t -> ts !! i = Some t ->
  rtc sched_step (w, ts) (snd (run t w), <[i := Done (fst (run t w))]> ts).
Proof.
  intros Hw. revert w ts. induction Hw as [n o|n m Hm IH]; intros w ts Hi.
  - simpl. by rewrite list_insert_id.
  - eapply rtc_l; [by apply sched_resume|]. unfold resume_thread. simpl.
    destruct (m w) as [[t'|e] w'] eqn:E; simpl.
    + rewrite <- (list_insert_insert_eq ts i (Done (fst (run t' w'))) t').
      apply (IH w t' w' E). apply list_lookup_insert_eq. by eapply lookup_lt_Some.
    + apply rtc_refl.
Qed.

Lemma within_await_spec n m : ret_spec (within n) m -> within (S n) (Await m).
Proof. by constructor. Qed.


(** ** Invariants under interference (rely-guarantee)

    A thread suspended in world [w0] is resumed in a world the other
    requests and the environment may have changed.  [rg_keeps w0 t]
    asks each segment of [t], resumed in any world [w] related to [w0]
    by the rely [Rl] and satisfying [I], to end in a world satisfying
    [I] and related to [w] by [Rl] (its guarantee to the others), and
    the rest of the thread to do the same from there. *)

Section RelyGuarantee.
Variable R : Type.
Variable thread : R -> Thread.
Variable I : World -> Prop.
Variable Rl : World -> World -> Prop.
Hypothesis Rl_refl : forall w, Rl w w.
Hypothesis Rl_trans : forall w1 w2 w3, Rl w1 w2 -> Rl w2 w3 -> Rl w1 w3.

Inductive rg_keeps : World -> Thread -> Prop :=
| rg_done w0 o : rg_keeps w0 (Done o)
| rg_await w0 m :
    (forall w, Rl w0 w -> I w ->
       I (snd (m w)) /\ Rl w (snd (m w)) /\
       (forall t w', m w = (Ret t, w') -> rg_keeps w' t)) ->
    rg_keeps w0 (Await m).

Lemma rg_seg {X} w0 (m : ST World X) (k : X -> Thread) :
  (forall w, Rl w0 w -> I w ->
     I (snd (m w)) /\ Rl w (snd (m w)) /\ (forall x w', m w = (Ret x, w') -> rg_keeps w' (k x))) ->
  rg_keeps w0 (seg m k).
Proof.
  intros Hm. constructor. intros w Hr Hw. destruct (Hm w Hr Hw) as (H1 & H2 & H3).
  unfold st_bind, st_ret. destruct (m w) as [[x|e] w'] eqn:E; simpl in *; split_and!; try done.
  intros t w'' [= <- <-]. by apply H3.
Qed.

(** A segment that leaves the world as it is. *)
Lemma rg_seg_same {X} w0 (m : ST World X) (k : X -> Thread) :
  (forall w, snd (m w) = w) ->
  (forall w x, Rl w0 w -> I w -> m w = (Ret x, w) -> rg_keeps w (k x)) ->
  rg_keeps w0 (seg m k).
Proof.
  intros Hs Hk. apply rg_seg. intros w Hr Hw. rewrite Hs. split_and!; [done|apply Rl_refl|].
  intros x w' E. pose proof (Hs w) as Hs'. rewrite E in Hs'. simpl in Hs'. subst w'.
  by apply Hk.
Qed.

Hypothesis thread_rg : forall a w, I w -> rg_keeps w (thread a).
Hypothesis tick_rg : forall dt w, 0 <= dt -> I w -> I (tick dt w) /\ Rl w (tick dt w).
Hypothesis faults_rg : forall fs w, I w -> I (set_faults fs w) /\ Rl w (set_faults fs w).

(** Every thread in flight was last resumed in a world the current one
    relies on. *)
Definition config_rg (c : Conf) : Prop :=
  I c.1 /\ Forall (fun t => exists w0, Rl w0 c.1 /\ rg_keeps w0 t) c.2.

Lemma config_rg_move w w' ts :
  Rl w w' -> Forall (fun t => exists w0, Rl w0 w /\ rg_keeps w0 t) ts ->
  Forall (fun t => exists w0, Rl w0 w' /\ rg_keeps w0 t) ts.
Proof.
  intros Hw Hts. apply (Forall_impl _ _ _ Hts). intros t (w0 & H0 & Ht). exists w0. split; [|done].
  by apply (Rl_trans _ w).
Qed.

Lemma cstep_rg c c' : cstep thread c c' -> config_rg c -> config_rg c'.
Proof.
  destruct 1 as [c c' [i m w ts Hi]|a w ts|dt w ts Hdt|fs w ts]; intros [Hw Hts]; simpl in *.
  - destruct (Forall_lookup_1 _ _ _ _ Hts Hi) as (w0 & H0 & Ht).
    inversion Ht as [|w0' m' Hm]; subst.
    destruct (Hm w H0 Hw) as (Hw' & Hr & Hk). unfold resume_thread.
    destruct (m w) as [[t'|e] w'] eqn:E; simpl in *; split; try done.
    + apply Forall_insert; [by apply (config_rg_move w)|].
      exists w'. split; [apply Rl_refl|]. by apply (Hk t').
    + apply Forall_insert; [by apply (config_rg_move w)|].
      exists w'. split; [apply Rl_refl|constructor].
  - split; [done|]. apply Forall_app. split; [done|]. apply Forall_singleton.
    exists w. split; [apply Rl_refl|]. by apply thread_rg.
  - destruct (tick_rg dt w Hdt Hw) as [Hw' Hr]. split; [done|]. by apply (config_rg_move w).
  - destruct (faults_rg fs w Hw) as [Hw' Hr]. split; [done|]. by apply (config_rg_move w).
Qed.

Lemma rtc_cstep_rg c c' : rtc (cstep thread) c c' -> config_rg c -> config_rg c'.
Proof.
  induction 1 as [c|c1 c2 c3 Hs _ IH]; intros Hc; [done|].
  apply IH, (cstep_rg c1); done.
Qed.
End RelyGuarantee.
