(* ===== verification/Server.v ===== *)
(** * Server: the controller's handlers as threads

    Each handler of [src/controllers/userController.js] split at its
    [await]s into the segments of a [Thread].  A segment is what runs
    from one resumption of the handler to the effect of its next
    awaited operation: the code before the [await] and the operation.
    The code after a handler's last [await] runs when that operation's
    promise settles, a turn of the event loop after the operation took
    effect, so other requests and the clock may move in between: when
    it reads the clock ([sendTokenResponse]) it is a segment of its own;
    when it only builds a JSON response it is kept in the segment of
    the operation, which changes nothing another request can observe.
    Each thread run alone is proved to be its handler (a check of the
    split, used to run the race schedules of [Races]); over every
    schedule of the server the store keeps its invariants. *)

From stdpp Require Import base list strings relations.
From Stdlib Require Import ZArith String Lia.
From S2P Require Import Prelude Crypto Jwt UserModel Http Fixtures Auth Crud AuthProps Concurrency Invariants Threads.
Open Scope string_scope.
Open Scope Z_scope.
Local Open Scope st_scope.

(** A segment inside [try]: a rejection of the operation, or of the
    code after it, goes to the [catch] block [h]. *)
Definition seg_catch {X} (m : ST World X) (k : X -> Thread) (h : string -> Thread) : Thread :=
  Await (st_catch (let* x := m in st_ret (k x)) (fun e => st_ret (h e))).

Section HandlerThreads.
Context `{PasswordHasher} `{Digest} `{TokenSigner}.
Context (cfg : Config).

(** [login]: the query, [matchPassword], then [sendTokenResponse]. *)
Definition login_thread (req : Req) : Thread :=
  let email := in_email (body req) in
  let pw := in_password (body req) in
  if negb (truthy email) || negb (truthy pw) then Done (Throw "Enter email and pw")
  else
    seg (findOne_email true email) (fun user =>
    match user with
    | None => Done (Throw "Invalid Credentials")
    | Some d =>
        seg (matchPassword d pw) (fun isMatch =>
        if negb isMatch then Done (Throw "Invalid Credential")
        else tail (sendTokenResponse cfg d 200))
    end).

(** The [catch] block of [forgotPassword]: clear both reset fields,
    save, rethrow. *)
Definition forgotPassword_rollback (d1 : Doc) : Thread :=
  Await (let d2 := assign_resetPasswordExpire None (assign_resetPasswordToken None d1) in
         let* _ := save false d2 in
         throw "FAILED TO SAVE PASSWORD TOKEN").

(** The segment of [forgotPassword] after its query: the token, then
    the [try]'s save, whose failure leads to the [catch] block. *)
Definition forgotPassword_token (d : Doc) : Thread :=
  Await (let* '(resetToken, d1) := getResetPasswordToken d in
         st_catch
           (let* _ := save false d1 in st_ret (Done (Ret (reset_issued_response resetToken))))
           (fun _ => st_ret (forgotPassword_rollback d1))).

(** [forgotPassword]: the query; the token and the [try]'s save; the
    [catch]'s save when the first one failed. *)
Definition forgotPassword_thread (req : Req) : Thread :=
  seg (findOne_email false (in_email (body req))) (fun user =>
  match user with
  | None => Done (Throw "NO USER FOUND")
  | Some d => forgotPassword_token d
  end).

(** [resetPassword]: the query, the save, then [sendTokenResponse]. *)
Definition resetPassword_thread (req : Req) : Thread :=
  match q_resetToken (query req) with
  | None => Done (Throw "The data argument must be of type string")
  | Some rt =>
      let resetPasswordToken := sha256_hex rt in
      seg (let* t := date_now in findOne_reset resetPasswordToken t) (fun user =>
      match user with
      | None => Done (Throw "Invalid Token")
      | Some d =>
          let d1 := assign_password (in_password (body req)) d in
          let d2 := assign_resetPasswordExpire None d1 in
          let d3 := assign_resetPasswordExpire None d2 in
          seg (save true d3) (fun d4 => tail (sendTokenResponse cfg d4 200))
      end)
  end.

(** [updatePassword]: the query, [matchPassword], the save, then
    [sendTokenResponse]. *)
Definition updatePassword_thread (req : Req) : Thread :=
  match req_user req with
  | None => Done (Throw "Cannot read properties of undefined (reading 'id')")
  | Some uid =>
      seg (findById true uid) (fun user =>
      match user with
      | None => Done (Throw "Invalid Credentials")
      | Some d =>
          seg (matchPassword d (in_password (body req))) (fun passwordMatches =>
          if negb passwordMatches then Done (Throw "Password is incorrect")
          else seg (save true d) (fun d1 => tail (sendTokenResponse cfg d1 200)))
      end)
  end.

(** [logout] awaits nothing: one segment. *)
Definition logout_thread (req : Req) : Thread := tail (logout req).

(** The [catch] block of [postUser]. *)
Definition postUser_error (m : string) : Thread := Done (Throw ("ERROR POSTING USER: " ++ m)).

(** [postUser]: [User.create], then [sendTokenResponse], both in its
    [try]. *)
Definition postUser_thread (req : Req) : Thread :=
  seg_catch (User_create (body req)) (fun user =>
    seg_catch (sendTokenResponse cfg user 201) (fun r => Done (Ret r)) postUser_error)
    postUser_error.

(** The threads of the credential routes. *)
Definition auth_thread (a : AuthReq) : Thread :=
  match a with
  | RLogin r => login_thread r
  | RForgot r => forgotPassword_thread r
  | RReset r => resetPassword_thread r
  | RUpdatePassword r => updatePassword_thread r
  | RLogout r => logout_thread r
  end.

(** The threads of every route; the other CRUD handlers await one
    store operation, after which they only build their response. *)
Definition serve_thread (q : Request) : Thread :=
  match q with
  | RAuth a => auth_thread a
  | RGetUsers r => tail (getUsers r)
  | RPostUser r => postUser_thread r
  | RDeleteUsers r => tail (deleteUsers r)
  | RGetUser r => tail (getUser r)
  | RUpdateUser r => tail (updateUser r)
  | RDeleteUser r => tail (deleteUser r)
  end.
End HandlerThreads.

(** ** Each thread run alone is its handler *)

Section Equivalence.
Context `{PasswordHasher} `{Digest} `{TokenSigner}.
Context (cfg : Config).
Local Arguments save : simpl never.
Local Arguments sendTokenResponse : simpl never.

Lemma login_thread_run req w : run (login_thread cfg req) w = login cfg req w.
Proof.
  unfold login_thread, login. destruct (_ || _); [done|].
  rewrite run_seg. apply st_bind_ext. intros [d|] w1; [|done].
  rewrite run_seg. apply st_bind_ext. intros b w2. destruct (negb b); [done|]. apply run_tail.
Qed.

(** The token segment and the [catch] block run alone are the write
    segment of [forgotPassword]. *)
Lemma forgotPassword_token_run req d w :
  run (forgotPassword_token d) w = forgotPassword_write req (Some d) w.
Proof.
  unfold forgotPassword_token, forgotPassword_write.
  rewrite run_await, st_bind_assoc. apply st_bind_ext. intros [tok d1] w2.
  unfold st_catch, st_bind, st_ret. destruct (save false d1 w2) as [[d'|e] w3]; [done|].
  simpl. unfold st_bind. by destruct (save false _ w3) as [[]].
Qed.

Lemma forgotPassword_thread_run req w : run (forgotPassword_thread req) w = forgotPassword req w.
Proof.
  unfold forgotPassword_thread. rewrite run_seg, forgotPassword_split.
  apply st_bind_ext. intros [d|] w1; [apply forgotPassword_token_run|done].
Qed.

Lemma resetPassword_thread_run req w : run (resetPassword_thread cfg req) w = resetPassword cfg req w.
Proof.
  unfold resetPassword_thread, resetPassword. destruct (q_resetToken (query req)); [|done].
  rewrite run_seg, st_bind_assoc. apply st_bind_ext. intros t w1.
  apply st_bind_ext. intros [d|] w2; [|done].
  rewrite run_seg. apply st_bind_ext. intros d4 w3. apply run_tail.
Qed.

Lemma updatePassword_thread_run req w :
  run (updatePassword_thread cfg req) w = updatePassword cfg req w.
Proof.
  unfold updatePassword_thread, updatePassword. destruct (req_user req); [|done].
  rewrite run_seg. apply st_bind_ext. intros [d|] w1; [|done].
  rewrite run_seg. apply st_bind_ext. intros b w2. destruct (negb b); [done|].
  rewrite run_seg. apply st_bind_ext. intros d1 w3. apply run_tail.
Qed.

Lemma postUser_thread_run req w : run (postUser_thread cfg req) w = postUser cfg req w.
Proof.
  unfold postUser_thread, postUser, seg_catch. simpl. unfold st_catch, st_bind, st_ret.
  destruct (User_create (body req) w) as [[u|e] w1]; [|done].
  cbn [run]. destruct (sendTokenResponse cfg u 201 w1) as [[r|e] w2]; reflexivity.
Qed.

Lemma auth_thread_run a w : run (auth_thread cfg a) w = handle cfg a w.
Proof.
  destruct a as [r|r|r|r|r]; cbn [auth_thread handle].
  - apply login_thread_run.
  - apply forgotPassword_thread_run.
  - apply resetPassword_thread_run.
  - apply updatePassword_thread_run.
  - apply run_tail.
Qed.
End Equivalence.

(** ** Store invariants kept by the operations *)

(** A property of the world that only depends on its store. *)
Definition on_db (P : list User -> Prop) (w : World) : Prop := P (db w).

(** Unique ids, and every stored password a bcrypt hash. *)
Definition creds_db `{PasswordHasher} (l : list User) : Prop :=
  NoDup (_id <$> l) /\ Forall password_hashed l.

Definition ids_db (l : list User) : Prop := NoDup (_id <$> l).

Create HintDb threads.

Section KeepsOps.
Context `{PasswordHasher} `{Digest} `{TokenSigner}.
Context (cfg : Config).
Variable P : list User -> Prop.

Lemma keeps_db_same {A} (m : ST World A) :
  (forall w, db (snd (m w)) = db w) -> keeps (on_db P) m.
Proof. intros Hm w Hw. unfold on_db. by rewrite Hm. Qed.

Lemma keeps_findOne_email sel e : keeps (on_db P) (findOne_email sel e).
Proof. by apply keeps_db_same. Qed.

Lemma keeps_findById sel id : keeps (on_db P) (findById sel id).
Proof. by apply keeps_db_same. Qed.

Lemma keeps_findOne_reset h t : keeps (on_db P) (findOne_reset h t).
Proof. by apply keeps_db_same. Qed.

Lemma keeps_date_now : keeps (on_db P) date_now.
Proof. by apply keeps_db_same. Qed.

Lemma keeps_matchPassword d e : keeps (on_db P) (matchPassword d e).
Proof. apply keeps_db_same. intros w. unfold matchPassword. by repeat case_match. Qed.

Lemma keeps_getResetPasswordToken d : keeps (on_db P) (getResetPasswordToken d).
Proof. by apply keeps_db_same. Qed.

Lemma keeps_sendTokenResponse d sc : keeps (on_db P) (sendTokenResponse cfg d sc).
Proof. apply keeps_db_same. intros w. by rewrite sendTokenResponse_final_db. Qed.

Lemma keeps_logout req : keeps (on_db P) (logout req).
Proof. by apply keeps_db_same. Qed.
End KeepsOps.

#[export] Hint Resolve keeps_findOne_email keeps_findById keeps_findOne_reset keeps_date_now
  keeps_matchPassword keeps_getResetPasswordToken keeps_sendTokenResponse keeps_logout
  keeps_ret keeps_throw : threads.

Section KeepsWrites.
Context `{PasswordHasher} `{Digest}.

(** A save keeps ids unique: it replaces a record by one with its id. *)
Lemma keeps_save_ids v d : keeps (on_db ids_db) (save v d).
Proof.
  intros w Hw. unfold on_db, ids_db in *.
  destruct (save_db v d w) as [Hdb|(s & pw & _ & Hdb & _)]; unfold final in Hdb; rewrite Hdb;
    [done|by rewrite replace_by_id_ids].
Qed.

(** The record a save writes keeps a hashed password: the password
    written is the stored one when the document did not modify it, a
    bcrypt hash made by the pre-save hook otherwise. *)
Lemma merge_password_hashed (d : Doc) pw s :
  password_hashed s ->
  ((is_modified P_password d = false /\ pw = password (doc d)) \/
   exists p salt, password (doc d) = Some p /\ pw = Some (bcrypt_hash p salt)) ->
  password_hashed (merge (fun p => is_modified p d) (with_password pw (doc d)) s).
Proof.
  intros Hs Hpw h Hh. cbn [merge password with_password] in Hh.
  destruct Hpw as [[Hm ->]|(p & salt & _ & ->)].
  - rewrite Hm in Hh. exact (Hs h Hh).
  - destruct (is_modified P_password d); [|exact (Hs h Hh)].
    injection Hh as <-. eauto.
Qed.

(** A save keeps every stored password a hash: a modified password is
    hashed by the pre-save hook, an unmodified one is not written. *)
Lemma keeps_save_creds v d : keeps (on_db creds_db) (save v d).
Proof.
  intros w [Hnd Hp]. unfold on_db, creds_db in *.
  destruct (save_db v d w) as [Hdb|(s & pw & Hs & Hdb & Hpw)]; unfold final in Hdb; rewrite Hdb;
    [done|].
  split; [by rewrite replace_by_id_ids|]. apply replace_by_id_Forall; [done|].
  pose proof (find_first_Some _ _ _ Hs) as [_ Hin]. rewrite Forall_forall in Hp.
  by apply merge_password_hashed; [apply Hp|].
Qed.

(** What [User.create] may do to the collection: nothing, or append a
    record with a fresh id. *)
Lemma User_create_db i w :
  db (snd (User_create i w)) = db w \/
  exists u, _id u = fresh_id (db w) /\ db (snd (User_create i w)) = (db w ++ [u])%list.
Proof.
  destruct (truthy (in_password i)) eqn:Ht.
  - destruct (truthy_Some _ Ht) as (p & Hp & Hne).
    rewrite (User_create_run _ _ _ Hp Hne). destruct (hd false (faults w)); [by left|].
    right. eexists. split; [|reflexivity]. by destruct i.
  - left. unfold User_create, st_bind, st_get. cbn [doc]. by rewrite input_user_password, Ht.
Qed.

Lemma keeps_User_create i : keeps (on_db ids_db) (User_create i).
Proof.
  intros w Hw. unfold on_db, ids_db in *.
  destruct (User_create_db i w) as [->|(u & Hu & ->)]; [done|].
  apply ids_snoc; [done|]. rewrite Hu. apply fresh_id_not_in.
Qed.
End KeepsWrites.

#[export] Hint Resolve keeps_save_ids keeps_save_creds keeps_User_create : threads.

(** ** The threads keep the invariants *)

Lemma thread_keeps_seg_catch I {X} (m : ST World X) (k : X -> Thread) (h : string -> Thread) :
  keeps I m -> (forall x, thread_keeps I (k x)) -> (forall e, thread_keeps I (h e)) ->
  thread_keeps I (seg_catch m k h).
Proof.
  intros Hm Hk Hh. apply thread_keeps_await.
  - apply keeps_catch; [apply keeps_bind; [done|intros; apply keeps_ret]|intros; apply keeps_ret].
  - apply ret_spec_catch; [apply ret_spec_bind; intros; by apply ret_spec_ret|].
    intros e. by apply ret_spec_ret.
Qed.

(** Decompose a [thread_keeps] goal along the segments of a thread. *)
Ltac thread_keeps_step :=
  match goal with
  | |- thread_keeps _ (Done _) => constructor
  | |- thread_keeps _ (tail _) => apply thread_keeps_tail
  | |- thread_keeps _ (seg _ _) => apply thread_keeps_seg; [|intros ?]
  | |- thread_keeps _ (seg_catch _ _ _) => apply thread_keeps_seg_catch; [|intros ?|intros ?]
  | |- thread_keeps _ (Await _) => apply thread_keeps_await
  | |- thread_keeps _ (forgotPassword_rollback _) => unfold forgotPassword_rollback
  | |- thread_keeps _ (forgotPassword_token _) => unfold forgotPassword_token
  | |- thread_keeps _ (postUser_error _) => constructor
  | |- thread_keeps _ (match ?x with _ => _ end) => destruct x
  | |- thread_keeps _ (if ?b then _ else _) => destruct b
  | |- ret_spec _ _ => ret_spec_step
  | |- keeps _ _ => first [solve [eauto with threads] | keeps_step]
  end.

Section ThreadsKeep.
Context `{PasswordHasher} `{Digest} `{TokenSigner}.
Context (cfg : Config).
Variable P : list User -> Prop.
Hypothesis keeps_save : forall v d, keeps (on_db P) (save v d).
#[local] Hint Resolve keeps_save : threads.

(** Every thread of a credential route keeps any store invariant that
    [save] keeps: the other operations leave the store as it is. *)
Lemma auth_thread_keeps a : thread_keeps (on_db P) (auth_thread cfg a).
Proof.
  destruct a as [r|r|r|r|r]; cbn [auth_thread];
    unfold login_thread, forgotPassword_thread, resetPassword_thread, updatePassword_thread,
      logout_thread; cbv zeta; repeat thread_keeps_step.
Qed.
End ThreadsKeep.

(** Decompose a [within] goal along the segments of a thread. *)
Ltac within_step :=
  match goal with
  | |- within _ (Done _) => constructor
  | |- within _ (tail _) => apply within_tail
  | |- within _ (seg _ _) => apply within_seg; intros ?
  | |- within _ (seg_catch _ _ _) => apply within_await_spec
  | |- within _ (Await _) => apply within_await_spec
  | |- within _ (forgotPassword_rollback _) => unfold forgotPassword_rollback
  | |- within _ (forgotPassword_token _) => unfold forgotPassword_token
  | |- within _ (postUser_error _) => constructor
  | |- within _ (match ?x with _ => _ end) => destruct x
  | |- within _ (if ?b then _ else _) => destruct b
  | |- ret_spec _ _ => ret_spec_step
  end.

Section ServerProps.
Context `{PasswordHasher} `{Digest} `{TokenSigner}.
Context (cfg : Config).

Lemma serve_thread_ids q : thread_keeps (on_db ids_db) (serve_thread cfg q).
Proof.
  destruct q as [a|r|r|r|r|r|r]; cbn [serve_thread].
  - apply auth_thread_keeps, keeps_save_ids.
  - apply thread_keeps_tail. intros w Hw. exact (serve_ids cfg (RGetUsers r) w Hw).
  - unfold postUser_thread. repeat thread_keeps_step.
  - apply thread_keeps_tail. intros w Hw. exact (serve_ids cfg (RDeleteUsers r) w Hw).
  - apply thread_keeps_tail. intros w Hw. exact (serve_ids cfg (RGetUser r) w Hw).
  - apply thread_keeps_tail. intros w Hw. exact (serve_ids cfg (RUpdateUser r) w Hw).
  - apply thread_keeps_tail. intros w Hw. exact (serve_ids cfg (RDeleteUser r) w Hw).
Qed.
End ServerProps.

Section ServerClaims.
Context `{PasswordHasher} `{Digest} `{TokenSigner}.
Context (cfg : Config).

(** C11. Over every schedule of the server (requests arriving at any
    time, their segments interleaved in any order, the clock advancing
    and the store failing at will), from an idle server: through the
    credential routes, ids stay unique and every stored password stays
    a bcrypt hash; through all the routes, ids stay unique. *)
Theorem concurrent_store_invariants w0 c :
  (creds_db (db w0) -> rtc (cstep (auth_thread cfg)) (w0, []) c -> creds_db (db c.1)) /\
  (ids_db (db w0) -> rtc (cstep (serve_thread cfg)) (w0, []) c -> ids_db (db c.1)).
Proof.
  split; intros Hw0 Hr.
  - apply (rtc_cstep_ok _ _ (on_db creds_db) (auth_thread_keeps cfg creds_db keeps_save_creds))
      in Hr as [Hc _]; [done|done|done|split; [done|constructor]].
  - apply (rtc_cstep_ok _ _ (on_db ids_db) (serve_thread_ids cfg)) in Hr as [Hc _];
      [done|done|done|split; [done|constructor]].
Qed.

End ServerClaims.

(** ** Witnesses *)

Section Witnesses.
Import ToyCrypto.
#[local] Existing Instance signer0.

Lemma creds_db_w0 : creds_db (db w0).
Proof.
  split; [by_decide|].
  repeat constructor; intros h [= <-]; by eexists _, _.
Qed.

(** A forgot request for alice arrives and runs both its segments. *)
Definition forgot_run : Conf :=
  sched_at 0 (sched_at 0 (w0, [auth_thread cfg0 (RForgot (rq_forgot "a@x.io"))])).

Lemma forgot_run_reached : rtc (cstep (auth_thread cfg0)) (w0, []) forgot_run.
Proof.
  eapply rtc_l; [apply (cstep_arrive _ _ (RForgot (rq_forgot "a@x.io")))|].
  eapply rtc_l; [apply cstep_sched, (sched_at_step 0); by vm_compute|].
  apply rtc_once, cstep_sched, (sched_at_step 0). by vm_compute.
Qed.

(** The store now holds alice's reset digest and is still well formed. *)
Lemma concurrent_store_invariants_witness :
  db forgot_run.1 <> db w0 /\ creds_db (db forgot_run.1).
Proof.
  split; [vm_compute; congruence|].
  apply (proj1 (concurrent_store_invariants cfg0 w0 forgot_run));
    [apply creds_db_w0|apply forgot_run_reached].
Defined.
End Witnesses.
