(* ===== verification/Races.v ===== *)
(** * Races: the lost updates of [Concurrency] as schedules of the server

    [Concurrency] runs two requests split in two segments in the order
    read, read, write, write ([interleave]).  Here that order is shown
    to be a schedule of the server of [Threads]: after both requests
    arrive, the scheduler resumes the first one's query, then the
    second one's, then runs the first to its end, then the second.  The
    two races of [Concurrency] then happen in the server itself, with
    the handlers' threads and all their segments. *)

From stdpp Require Import base list strings relations.
From Stdlib Require Import ZArith String Lia.
From S2P Require Import Prelude Crypto Jwt UserModel Http Fixtures Auth AuthProps Concurrency Invariants Threads Server.
Open Scope string_scope.
Open Scope Z_scope.
Local Open Scope st_scope.

(** ** Read, read, write, write is a schedule *)

Lemma resume_cont {X} (e : Exc X) (k : X -> Thread) w :
  Concurrency.resume e (fun x => run (k x)) w = run (cont e k) w.
Proof. by destruct e. Qed.

Lemma within_cont {X} n (e : Exc X) (k : X -> Thread) :
  (forall x, within n (k x)) -> within n (cont e k).
Proof. intros Hk. destruct e; [apply Hk|constructor]. Qed.

(** Two requests, each a segment followed by a bounded rest: resuming
    the first's segment, the second's, then running the first to its
    end and the second to its end computes [interleave]. *)
Lemma interleave_schedule {A C} n (m1 : ST World A) (k1 : A -> Thread)
    (m2 : ST World C) (k2 : C -> Thread) w o1 o2 :
  (forall a, within n (k1 a)) -> (forall c, within n (k2 c)) ->
  let run2 := interleave m1 (fun a => run (k1 a)) m2 (fun c => run (k2 c)) in
  outcome run2 w = Ret (o1, o2) ->
  rtc sched_step (w, [seg m1 k1; seg m2 k2]) (final run2 w, [Done o1; Done o2]).
Proof.
  intros Hk1 Hk2 run2. unfold run2, interleave, outcome, final.
  destruct (m1 w) as [e1 w1] eqn:E1. destruct (m2 w1) as [e2 w2] eqn:E2.
  rewrite !resume_cont.
  destruct (run (cont e1 k1) w2) as [r1 w3] eqn:R1. rewrite resume_cont.
  destruct (run (cont e2 k2) w3) as [r2 w4] eqn:R2. simpl. intros Ho. injection Ho as <- <-.
  eapply rtc_l; [apply (sched_resume 0); reflexivity|].
  rewrite resume_thread_seg, E1. simpl.
  eapply rtc_l; [apply (sched_resume 1); reflexivity|].
  rewrite resume_thread_seg, E2. simpl.
  etrans; [apply (sched_run_thread n (cont e1 k1) w2 [cont e1 k1; cont e2 k2] 0);
            [by apply within_cont|reflexivity]|].
  rewrite R1. simpl.
  etrans; [apply (sched_run_thread n (cont e2 k2) w3 [Done r1; cont e2 k2] 1);
            [by apply within_cont|reflexivity]|].
  rewrite R2. simpl. apply rtc_refl.
Qed.

(** Two requests arriving at an idle server, then scheduled read, read,
    write, write. *)
Lemma arrive_two_then {R} (thread : R -> Thread) a b w c :
  rtc sched_step (w, [thread a; thread b]) c -> rtc (cstep thread) (w, []) c.
Proof.
  intros Hs. apply (rtc_l _ _ (w, [thread a])); [exact (cstep_arrive _ thread a w [])|].
  apply (rtc_l _ _ (w, [thread a; thread b])); [exact (cstep_arrive _ thread b w [thread a])|].
  eapply rtc_subrel; [intros ??; apply cstep_sched|exact Hs].
Qed.

Lemma interleave_ext {A C} (m1 m1' : ST World A) (k1 k1' : A -> ST World Response)
    (m2 m2' : ST World C) (k2 k2' : C -> ST World Response) w :
  (forall w, m1 w = m1' w) -> (forall a w, k1 a w = k1' a w) ->
  (forall w, m2 w = m2' w) -> (forall c w, k2 c w = k2' c w) ->
  interleave m1 k1 m2 k2 w = interleave m1' k1' m2' k2' w.
Proof.
  intros H1 Hk1 H2 Hk2. unfold interleave. rewrite H1.
  destruct (m1' w) as [e1 w1]. rewrite H2. destruct (m2' w1) as [e2 w2].
  destruct e1; simpl; rewrite ?Hk1;
    [destruct (k1' _ w2) as [o1 w3]|]; destruct e2; simpl; rewrite ?Hk2; done.
Qed.

(** Two requests whose threads are a segment and a rest of at most two
    segments: their read, read, write, write run is reached by the
    server from an idle one. *)
Lemma race_in_server {R} (thread : R -> Thread) a b {A C}
    (m1 : ST World A) (k1 : A -> Thread) (m2 : ST World C) (k2 : C -> Thread)
    (k1' : A -> ST World Response) (k2' : C -> ST World Response) w o1 o2 :
  thread a = seg m1 k1 -> thread b = seg m2 k2 ->
  (forall x, within 2 (k1 x)) -> (forall x, within 2 (k2 x)) ->
  (forall x w, run (k1 x) w = k1' x w) -> (forall x w, run (k2 x) w = k2' x w) ->
  outcome (interleave m1 k1' m2 k2') w = Ret (o1, o2) ->
  rtc (cstep thread) (w, []) (final (interleave m1 k1' m2 k2') w, [Done o1; Done o2]).
Proof.
  intros Ha Hb Hw1 Hw2 Hr1 Hr2 Ho. apply (arrive_two_then thread a b). rewrite Ha, Hb.
  assert (Hi : interleave m1 k1' m2 k2' w =
               interleave m1 (fun x => run (k1 x)) m2 (fun x => run (k2 x)) w)
    by (apply interleave_ext; intros; rewrite ?Hr1, ?Hr2; done).
  unfold outcome, final in *. rewrite Hi in Ho |- *.
  by apply (interleave_schedule 2).
Qed.

(** ** The handlers' threads are a query followed by a bounded rest *)

Section Shapes.
Context `{PasswordHasher} `{Digest} `{TokenSigner}.
Context (cfg : Config).

Lemma resetPassword_thread_shape req rt :
  q_resetToken (query req) = Some rt ->
  exists k, resetPassword_thread cfg req = seg (resetPassword_read req) k /\
    (forall x, within 2 (k x)) /\ (forall x w, run (k x) w = resetPassword_write cfg req x w).
Proof.
  intros Hq. eexists. split; [|split].
  - unfold resetPassword_thread, resetPassword_read. rewrite Hq. reflexivity.
  - intros [d|]; cbv zeta; repeat within_step.
  - intros [d|] w; [|reflexivity]. unfold resetPassword_write. cbv zeta.
    rewrite run_seg. apply st_bind_ext. intros d4 w'. apply run_tail.
Qed.

Lemma forgotPassword_thread_shape req :
  exists k, forgotPassword_thread req = seg (forgotPassword_read req) k /\
    (forall x, within 2 (k x)) /\ (forall x w, run (k x) w = forgotPassword_write req x w).
Proof.
  eexists. split; [reflexivity|split].
  - intros [d|]; repeat within_step.
  - intros [d|] w; [apply forgotPassword_token_run|reflexivity].
Qed.
End Shapes.

(** ** The races in the server *)

Section ServerRaces.
Context `{PasswordHasher} `{Digest} `{TokenSigner}.
Context (cfg : Config).

(** C26. Two resets with one valid token arriving together at an idle
    server: the schedule that runs both queries before either save
    finishes both requests successfully, each client receiving a
    session for the record's owner, and the second save overwrites the
    first new password; the token is used twice, which spec section 5
    forbids. *)
Theorem concurrent_resets_in_server reqA reqB w rt u pA pB n :
  q_resetToken (query reqA) = Some rt -> q_resetToken (query reqB) = Some rt ->
  in_password (body reqA) = Some pA -> in_password (body reqB) = Some pB ->
  pA <> "" -> pB <> "" ->
  find_first (reset_matches (sha256_hex rt) (now w)) (db w) = Some u ->
  NoDup (_id <$> db w) -> faults w = [] -> JWT_COOKIE_EXPIRE cfg = Some n ->
  let session := Some (JObj [("success", JBool true); ("token", JToken (ts_issue (_id u) (now w)))]) in
  exists rA rB w', rtc (cstep (auth_thread cfg)) (w, []) (w', [Done (Ret rA); Done (Ret rB)]) /\
    body_json rA = session /\ body_json rB = session /\
    db w' = replace_by_id (reset_record u pB (rng w (S (rng_ctr w)))) (db w).
Proof.
  intros HqA HqB HpA HpB HneA HneB Hf Hnd Hfl Hn session.
  destruct (concurrent_resets_both_succeed cfg reqA reqB w rt u pA pB n
              HqA HqB HpA HpB HneA HneB Hf Hnd Hfl Hn) as (rA & rB & Ho & HA & HB & Hdb).
  destruct (resetPassword_thread_shape cfg reqA rt HqA) as (kA & HtA & HwA & HrA).
  destruct (resetPassword_thread_shape cfg reqB rt HqB) as (kB & HtB & HwB & HrB).
  eexists rA, rB, _. split_and!; [|exact HA|exact HB|exact Hdb].
  exact (race_in_server (auth_thread cfg) (RReset reqA) (RReset reqB) _ kA _ kB _ _ w _ _
           HtA HtB HwA HwB HrA HrB Ho).
Qed.

(** C34. A [forgotPassword] and a reset with the account's still valid
    older token arriving together at an idle server: in the schedule
    that runs both queries, then the forgot request to its end, then
    the reset, both succeed and the forgot request hands out a fresh
    token; the reset's save unsets that token's expiry, so a later
    reset with it is rejected as ["Invalid Token"] at every time. *)
Theorem reset_during_forgot_in_server req_f req_r w rt u p n :
  q_resetToken (query req_r) = Some rt -> in_password (body req_r) = Some p -> p <> "" ->
  find_first (reset_matches (sha256_hex rt) (now w)) (db w) = Some u ->
  find_first (email_is (in_email (body req_f))) (db w) = Some u ->
  NoDup (_id <$> db w) -> faults w = [] -> JWT_COOKIE_EXPIRE cfg = Some n ->
  Forall (fun v => resetPasswordToken v <> Some (sha256_hex (rng w (rng_ctr w))))
         (filter (fun v => _id v <> _id u) (db w)) ->
  let tok := rng w (rng_ctr w) in
  exists rR w', rtc (cstep (auth_thread cfg)) (w, [])
                  (w', [Done (Ret (reset_issued_response tok)); Done (Ret rR)]) /\
    forall req dt, q_resetToken (query req) = Some tok ->
      outcome (resetPassword cfg req) (tick dt w') = Throw "Invalid Token".
Proof.
  intros Hq Hp Hne Hr Hf Hnd Hfl Hn Hold tok.
  destruct (reset_during_forgot_voids_token cfg req_f req_r w rt u p n
              Hq Hp Hne Hr Hf Hnd Hfl Hn Hold) as (rR & Ho & Hlater).
  destruct (forgotPassword_thread_shape req_f) as (kF & HtF & HwF & HrF).
  destruct (resetPassword_thread_shape cfg req_r rt Hq) as (kR & HtR & HwR & HrR).
  eexists rR, _. split; [|exact Hlater].
  exact (race_in_server (auth_thread cfg) (RForgot req_f) (RReset req_r) _ kF _ kR _ _ w _ _
           HtF HtR HwF HwR HrF HrR Ho).
Qed.
End ServerRaces.

(** ** Witnesses *)

Section Witnesses.
Import ToyCrypto.
#[local] Existing Instance signer0.

Lemma concurrent_resets_in_server_witness :
  let session := Some (JObj [("success", JBool true);
                             ("token", JToken (ts_issue (_id (hd alice (db w_reset))) (now w_reset)))]) in
  exists rA rB w', rtc (cstep (auth_thread cfg0)) (w_reset, []) (w', [Done (Ret rA); Done (Ret rB)]) /\
    body_json rA = session /\ body_json rB = session /\
    db w' = replace_by_id (reset_record (hd alice (db w_reset)) "b" (rng w_reset (S (rng_ctr w_reset))))
                          (db w_reset).
Proof.
  exact (concurrent_resets_in_server cfg0 (rq_reset "t0" "a") (rq_reset "t0" "b") w_reset "t0"
           (hd alice (db w_reset)) "a" "b" 2 eq_refl eq_refl eq_refl eq_refl
           ltac:(discriminate) ltac:(discriminate) eq_refl ltac:(by_decide) eq_refl eq_refl).
Defined.

Lemma reset_during_forgot_in_server_witness :
  exists rR w', rtc (cstep (auth_thread cfg0)) (w_race, [])
                  (w', [Done (Ret (reset_issued_response "t1")); Done (Ret rR)]) /\
    forall req dt, q_resetToken (query req) = Some "t1" ->
      outcome (resetPassword cfg0 req) (tick dt w') = Throw "Invalid Token".
Proof.
  exact (reset_during_forgot_in_server cfg0 (rq_forgot "a@x.io") (rq_reset "t0" "b") w_race "t0"
           (hd alice (db w_race)) "b" 2 eq_refl eq_refl ltac:(discriminate) eq_refl eq_refl
           ltac:(by_decide) eq_refl eq_refl ltac:(by_decide)).
Defined.
End Witnesses.
