(* ===== verification/ResetPairs.v ===== *)
(** * ResetPairs: the reset digest and its expiry over every schedule

    Spec section 3 asks that a record hold a reset digest and its expiry
    together or neither, and section 5 that no interleaving of requests
    (and no request abandoned halfway) break it.  The sequential server
    keeps it ([Invariants.reachable_store_ok]).  Under interleaving a
    save writes only the paths its document marked modified, and
    Mongoose marks a path only when the value assigned differs from the
    one the document was loaded with: a [forgotPassword] whose fresh
    token had the digest the record held when it was read would write
    the expiry alone, over a record whose digest a concurrent request
    may have cleared meanwhile.  The pairing therefore holds over every
    schedule when no random draw repeats an earlier one and the digest
    is collision-free: a stored digest is never the digest of a draw to
    come.

    The proof uses the rely-guarantee judgement of [Threads]: a thread
    suspended in a world may be resumed in any later world with the
    same random stream and a counter at least as far ([rely]). *)

From stdpp Require Import base list strings relations.
From Stdlib Require Import ZArith String Lia.
From S2P Require Import Prelude Crypto Jwt UserModel Http Fixtures Auth AuthProps Invariants Threads Server.
Open Scope string_scope.
Open Scope Z_scope.
Local Open Scope st_scope.

(** ** Documents whose save keeps the pairing *)

Lemma elem_of_mark p q c (ps : list Path) :
  bool_decide (p ∈ mark q c ps) = bool_decide (p ∈ ps) || (bool_decide (p = q) && c).
Proof.
  unfold mark. destruct c; simpl; [|by rewrite andb_false_r, orb_false_r].
  rewrite andb_true_r. apply Bool.eq_iff_eq_true.
  rewrite orb_true_iff, !bool_decide_eq_true.
  destruct (bool_decide (q ∈ ps)) eqn:E; simpl;
    [apply bool_decide_eq_true in E|apply bool_decide_eq_false in E];
    rewrite ?bool_decide_eq_true; set_solver.
Qed.

Lemma elem_of_mark_other p q c (ps : list Path) :
  p <> q -> bool_decide (p ∈ mark q c ps) = bool_decide (p ∈ ps).
Proof. intros Hpq. rewrite elem_of_mark, (bool_decide_false (p = q)) by done. apply orb_false_r. Qed.

Lemma elem_of_mark_changed p (ps : list Path) : bool_decide (p ∈ mark p true ps) = true.
Proof. rewrite elem_of_mark, (bool_decide_true (p = p)) by done. apply orb_true_r. Qed.

(** A document whose modified reset paths keep the pairing of any
    record they are written over: an expiry written with a value comes
    with a digest written with a value, a digest written unset comes
    with an expiry written unset. *)
Definition doc_pairs (d : Doc) : Prop :=
  (is_modified P_resetPasswordExpire d = true -> resetPasswordExpire (doc d) <> None ->
     is_modified P_resetPasswordToken d = true /\ resetPasswordToken (doc d) <> None) /\
  (is_modified P_resetPasswordToken d = true -> resetPasswordToken (doc d) = None ->
     is_modified P_resetPasswordExpire d = true /\ resetPasswordExpire (doc d) = None).

(** The fields of a merge. *)
Lemma merge_expire mask src dst :
  resetPasswordExpire (merge mask src dst) =
    if mask P_resetPasswordExpire then resetPasswordExpire src else resetPasswordExpire dst.
Proof. reflexivity. Qed.

Lemma merge_token mask src dst :
  resetPasswordToken (merge mask src dst) =
    if mask P_resetPasswordToken then resetPasswordToken src else resetPasswordToken dst.
Proof. reflexivity. Qed.

Lemma merge_password mask src dst :
  password (merge mask src dst) = if mask P_password then password src else password dst.
Proof. reflexivity. Qed.

Lemma with_password_fields pw u :
  resetPasswordExpire (with_password pw u) = resetPasswordExpire u /\
  resetPasswordToken (with_password pw u) = resetPasswordToken u /\
  password (with_password pw u) = pw.
Proof. done. Qed.

Lemma merge_expiry_has_token (d : Doc) pw s :
  doc_pairs d -> expiry_has_token s ->
  expiry_has_token (merge (fun p => is_modified p d) (with_password pw (doc d)) s).
Proof.
  intros [HA HB] Hs. unfold expiry_has_token.
  destruct (with_password_fields pw (doc d)) as (He & Ht & _).
  rewrite merge_expire, merge_token, He, Ht.
  destruct (is_modified P_resetPasswordExpire d) eqn:Ee;
    destruct (is_modified P_resetPasswordToken d) eqn:Et; intros Hx.
  - by destruct (HA eq_refl Hx).
  - by destruct (HA eq_refl Hx).
  - intros Hn. destruct (HB eq_refl Hn) as [? _]. congruence.
  - by apply Hs.
Qed.

(** ** The invariant and the rely *)

Section Pairs.
Context `{PasswordHasher} `{Digest} `{!DigestInjective}.

(** The random stream is fixed and its counter only grows. *)
Definition rely (w w' : World) : Prop := rng w' = rng w /\ (rng_ctr w <= rng_ctr w')%nat.

(** No stored digest is the digest of a random draw to come. *)
Definition future_free (w : World) : Prop :=
  forall u h j, u ∈ db w -> resetPasswordToken u = Some h -> (rng_ctr w <= j)%nat ->
  h <> sha256_hex (rng w j).

(** The well-formed store of [Invariants], a store with no digest of a
    draw to come, and a random stream that never repeats. *)
Definition pairs_inv (w : World) : Prop :=
  store_ok (db w) /\ future_free w /\ Inj eq eq (rng w).

Lemma rely_refl w : rely w w.
Proof. by split. Qed.

Lemma rely_trans w1 w2 w3 : rely w1 w2 -> rely w2 w3 -> rely w1 w3.
Proof. intros [Ha Hb] [Hc Hd]. split; [congruence|lia]. Qed.

Lemma rely_same_db w w' :
  db w' = db w -> rng w' = rng w -> (rng_ctr w <= rng_ctr w')%nat ->
  pairs_inv w -> pairs_inv w' /\ rely w w'.
Proof.
  intros Hdb Hr Hc (Hok & Hff & Hinj). unfold pairs_inv, rely.
  split_and!; [by rewrite Hdb| |by rewrite Hr|done|done].
  intros u h j Hu Ht Hj. rewrite Hdb in Hu. rewrite Hr. apply (Hff u h j Hu Ht). lia.
Qed.

(** A save only consumes random draws and fault entries. *)
Lemma save_rely v d w : rely w (snd (save v d w)).
Proof.
  unfold save, pre_save, write_modified, next_write_fails, draw_random, rely; st_unfold.
  destruct (_ && _); [simpl; split; [done|lia]|].
  destruct (is_modified P_password d); [destruct (password (doc d))|]; simpl;
    try (split; [done|lia]);
    destruct (modified d); simpl; try (split; [done|lia]);
    repeat (case_match; simplify_eq/=); split; try done; lia.
Qed.

(** A save of a document that keeps the pairing, and whose written
    digest is no digest of a draw to come, keeps the invariant. *)
Lemma save_pairs v d w :
  pairs_inv w -> doc_pairs d ->
  (is_modified P_resetPasswordToken d = true -> forall h j,
     resetPasswordToken (doc d) = Some h -> (rng_ctr w <= j)%nat -> h <> sha256_hex (rng w j)) ->
  pairs_inv (snd (save v d w)) /\ rely w (snd (save v d w)).
Proof.
  intros Hinv Hd Hc. pose proof (save_rely v d w) as Hr. split; [|done].
  destruct Hr as [Hrng Hctr]. destruct Hinv as ((Hnd & He & Hp) & Hff & Hinj).
  destruct (save_db v d w) as [Hdb|(s & pw & Hs & Hdb & Hpw)]; unfold final in Hdb.
  - by apply (rely_same_db w); [| | |split_and!].
  - pose proof (find_first_Some _ _ _ Hs) as [_ Hin].
    rewrite Forall_forall in He, Hp.
    set (m := merge (fun p => is_modified p d) (with_password pw (doc d)) s) in *.
    unfold pairs_inv, future_free. rewrite Hdb, Hrng. split_and!; [| |done].
    + apply store_ok_replace; [split_and!; [done|by apply Forall_forall..]| |].
      * apply merge_expiry_has_token; [done|by apply He].
      * apply merge_password_hashed; [by apply Hp|done].
    + intros u h j Hu Ht Hj. apply elem_of_replace_by_id in Hu as [->|[Hu _]].
      * unfold m in Ht. rewrite merge_token in Ht.
        destruct (with_password_fields pw (doc d)) as (_ & Htk & _). rewrite Htk in Ht.
        destruct (is_modified P_resetPasswordToken d) eqn:Et.
        -- apply (Hc eq_refl h j Ht). lia.
        -- apply (Hff s h j Hin Ht). lia.
      * apply (Hff u h j Hu Ht). lia.
Qed.
End Pairs.

(** ** The documents the credential handlers save *)

Section Docs.
Context `{PasswordHasher} `{Digest}.

(** [resetPassword]'s document writes no digest and an unset expiry. *)
Lemma reset_doc_token pv u :
  is_modified P_resetPasswordToken (assign_resetPasswordExpire None
    (assign_resetPasswordExpire None (assign_password pv (hydrate false u)))) = false.
Proof.
  unfold is_modified. cbn [modified assign_resetPasswordExpire assign_password hydrate].
  by rewrite !elem_of_mark_other.
Qed.

Lemma reset_doc_pairs pv u :
  doc_pairs (assign_resetPasswordExpire None (assign_resetPasswordExpire None
               (assign_password pv (hydrate false u)))).
Proof. split; [by intros _ []|]. by rewrite reset_doc_token. Qed.

(** [forgotPassword]'s document, when the fresh digest differs from the
    one the record held when read: the digest is written with its
    expiry. *)
Lemma forgot_doc_pairs u tok t :
  resetPasswordToken u <> Some (sha256_hex tok) ->
  is_modified P_resetPasswordToken (forgot_doc u tok t) = true /\
  resetPasswordToken (doc (forgot_doc u tok t)) = Some (sha256_hex tok) /\
  doc_pairs (forgot_doc u tok t).
Proof.
  intros Hne. assert (Hm : is_modified P_resetPasswordToken (forgot_doc u tok t) = true).
  { unfold forgot_doc, is_modified.
    cbn [modified assign_resetPasswordExpire assign_resetPasswordToken hydrate].
    rewrite elem_of_mark_other by done.
    rewrite (bool_decide_true (Some (sha256_hex tok) ≠ _)) by (simpl; congruence). apply elem_of_mark_changed. }
  split_and!; [done|reflexivity|split; [intros _ _; by split|]].
  intros _ Hn. discriminate Hn.
Qed.

(** Its rollback unsets both reset paths. *)
Lemma rollback_doc_pairs u tok t : doc_pairs (rollback_doc u tok t).
Proof.
  split; [by intros _ []|]. intros _ _. split; [|reflexivity].
  unfold rollback_doc, is_modified. cbn [modified assign_resetPasswordExpire].
  rewrite (bool_decide_true (None ≠ _)) by (simpl; congruence). apply elem_of_mark_changed.
Qed.

(** A document with no modified path writes nothing. *)
Lemma hydrate_doc_pairs sel u : doc_pairs (hydrate sel u).
Proof. by split. Qed.
End Docs.

(** ** The threads of the credential routes keep the pairing *)

Section ThreadPairs.
Context `{PasswordHasher} `{Digest} `{!DigestInjective} `{TokenSigner}.
Context (cfg : Config).
Local Abbreviation rgk := (rg_keeps pairs_inv rely).
Local Arguments save : simpl never.
Local Arguments sendTokenResponse : simpl never.

Lemma rg_tail_same w0 m : (forall w, snd (m w) = w) -> rgk w0 (tail m).
Proof. intros Hm. apply (rg_seg_same _ _ rely_refl); [done|]. intros. constructor. Qed.

(** A save segment of a document that writes no digest. *)
Lemma rg_save_no_token w0 v d (k : Doc -> Thread) :
  doc_pairs d -> is_modified P_resetPasswordToken d = false ->
  (forall d' w', rgk w' (k d')) -> rgk w0 (seg (save v d) k).
Proof.
  intros Hd Ht Hk. apply rg_seg. intros w _ Hw.
  destruct (save_pairs v d w Hw Hd) as [Hw' Hr]; [by rewrite Ht|]. split_and!; [done|done|].
  intros. apply Hk.
Qed.

Lemma rg_send w0 d sc : rgk w0 (tail (sendTokenResponse cfg d sc)).
Proof. apply rg_tail_same. intros w. apply sendTokenResponse_final_db. Qed.

Lemma matchPassword_same d e w : snd (matchPassword d e w) = w.
Proof. unfold matchPassword. by repeat case_match. Qed.

Lemma login_thread_rg req w0 : rgk w0 (login_thread cfg req).
Proof.
  unfold login_thread. cbv zeta. destruct (_ || _); [constructor|].
  apply (rg_seg_same _ _ rely_refl); [done|]. intros w [d|] _ _ _; [|constructor].
  apply (rg_seg_same _ _ rely_refl); [apply matchPassword_same|]. intros w' b _ _ _.
  destruct (negb b); [constructor|apply rg_send].
Qed.

Lemma updatePassword_thread_rg req w0 : rgk w0 (updatePassword_thread cfg req).
Proof.
  unfold updatePassword_thread. destruct (req_user req) as [uid|]; [|constructor].
  apply (rg_seg_same _ _ rely_refl); [done|]. intros w x _ _ E.
  unfold findById, find_with in E. injection E as <-.
  destruct (find_first _ _) as [u|]; simpl; [|constructor].
  apply (rg_seg_same _ _ rely_refl); [apply matchPassword_same|]. intros w' b _ _ _.
  destruct (negb b); [constructor|].
  apply rg_save_no_token; [apply hydrate_doc_pairs|done|intros; apply rg_send].
Qed.

Lemma resetPassword_thread_rg req w0 : rgk w0 (resetPassword_thread cfg req).
Proof.
  unfold resetPassword_thread. destruct (q_resetToken (query req)) as [rt|]; [|constructor].
  cbv zeta. apply (rg_seg_same _ _ rely_refl); [done|]. intros w x _ _ E.
  unfold st_bind, date_now, findOne_reset, find_with in E. injection E as <-.
  destruct (find_first _ _) as [u|]; simpl; [|constructor].
  apply rg_save_no_token; [apply reset_doc_pairs|apply reset_doc_token|intros; apply rg_send].
Qed.

Lemma getResetPasswordToken_run d w :
  getResetPasswordToken d w =
    (Ret (rng w (rng_ctr w),
          assign_resetPasswordExpire (Some (now w + 10 * 60 * 1000))
            (assign_resetPasswordToken (Some (sha256_hex (rng w (rng_ctr w)))) d)),
     mkWorld (db w) (now w) (rng w) (S (rng_ctr w)) (faults w)).
Proof. reflexivity. Qed.

(** The [catch] block of [forgotPassword] unsets both reset paths. *)
Lemma rollback_rg w0 u tok t : rgk w0 (forgotPassword_rollback (forgot_doc u tok t)).
Proof.
  constructor. intros w _ Hw. change (assign_resetPasswordExpire None
    (assign_resetPasswordToken None (forgot_doc u tok t))) with (rollback_doc u tok t).
  destruct (save_pairs false (rollback_doc u tok t) w Hw (rollback_doc_pairs u tok t))
    as [Hw' Hr]; [by intros _ h j [=]|].
  unfold st_bind. destruct (save false (rollback_doc u tok t) w) as [[d'|e] w'] eqn:Es;
    simpl in *; split_and!; try done; by intros ? ? [=].
Qed.

(** The token segment of [forgotPassword] on a record read in a world
    satisfying the invariant: resumed in any later world, its fresh
    digest differs from the one the record held, so the save writes the
    digest with its expiry. *)
Lemma forgot_token_rg w0 u : pairs_inv w0 -> u ∈ db w0 -> rgk w0 (forgotPassword_token (hydrate false u)).
Proof.
  intros Hw0 Hu. constructor. intros w [Hrng Hctr] Hw.
  set (tok := rng w (rng_ctr w)).
  set (w1 := mkWorld (db w) (now w) (rng w) (S (rng_ctr w)) (faults w)).
  assert (Hfresh : resetPasswordToken u <> Some (sha256_hex tok)).
  { destruct Hw0 as (_ & Hff & _). intros Ht. apply (Hff u _ (rng_ctr w) Hu Ht Hctr).
    unfold tok. by rewrite Hrng. }
  destruct (forgot_doc_pairs u tok (now w) Hfresh) as (Hm & Htk & Hd).
  destruct (rely_same_db w w1) as [Hw1 Hr1]; [done|done|simpl; lia|done|].
  destruct (save_pairs false (forgot_doc u tok (now w)) w1 Hw1 Hd) as [Hw3 Hr3].
  { intros _ h j Ht Hj. rewrite Htk in Ht. injection Ht as <-. intros Heq.
    apply sha256_hex_inj in Heq. destruct Hw as (_ & _ & Hinj).
    apply Hinj in Heq. simpl in Hj. lia. }
  assert (E : forall (k : string * Doc -> ST World Thread),
             st_bind (getResetPasswordToken (hydrate false u)) k w = k (tok, forgot_doc u tok (now w)) w1)
    by reflexivity.
  unfold forgotPassword_token. rewrite E. unfold st_catch, st_bind, st_ret.
  destruct (save false (forgot_doc u tok (now w)) w1) as [[d'|e] w3] eqn:Es;
    simpl in *; split_and!; try done; try (by apply (rely_trans w w1)).
  - intros t w' [= <- <-]. constructor.
  - intros t w' [= <- <-]. apply rollback_rg.
Qed.

Lemma forgotPassword_thread_rg req w0 : rgk w0 (forgotPassword_thread req).
Proof.
  unfold forgotPassword_thread. apply (rg_seg_same _ _ rely_refl); [done|].
  intros w x _ Hw E. unfold findOne_email, find_with in E. injection E as <-.
  destruct (find_first _ _) as [u|] eqn:Hf; simpl; [|constructor].
  apply forgot_token_rg; [done|]. by apply find_first_Some in Hf as [_ Hin].
Qed.

Lemma auth_thread_rg a w0 : rgk w0 (auth_thread cfg a).
Proof.
  destruct a as [r|r|r|r|r]; cbn [auth_thread].
  - apply login_thread_rg.
  - apply forgotPassword_thread_rg.
  - apply resetPassword_thread_rg.
  - apply updatePassword_thread_rg.
  - by apply rg_tail_same.
Qed.
End ThreadPairs.


(** ** Over every schedule *)

Section Schedules.
Context `{PasswordHasher} `{Digest} `{!DigestInjective} `{TokenSigner}.
Context (cfg : Config).

Lemma tick_pairs dt w : 0 <= dt -> pairs_inv w -> pairs_inv (tick dt w) /\ rely w (tick dt w).
Proof. intros _ Hw. by apply rely_same_db. Qed.

Lemma faults_pairs fs w : pairs_inv w -> pairs_inv (set_faults fs w) /\ rely w (set_faults fs w).
Proof. intros Hw. by apply rely_same_db. Qed.

(** C12. Over every schedule of the credential routes (requests
    arriving at any time, their segments interleaved in any order,
    requests abandoned halfway, clock ticks and store failures), from
    a world whose store is well formed, whose random stream never
    repeats and where no stored digest is the digest of a draw to come:
    ids stay unique, every stored expiry sits beside a digest, and every
    stored password is a bcrypt hash. *)
Theorem concurrent_reset_pairs w0 c :
  pairs_inv w0 -> rtc (cstep (auth_thread cfg)) (w0, []) c -> store_ok (db c.1).
Proof.
  intros Hw0 Hr.
  destruct (rtc_cstep_rg _ _ pairs_inv rely rely_refl rely_trans
              (fun a w _ => auth_thread_rg cfg a w) tick_pairs faults_pairs _ _ Hr)
    as [(Hok & _) _]; [split; [done|constructor]|done].
Qed.
End Schedules.

(** ** Witness *)

(** A random stream that never repeats: the [n]-th draw has length [n]. *)
Fixpoint tally (n : nat) : string :=
  match n with O => "" | S k => String (Ascii.ascii_of_nat 124) (tally k) end.

Lemma tally_length n : String.length (tally n) = n.
Proof. induction n as [|n IH]; simpl; congruence. Qed.

#[local] Instance tally_inj : Inj eq eq tally.
Proof. intros m n E. rewrite <- (tally_length m), <- (tally_length n). by rewrite E. Qed.

Section Witness.
Import ToyCrypto.
#[local] Existing Instance signer0.

Definition w_fresh : World := mkWorld (db w0) (now w0) tally 0%nat [].

Lemma pairs_inv_w_fresh : pairs_inv w_fresh.
Proof.
  split_and!; [exact store_ok_w0| |apply _].
  intros u h j Hu Ht. repeat (apply elem_of_cons in Hu as [->|Hu]; [done|]). by inversion Hu.
Qed.

(** A forgot request for alice arrives and runs both its segments. *)
Definition forgot_fresh : Conf :=
  sched_at 0 (sched_at 0 (w_fresh, [auth_thread cfg0 (RForgot (rq_forgot "a@x.io"))])).

Lemma forgot_fresh_reached : rtc (cstep (auth_thread cfg0)) (w_fresh, []) forgot_fresh.
Proof.
  eapply rtc_l; [apply (cstep_arrive _ _ (RForgot (rq_forgot "a@x.io")))|].
  eapply rtc_l; [apply cstep_sched, (sched_at_step 0); by vm_compute|].
  apply rtc_once, cstep_sched, (sched_at_step 0). by vm_compute.
Qed.

(** The store now holds alice's digest beside its expiry. *)
Lemma concurrent_reset_pairs_witness :
  db forgot_fresh.1 <> db w_fresh /\ store_ok (db forgot_fresh.1).
Proof.
  split; [vm_compute; congruence|].
  exact (concurrent_reset_pairs cfg0 w_fresh forgot_fresh pairs_inv_w_fresh forgot_fresh_reached).
Defined.

(** The hypothesis on the draws is needed.  With a stream that repeats
    ["t0"], alice holding the digest of ["t0"], and a first write that
    fails: two forgot requests for alice read her record; the second
    draws ["t0"] (same digest, so only the expiry is marked), its save
    fails and its [catch] block unsets both reset paths; the first then
    draws ["t0"] too and writes the expiry alone: alice's record holds
    an expiry without a digest. *)
Definition w_repeat : World :=
  mkWorld (db w_reset) (now w_reset + 1) (fun _ => "t0") 0%nat [true].

Definition forgot_race : Conf :=
  let c0 := (w_repeat, [auth_thread cfg0 (RForgot (rq_forgot "a@x.io"));
                        auth_thread cfg0 (RForgot (rq_forgot "a@x.io"))]) in
  sched_at 0 (sched_at 1 (sched_at 1 (sched_at 1 (sched_at 0 c0)))).

Lemma forgot_race_reached : rtc (cstep (auth_thread cfg0)) (w_repeat, []) forgot_race.
Proof.
  apply (rtc_l _ _ (w_repeat, [auth_thread cfg0 (RForgot (rq_forgot "a@x.io"))])).
  { exact (cstep_arrive _ _ (RForgot (rq_forgot "a@x.io")) w_repeat []). }
  eapply rtc_l.
  { exact (cstep_arrive _ _ (RForgot (rq_forgot "a@x.io")) w_repeat
             [auth_thread cfg0 (RForgot (rq_forgot "a@x.io"))]). }
  eapply rtc_l; [apply cstep_sched, (sched_at_step 0); by vm_compute|].
  eapply rtc_l; [apply cstep_sched, (sched_at_step 1); by vm_compute|].
  eapply rtc_l; [apply cstep_sched, (sched_at_step 1); by vm_compute|].
  eapply rtc_l; [apply cstep_sched, (sched_at_step 1); by vm_compute|].
  apply rtc_once, cstep_sched, (sched_at_step 0). by vm_compute.
Qed.

Lemma pairs_need_fresh_draws :
  store_ok (db w_repeat) /\ rtc (cstep (auth_thread cfg0)) (w_repeat, []) forgot_race /\
  ~ store_ok (db forgot_race.1).
Proof.
  split_and!; [|exact forgot_race_reached|].
  - split_and!; [by_decide| |].
    + repeat apply Forall_cons_2; try apply Forall_nil_2; unfold expiry_has_token; simpl;
        [intros _; discriminate|intros Hc; exfalso; by apply Hc].
    + repeat constructor; intros h Hh; simplify_eq/=; by eexists _, _.
  - intros (_ & He & _). vm_compute in He. inversion He as [|x l Hx _ Hxl].
    by apply Hx.
Qed.
End Witness.

